(** * Cannoli: the graph-object execution protocol and group construction

    A shallow embedding of the parts of the Cannoli workflow engine that
    decide its execution protocol:

    - [models/group.ts]: [CannoliGroup], [ListGroup], [RepeatGroup]
      (membership wiring, the edge-dependency check, the type cascade,
      the repeat loop);
    - [models/edge.ts]: [CannoliEdge], [ChatConverterEdge],
      [SystemMessageEdge], [LoggingEdge];
    - [models/node.ts]: [CannoliNode.loadOutgoingEdges],
      [getListArrayFromContent], the [dependencyCompleted] overrides and
      [ChooseNode].

    Objects live in one shared store, the [graph] mapping from id to
    object; every method of the source mutates objects through that
    store, so the methods are state transformers over it.  JavaScript
    exceptions are explicit results.  The [update] notifications an
    object emits are recorded in a trace; the listeners that react to
    them are wired by [models/object.ts], which is not among the
    sources, so a theorem about several calls in a row is stated for
    whatever the rest of the graph does in between.  Strings are
    sequences of 8-bit characters: the model covers ASCII text, where a
    JavaScript string index and a character index agree. *)

From stdpp Require Import gmap strings list pretty.
From Stdlib Require Import ZArith Ascii String.

Set Warnings "-register-all".

Open Scope string_scope.
Open Scope list_scope.
Open Scope Z_scope.

(** ** JavaScript strings *)

Module Js.

(** [StrWhiteSpaceChar], restricted to ASCII: TAB, LF, VT, FF, CR, SP. *)
Definition is_space (c : ascii) : bool :=
  match nat_of_ascii c with
  | 9%nat | 10%nat | 11%nat | 12%nat | 13%nat | 32%nat => true
  | _ => false
  end.

Fixpoint trimStart (s : string) : string :=
  match s with
  | String c s' => if is_space c then trimStart s' else s
  | EmptyString => EmptyString
  end.

Fixpoint trimEnd (s : string) : string :=
  match s with
  | String c s' =>
      match trimEnd s' with
      | EmptyString => if is_space c then EmptyString else String c EmptyString
      | t => String c t
      end
  | EmptyString => EmptyString
  end.

Definition trim (s : string) : string := trimEnd (trimStart s).

(** [s.substring(a, b)]: the arguments are clamped to the length and
    swapped when out of order. *)
Definition substring (s : string) (a b : nat) : string :=
  String.substring (Nat.min a b) (Nat.max a b - Nat.min a b) s.

(** [s.substring(a)] and [s.slice(a)] for [0 <= a]. *)
Definition substringFrom (s : string) (a : nat) : string :=
  String.substring a (String.length s - a) s.

(** [s.slice(a, -b)] for [0 <= a] and [0 < b]. *)
Definition sliceBack (s : string) (a b : nat) : string :=
  String.substring a (String.length s - b - a) s.

(** [s[0]]: [None] stands for [undefined]. *)
Definition head (s : string) : option ascii :=
  match s with
  | String c _ => Some c
  | EmptyString => None
  end.

Definition startsWith (s p : string) : bool := String.prefix p s.

Definition endsWith (s p : string) : bool :=
  (String.length p <=? String.length s)%nat
  && String.eqb (String.substring (String.length s - String.length p)
                                  (String.length p) s) p.

(** [s.split(sep)] for a one-character separator. *)
Fixpoint split (sep : ascii) (s : string) : list string :=
  match s with
  | EmptyString => [EmptyString]
  | String c s' =>
      if Ascii.eqb c sep then EmptyString :: split sep s'
      else match split sep s' with
           | w :: ws => String c w :: ws
           | [] => [String c EmptyString]
           end
  end.

(** [s.replace(pat, rep)] with a string pattern: the first occurrence
    only.  The replacement is inserted as it is, which is what
    JavaScript does for a replacement without a dollar sign. *)
Fixpoint replace (pat rep s : string) : string :=
  if String.prefix pat s
  then rep +:+ String.substring (String.length pat) (String.length s) s
  else match s with
       | String c s' => String c (replace pat rep s')
       | EmptyString => EmptyString
       end.

Definition toUpperCase_ascii (c : ascii) : ascii :=
  let n := nat_of_ascii c in
  if (97 <=? n)%nat && (n <=? 122)%nat then ascii_of_nat (n - 32) else c.

(** Truthiness of a string value: the empty string is falsy. *)
Definition truthy (s : string) : bool :=
  match s with EmptyString => false | _ => true end.

Definition digit_value (radix : Z) (c : ascii) : option Z :=
  let n := Z.of_nat (nat_of_ascii c) in
  let v := if (48 <=? n) && (n <=? 57) then Some (n - 48)
           else if (97 <=? n) && (n <=? 122) then Some (n - 87)
           else if (65 <=? n) && (n <=? 90) then Some (n - 55)
           else None in
  match v with
  | Some d => if d <? radix then Some d else None
  | None => None
  end.

(** The longest prefix of digits of the radix, read as a number;
    [None] when there is no digit at all. *)
Fixpoint digits (radix : Z) (acc : option Z) (s : string) : option Z :=
  match s with
  | String c s' =>
      match digit_value radix c with
      | Some d =>
          digits radix (Some (match acc with Some a => a * radix + d | None => d end)) s'
      | None => acc
      end
  | EmptyString => acc
  end.

(** [parseInt(s)] with no radix argument: leading white space is
    skipped, a sign is read, a prefix [0x] or [0X] selects radix 16, and
    the longest run of digits is the number; [None] stands for [NaN]. *)
Definition parseInt (s : string) : option Z :=
  let s1 := trimStart s in
  let '(sign, s2) :=
    match s1 with
    | String "-" r => (-1, r)
    | String "+" r => (1, r)
    | _ => (1, s1)
    end in
  let '(radix, s3) :=
    match s2 with
    | String "0" (String "x" r) => (16, r)
    | String "0" (String "X" r) => (16, r)
    | _ => (10, s2)
    end in
  match digits radix None s3 with
  | Some n => Some (sign * n)
  | None => None
  end.

End Js.

(** The double-quote character, and a string in double quotes. *)
Definition dquote : string := String (ascii_of_nat 34) EmptyString.
Definition quoted (s : string) : string := dquote +:+ s +:+ dquote.
Definition newline : string := String (ascii_of_nat 10) EmptyString.

(** ** The data model *)

Inductive CannoliObjectKind := Edge | Node | Group.

Inductive CannoliObjectStatus := Pending | Executing | Complete | Rejected.

Global Instance CannoliObjectKind_eq_dec : EqDecision CannoliObjectKind.
Proof. solve_decision. Defined.

Global Instance CannoliObjectStatus_eq_dec : EqDecision CannoliObjectStatus.
Proof. solve_decision. Defined.

(** The classes of the three model files; [instanceof] follows the
    [extends] chain. *)
Inductive Class :=
  | CannoliVertex
  | CannoliEdge | ChatConverterEdge | SystemMessageEdge | LoggingEdge
  | ChatResponseEdge
  | CannoliNode | CallNode | FormNode | AccumulateNode | ChooseNode
  | ContentNode | ReferenceNode | HttpNode | FormatterNode | FloatingNode
  | CannoliGroup | ListGroup | RepeatGroup | ForEachGroup.

Global Instance Class_eq_dec : EqDecision Class.
Proof. solve_decision. Defined.

Definition superclass (c : Class) : option Class :=
  match c with
  | CannoliVertex | CannoliEdge => None
  | ChatConverterEdge | SystemMessageEdge | LoggingEdge | ChatResponseEdge =>
      Some CannoliEdge
  | CannoliNode | CannoliGroup => Some CannoliVertex
  | CallNode | ContentNode | FloatingNode => Some CannoliNode
  | FormNode | AccumulateNode | ChooseNode => Some CallNode
  | ReferenceNode | HttpNode | FormatterNode => Some ContentNode
  | ListGroup | RepeatGroup | ForEachGroup => Some CannoliGroup
  end.

(** [x instanceof c] for an object of class [x]; the chain is at most
    three links long. *)
Definition instanceof (x c : Class) : bool :=
  bool_decide (x = c)
  || match superclass x with
     | Some p =>
         bool_decide (p = c)
         || match superclass p with
            | Some q =>
                bool_decide (q = c)
                || match superclass q with
                   | Some r => bool_decide (r = c)
                   | None => false
                   end
            | None => false
            end
     | None => false
     end.

(** The [type] tag of a typed object.  The enumerations are declared in
    [models/graph.ts]; the members the three files test are named, the
    others are carried by name. *)
Module EdgeType.
Inductive t := Item | Choice | Chat | SystemMessage | ChatResponse
               | Logging | Write | Config | Field | List | Variable_
               | Other (name : string).
End EdgeType.

Module ContentNodeType.
Inductive t := StandardContent | Output | Http | Other (name : string).
End ContentNodeType.

Module GroupType.
Inductive t := Repeat | List | Basic | NonLogic | ForEach.
End GroupType.

Inductive ObjectType :=
  | TEdge (t : EdgeType.t)
  | TNode (t : ContentNodeType.t)
  | TGroup (t : GroupType.t).

Global Instance EdgeType_eq_dec : EqDecision EdgeType.t.
Proof. solve_decision. Defined.
Global Instance ContentNodeType_eq_dec : EqDecision ContentNodeType.t.
Proof. solve_decision. Defined.
Global Instance GroupType_eq_dec : EqDecision GroupType.t.
Proof. solve_decision. Defined.
Global Instance ObjectType_eq_dec : EqDecision ObjectType.
Proof. solve_decision. Defined.

(** A dependency entry: one id, or an array of ids. *)
Inductive Dependency :=
  | DepId (d : string)
  | DepSet (ds : list string).

(** An entry of [incomingEdges] / [outgoingEdges]. *)
Record EdgeRef := { ref_id : string; ref_isReflexive : bool }.

(** [ChatCompletionRequestMessage]. *)
Module Msg.
Record FunctionCall := { name : string; arguments : string }.
Record t := {
    role : string;
    content : option string;
    function_call : option FunctionCall
  }.
End Msg.

(** The payload of an edge: [string | Record<string, string>]. *)
Inductive Content :=
  | CStr (s : string)
  | CRec (r : list (string * string)).

(** A request.  Of every field other than [messages] the model keeps
    the key, the truthiness of the value and its rendering in a template
    literal, in the order [for ... in] enumerates them. *)
Record RequestField := { fkey : string; ftruthy : bool; frendered : string }.

Record Request := {
  req_messages : option (list Msg.t);
  req_fields : list RequestField
}.

(** One record for every graph object, as a JavaScript object is one
    bag of fields; a field that the object's class does not declare
    holds its empty default.  [currentLoop] is [None] until it is
    assigned: the constructor of [RepeatGroup] does not initialise it. *)
Record CannoliObject := {
  id : string;
  text : string;
  kind : CannoliObjectKind;
  cls : Class;
  type : option ObjectType;
  status : CannoliObjectStatus;
  dependencies : list Dependency;
  isClone : bool;
  color : option string;
  (* CannoliVertex *)
  groups : list string;
  incomingEdges : list EdgeRef;
  outgoingEdges : list EdgeRef;
  (* CannoliEdge *)
  source : string;
  target : string;
  crossingInGroups : list string;
  crossingOutGroups : list string;
  isReflexive : bool;
  addMessages : bool;
  content : option Content;
  messages : option (list Msg.t);
  (* CannoliGroup and its subclasses *)
  members : list string;
  maxLoops : Z;
  currentLoop : option Z;
  numberOfVersions : Z;
  copyId : Z
}.

Definition set_status (s : CannoliObjectStatus) (o : CannoliObject) :=
  {| id := id o; text := text o; kind := kind o; cls := cls o; type := type o;
     status := s; dependencies := dependencies o; isClone := isClone o;
     color := color o; groups := groups o; incomingEdges := incomingEdges o;
     outgoingEdges := outgoingEdges o; source := source o; target := target o;
     crossingInGroups := crossingInGroups o;
     crossingOutGroups := crossingOutGroups o; isReflexive := isReflexive o;
     addMessages := addMessages o; content := content o;
     messages := messages o; members := members o; maxLoops := maxLoops o;
     currentLoop := currentLoop o; numberOfVersions := numberOfVersions o;
     copyId := copyId o |}.

Definition set_text (t : string) (o : CannoliObject) :=
  {| id := id o; text := t; kind := kind o; cls := cls o; type := type o;
     status := status o; dependencies := dependencies o; isClone := isClone o;
     color := color o; groups := groups o; incomingEdges := incomingEdges o;
     outgoingEdges := outgoingEdges o; source := source o; target := target o;
     crossingInGroups := crossingInGroups o;
     crossingOutGroups := crossingOutGroups o; isReflexive := isReflexive o;
     addMessages := addMessages o; content := content o;
     messages := messages o; members := members o; maxLoops := maxLoops o;
     currentLoop := currentLoop o; numberOfVersions := numberOfVersions o;
     copyId := copyId o |}.

Definition set_dependencies (d : list Dependency) (o : CannoliObject) :=
  {| id := id o; text := text o; kind := kind o; cls := cls o; type := type o;
     status := status o; dependencies := d; isClone := isClone o;
     color := color o; groups := groups o; incomingEdges := incomingEdges o;
     outgoingEdges := outgoingEdges o; source := source o; target := target o;
     crossingInGroups := crossingInGroups o;
     crossingOutGroups := crossingOutGroups o; isReflexive := isReflexive o;
     addMessages := addMessages o; content := content o;
     messages := messages o; members := members o; maxLoops := maxLoops o;
     currentLoop := currentLoop o; numberOfVersions := numberOfVersions o;
     copyId := copyId o |}.

Definition set_content (c : option Content) (o : CannoliObject) :=
  {| id := id o; text := text o; kind := kind o; cls := cls o; type := type o;
     status := status o; dependencies := dependencies o; isClone := isClone o;
     color := color o; groups := groups o; incomingEdges := incomingEdges o;
     outgoingEdges := outgoingEdges o; source := source o; target := target o;
     crossingInGroups := crossingInGroups o;
     crossingOutGroups := crossingOutGroups o; isReflexive := isReflexive o;
     addMessages := addMessages o; content := c;
     messages := messages o; members := members o; maxLoops := maxLoops o;
     currentLoop := currentLoop o; numberOfVersions := numberOfVersions o;
     copyId := copyId o |}.

Definition set_messages (m : option (list Msg.t)) (o : CannoliObject) :=
  {| id := id o; text := text o; kind := kind o; cls := cls o; type := type o;
     status := status o; dependencies := dependencies o; isClone := isClone o;
     color := color o; groups := groups o; incomingEdges := incomingEdges o;
     outgoingEdges := outgoingEdges o; source := source o; target := target o;
     crossingInGroups := crossingInGroups o;
     crossingOutGroups := crossingOutGroups o; isReflexive := isReflexive o;
     addMessages := addMessages o; content := content o;
     messages := m; members := members o; maxLoops := maxLoops o;
     currentLoop := currentLoop o; numberOfVersions := numberOfVersions o;
     copyId := copyId o |}.

Definition set_members (m : list string) (o : CannoliObject) :=
  {| id := id o; text := text o; kind := kind o; cls := cls o; type := type o;
     status := status o; dependencies := dependencies o; isClone := isClone o;
     color := color o; groups := groups o; incomingEdges := incomingEdges o;
     outgoingEdges := outgoingEdges o; source := source o; target := target o;
     crossingInGroups := crossingInGroups o;
     crossingOutGroups := crossingOutGroups o; isReflexive := isReflexive o;
     addMessages := addMessages o; content := content o;
     messages := messages o; members := m; maxLoops := maxLoops o;
     currentLoop := currentLoop o; numberOfVersions := numberOfVersions o;
     copyId := copyId o |}.

Definition set_currentLoop (n : option Z) (o : CannoliObject) :=
  {| id := id o; text := text o; kind := kind o; cls := cls o; type := type o;
     status := status o; dependencies := dependencies o; isClone := isClone o;
     color := color o; groups := groups o; incomingEdges := incomingEdges o;
     outgoingEdges := outgoingEdges o; source := source o; target := target o;
     crossingInGroups := crossingInGroups o;
     crossingOutGroups := crossingOutGroups o; isReflexive := isReflexive o;
     addMessages := addMessages o; content := content o;
     messages := messages o; members := members o; maxLoops := maxLoops o;
     currentLoop := n; numberOfVersions := numberOfVersions o;
     copyId := copyId o |}.

(** ** The shared store and effects *)

(** What is recorded of a run: the [update] notifications an object
    emits, and the calls of the methods the protocol is about
    ([execute], [load], [reject], [resetMembers], [error]), each
    recorded by the method that is called. *)
Inductive Event :=
  | Update (obj : string) (st : CannoliObjectStatus)
  | Execute (obj : string)
  | Load (obj : string) (c : option Content) (r : option Request)
  | Reject (obj : string)
  | ResetMembers (obj : string)
  | ErrorReported (obj : string) (msg : string).

(** A JavaScript exception. *)
Inductive Exn :=
  | TypeError
  | SyntaxError
  | Error (msg : string).

(** The [graph] mapping every object holds a reference to, and the
    events emitted so far, oldest first. *)
Record World := {
  graph : gmap string CannoliObject;
  trace : list Event
}.

(** A method: it reads and mutates the store, and returns or throws. *)
Definition M (A : Type) : Type := World -> (Exn + A) * World.

Definition ret {A} (a : A) : M A := fun w => (inr a, w).

Definition bind {A B} (m : M A) (k : A -> M B) : M B :=
  fun w =>
    match m w with
    | (inr a, w') => k a w'
    | (inl e, w') => (inl e, w')
    end.

Global Instance M_ret : MRet M := @ret.
Global Instance M_bind : MBind M := fun A B k m => bind m k.

Definition throw {A} (e : Exn) : M A := fun w => (inl e, w).

(** [this.graph[i]]; [None] stands for [undefined]. *)
Definition lookup_obj (i : string) : M (option CannoliObject) :=
  fun w => (inr (graph w !! i), w).

(** [this.graph[i]] where a property of the result is read next: a
    [TypeError] when there is no such object. *)
Definition get_obj (i : string) : M CannoliObject :=
  fun w =>
    match graph w !! i with
    | Some o => (inr o, w)
    | None => (inl TypeError, w)
    end.

(** An assignment to fields of the object [i]. *)
Definition modify (i : string) (f : CannoliObject -> CannoliObject) : M unit :=
  fun w => (inr tt, {| graph := alter f i (graph w); trace := trace w |}).

Definition emit (e : Event) : M unit :=
  fun w => (inr tt, {| graph := graph w; trace := trace w ++ [e] |}).

(** [for (const x of l) { body(x) }] *)
Fixpoint for_of {A} (l : list A) (body : A -> M unit) : M unit :=
  match l with
  | [] => ret tt
  | x :: l' => bind (body x) (fun _ => for_of l' body)
  end.

(** The final store and result of running a method. *)
Definition result {A} (r : (Exn + A) * World) : Exn + A := fst r.
Definition world {A} (r : (Exn + A) * World) : World := snd r.

(** ** [CannoliObject], the base class

    [models/object.ts] is not among the sources.  Its methods called by
    the three files are modelled from the specification of the object
    state machine. *)

(** Modelled from the spec: [CannoliObject.executing] of
    [models/object.ts]; it sets the status to Executing and emits the
    notification. *)
Definition executing (this : string) : M unit :=
  modify this (set_status Executing);;
  emit (Update this Executing).


(** Modelled from the spec: [CannoliObject.reject] of
    [models/object.ts]; it sets the status to Rejected and emits the
    notification.  The call is recorded. *)
Definition reject (this : string) : M unit :=
  emit (Reject this);;
  modify this (set_status Rejected);;
  emit (Update this Rejected).

(** Modelled from the spec: [CannoliObject.error] of [models/object.ts];
    the object is Rejected and the message is recorded. *)
Definition error (this : string) (msg : string) : M unit :=
  modify this (set_status Rejected);;
  emit (ErrorReported this msg);;
  emit (Update this Rejected).

(** Modelled from the spec: [CannoliObject.reset] of [models/object.ts];
    it returns the status to Pending and clears the content. *)
Definition CannoliObject_reset (this : string) : M unit :=
  modify this (fun o => set_content None (set_status Pending o));;
  emit (Update this Pending).

(** Modelled from the spec: [CannoliObject.addDependency] of
    [models/object.ts]; it appends an entry to the dependency list. *)
Definition addDependency (this : string) (d : Dependency) : M unit :=
  modify this (fun o => set_dependencies (dependencies o ++ [d]) o).





(** Modelled from the spec: [execute] as a vertex inherits it from
    [models/object.ts]; for a group it is the transition to Executing
    that enables the members. *)
Definition CannoliVertex_execute (this : string) : M unit :=
  emit (Execute this);;
  executing this.

(** ** Collaborators

    The library calls of the three files whose results the model takes
    as given: [JSON], remeda's path functions, the regular-expression
    engine, the run's format string, and [ChatResponseEdge.load], whose
    class [models/node.ts] imports from a file that is not among the
    sources. *)

Inductive Json :=
  | JNull
  | JBool (b : bool)
  | JNum (n : Z)
  | JStr (s : string)
  | JArr (l : list Json)
  | JObj (fields : list (string * Json)).

(** A match of a global regular expression: where it starts, where it
    ends (the [lastIndex] it leaves), and the text of group 1. *)
Record Match := { m_index : nat; m_end : nat; m_role : string }.

Class Host := {
  (** [JSON.parse]; [None] when it throws *)
  JSON_parse : string -> option Json;
  (** [JSON.stringify(v)] *)
  JSON_stringify : Json -> string;
  (** [JSON.stringify(v, null, 2)] *)
  JSON_stringify_pretty : Json -> string;
  stringToPath : string -> list string;
  pathOr : Json -> list string -> Json -> Json;
  (** [new RegExp(pattern, "g")], [None] when it throws; the result is
      [exec], from a subject and a [lastIndex] to the next match *)
  RegExp : string -> option (string -> nat -> option Match);
  (** [this.run.chatFormatString] *)
  chatFormatString : option string;
  ChatResponseEdge_load : string -> option Content -> option Request -> M unit
}.

Definition Json_truthy (v : Json) : bool :=
  match v with
  | JNull => false
  | JBool b => b
  | JNum n => negb (n =? 0)
  | JStr s => Js.truthy s
  | JArr _ | JObj _ => true
  end.

(** ** [models/group.ts] *)

(** [CannoliGroup.setMembers].  [keys] is the order in which
    [for ... in] enumerates the keys of the graph. *)
Definition CannoliGroup_setMembers (this : string) (keys : list string) : M unit :=
  for_of keys (fun objectId =>
    object ← lookup_obj objectId;
    match object with
    | Some object =>
        if instanceof (cls object) CannoliVertex then
          t ← get_obj this;
          if bool_decide (id t ∈ groups object) then
            modify this (fun o => set_members (members o ++ [id object]) o);;
            addDependency this (DepId (id object));;
            for_of (incomingEdges t) (fun edge =>
              if negb (ref_isReflexive edge)
              then addDependency objectId (DepId (ref_id edge))
              else ret tt)
          else ret tt
        else ret tt
    | None => ret tt
    end).

(** [CannoliGroup.allMembersCompleteOrRejected] *)
Fixpoint allMembersCompleteOrRejected (g : gmap string CannoliObject)
    (ms : list string) : Exn + bool :=
  match ms with
  | [] => inr true
  | member :: ms' =>
      match g !! member with
      | None => inl TypeError
      | Some o =>
          if negb (bool_decide (status o = Complete))
             && negb (bool_decide (status o = Rejected))
          then inr false
          else allMembersCompleteOrRejected g ms'
      end
  end.

(** [dependency.some((dep) => this.graph[dep].status === Complete)] *)
Fixpoint some_complete (g : gmap string CannoliObject) (ds : list string)
  : Exn + bool :=
  match ds with
  | [] => inr false
  | dep :: ds' =>
      match g !! dep with
      | None => inl TypeError
      | Some o =>
          if bool_decide (status o = Complete) then inr true
          else some_complete g ds'
      end
  end.

(** [dependency.every((dep) => this.graph[dep].kind === Edge)] *)
Fixpoint every_edge (g : gmap string CannoliObject) (ds : list string)
  : Exn + bool :=
  match ds with
  | [] => inr true
  | dep :: ds' =>
      match g !! dep with
      | None => inl TypeError
      | Some o =>
          if bool_decide (kind o = Edge) then every_edge g ds'
          else inr false
      end
  end.

(** The test the loop of [allEdgeDependenciesComplete] makes of one
    entry: [true] is [continue], [false] is [return false]. *)
Definition edgeDependencyComplete (g : gmap string CannoliObject)
    (dependency : Dependency) : Exn + bool :=
  match dependency with
  | DepSet ds =>
      match some_complete g ds with
      | inl e => inl e
      | inr false => inr false
      | inr true => every_edge g ds
      end
  | DepId d =>
      match g !! d with
      | None => inl TypeError
      | Some o =>
          inr (bool_decide (status o = Complete)
               && bool_decide (kind o = Edge))
      end
  end.

(** [CannoliGroup.allEdgeDependenciesComplete] *)
Fixpoint allEdgeDependenciesComplete (g : gmap string CannoliObject)
    (deps : list Dependency) : Exn + bool :=
  match deps with
  | [] => inr true
  | dependency :: deps' =>
      match edgeDependencyComplete g dependency with
      | inl e => inl e
      | inr true => allEdgeDependenciesComplete g deps'
      | inr false => inr false
      end
  end.

(** The result of a pure check, inside a method. *)
Definition lift {A} (f : gmap string CannoliObject -> Exn + A) : M A :=
  fun w => (f (graph w), w).

(** ** [reset], by class *)

Section Reset.
Context `{Host}.

(** [ContentNode.getName] of [models/node.ts] *)
Definition ContentNode_getName (o : CannoliObject) : option string :=
  let firstLine :=
    Js.trim (List.hd EmptyString (Js.split (ascii_of_nat 10) (text o))) in
  if Js.startsWith firstLine "["
     && Js.endsWith firstLine "]"
     && negb (bool_decide (type o = Some (TNode ContentNodeType.StandardContent)))
  then match JSON_parse firstLine with
       | Some _ => None
       | None => Some (Js.substring firstLine 1 (String.length firstLine - 1))
       end
  else None.

(** [ContentNode.reset] of [models/node.ts] *)
Definition ContentNode_reset (this : string) : M unit :=
  o ← get_obj this;
  (if bool_decide (type o = Some (TNode ContentNodeType.StandardContent))
      || bool_decide (type o = Some (TNode ContentNodeType.Output))
   then
     match ContentNode_getName o with
     | Some _ =>
         if negb (bool_decide (type o = Some (TNode ContentNodeType.StandardContent)))
         then modify this (fun o =>
                set_text (List.hd EmptyString (Js.split (ascii_of_nat 10) (text o))) o)
         else modify this (set_text EmptyString)
     | None => modify this (set_text EmptyString)
     end
   else ret tt);;
  CannoliObject_reset this.

(** [CannoliEdge.reset] of [models/edge.ts] *)
Definition CannoliEdge_reset (this : string) : M unit :=
  o ← get_obj this;
  if negb (isReflexive o) then CannoliObject_reset this else ret tt.

(** [RepeatGroup.reset] *)
Definition RepeatGroup_reset (this : string) : M unit :=
  CannoliObject_reset this;;
  modify this (set_currentLoop (Some 0)).

(** [x.reset(run)] for the object [x = this.graph[i]]: the method of the
    object's class. *)
Definition reset (i : string) : M unit :=
  o ← get_obj i;
  if instanceof (cls o) CannoliEdge then CannoliEdge_reset i
  else if instanceof (cls o) RepeatGroup then RepeatGroup_reset i
  else if instanceof (cls o) ContentNode then ContentNode_reset i
  else CannoliObject_reset i.

(** [RepeatGroup.resetMembers] *)
Definition RepeatGroup_resetMembers (this : string) : M unit :=
  emit (ResetMembers this);;
  t ← get_obj this;
  for_of (members t) (fun member =>
    reset member;;
    m ← get_obj member;
    for_of (outgoingEdges m) (fun edge => reset (ref_id edge))).

(** [RepeatGroup.membersFinished] *)
Definition RepeatGroup_membersFinished (this : string) : M unit :=
  t ← get_obj this;
  match currentLoop t with
  | Some c =>
      if c <? maxLoops t then
        modify this (set_currentLoop (Some (c + 1)));;
        RepeatGroup_resetMembers this
      else
        modify this (set_status Complete);;
        emit (Update this Complete)
  | None =>
      modify this (set_status Complete);;
      emit (Update this Complete)
  end.

(** [x.membersFinished(run)]: [CannoliGroup] declares it empty and
    [RepeatGroup] overrides it. *)
Definition membersFinished (this : string) : M unit :=
  t ← get_obj this;
  if instanceof (cls t) RepeatGroup then RepeatGroup_membersFinished this
  else ret tt.

(** [CannoliGroup.dependencyCompleted] *)
Definition CannoliGroup_dependencyCompleted (this : string) : M unit :=
  t ← get_obj this;
  match status t with
  | Pending =>
      b ← lift (fun g => allEdgeDependenciesComplete g (dependencies t));
      if b : bool then CannoliVertex_execute this else ret tt
  | Executing =>
      b ← lift (fun g => allMembersCompleteOrRejected g (members t));
      if b : bool then membersFinished this else ret tt
  | _ => ret tt
  end.

End Reset.

(** ** Construction of a typed group ([models/group.ts]) *)

Module IndicatedGroupType.
Inductive t := Repeat | List | Basic | NonLogic.
End IndicatedGroupType.

Module IndicatedNodeType.
Inductive t := NonLogic | Other (name : string).
End IndicatedNodeType.

(** The names of the properties every object literal inherits from
    [Object.prototype]: under such a name [key in object] is true and
    [object[key]] is the inherited value, a function or, for
    [__proto__], the prototype. *)
Definition Object_prototype_keys : list string :=
  ["constructor"; "hasOwnProperty"; "isPrototypeOf"; "propertyIsEnumerable";
   "toLocaleString"; "toString"; "valueOf"; "__proto__";
   "__defineGetter__"; "__defineSetter__"; "__lookupGetter__";
   "__lookupSetter__"].

(** What [getIndicatedType] returns: a member of one of the three
    enumerations of indicated types, or the value an object literal
    inherits under the name [key]. *)
Inductive Indicated :=
  | IndEdge (name : string)
  | IndNode (t : IndicatedNodeType.t)
  | IndGroup (t : IndicatedGroupType.t)
  | IndInherited (key : string).

(** [c in this.GroupPrefixMap], for the first character of a label *)
Definition in_GroupPrefixMap (c : option ascii) : bool :=
  match c with
  | Some c => Ascii.eqb c "<"
  | None => false
  end.

(** [color in this.GroupColorMap]: the map is an object literal with
    the one key [5], and [in] finds the inherited names as well. *)
Definition in_GroupColorMap (color : string) : bool :=
  String.eqb color "5" || bool_decide (color ∈ Object_prototype_keys).

(** [this.GroupColorMap[color]] for a colour that is [in] the map. *)
Definition GroupColorMap_get (color : string) : Indicated :=
  if String.eqb color "5" then IndGroup IndicatedGroupType.List
  else IndInherited color.

(** [CannoliGroup.getLabelNumber] *)
Definition getLabelNumber (this : CannoliObject) : option Z :=
  let label := text this in
  let label :=
    if in_GroupPrefixMap (Js.head label) then Js.substringFrom label 1
    else label in
  Js.parseInt label.

Definition is_NonLogic (i : Indicated) : bool :=
  match i with
  | IndNode IndicatedNodeType.NonLogic => true
  | IndGroup IndicatedGroupType.NonLogic => true
  | _ => false
  end.

(** [CannoliGroup.getIndicatedType].  [memberTypes] is what
    [getIndicatedType] returns on each member, in the order of
    [getMembers]. *)
Definition getIndicatedType (this : CannoliObject)
    (memberTypes : list Indicated) : Indicated :=
  let byLabelAndMembers :=
    match getLabelNumber this with
    | Some _ => IndGroup IndicatedGroupType.Repeat
    | None =>
        if forallb is_NonLogic memberTypes
        then IndGroup IndicatedGroupType.NonLogic
        else IndGroup IndicatedGroupType.Basic
    end in
  if in_GroupPrefixMap (Js.head (text this)) then
    IndGroup IndicatedGroupType.List
  else match color this with
       | Some color =>
           if Js.truthy color && in_GroupColorMap color
           then GroupColorMap_get color
           else byLabelAndMembers
       | None => byLabelAndMembers
       end.

(** An indicated type inside a template literal.  An inherited value
    is rendered as V8 renders it: a native function by its source
    text, the prototype as an object. *)
Definition Indicated_name (i : Indicated) : string :=
  match i with
  | IndInherited key =>
      if String.eqb key "__proto__" then "[object Object]"
      else "function "
           +:+ (if String.eqb key "constructor" then "Object" else key)
           +:+ "() { [native code] }"
  | IndEdge n => n
  | IndNode IndicatedNodeType.NonLogic => "non-logic"
  | IndNode (IndicatedNodeType.Other n) => n
  | IndGroup IndicatedGroupType.Repeat => "repeat"
  | IndGroup IndicatedGroupType.List => "list"
  | IndGroup IndicatedGroupType.Basic => "basic"
  | IndGroup IndicatedGroupType.NonLogic => "non-logic"
  end.

(** [CannoliGroup.decideType] *)
Definition decideType (this : CannoliObject) (memberTypes : list Indicated)
  : Exn + GroupType.t :=
  let indicatedType := getIndicatedType this memberTypes in
  match indicatedType with
  | IndGroup IndicatedGroupType.Repeat => inr GroupType.Repeat
  | IndGroup IndicatedGroupType.List => inr GroupType.List
  | IndGroup IndicatedGroupType.Basic => inr GroupType.Basic
  | IndGroup IndicatedGroupType.NonLogic => inr GroupType.NonLogic
  | _ => inl (Error ("Error on object " +:+ id this +:+ ": indicated type "
                     +:+ Indicated_name indicatedType
                     +:+ " is not a valid group type."))
  end.

(** [new CannoliGroup(id, text, graph, isClone, vault, canvasData,
    outgoingEdges, incomingEdges, groups, members)]: an argument that
    is left out is the empty array. *)
Definition new_CannoliGroup (c : Class) (i t : string) (clone : bool)
    (col : option string) (out inc : list EdgeRef) (gs ms : list string)
  : CannoliObject :=
  {| id := i; text := t; kind := Group; cls := c; type := None;
     status := Pending; dependencies := []; isClone := clone; color := col;
     groups := gs; incomingEdges := inc; outgoingEdges := out;
     source := EmptyString; target := EmptyString;
     crossingInGroups := []; crossingOutGroups := [];
     isReflexive := false; addMessages := false; content := None;
     messages := None; members := ms; maxLoops := 0; currentLoop := None;
     numberOfVersions := 0; copyId := 0 |}.

Definition new_RepeatGroup (this : CannoliObject) (n : Z) : CannoliObject :=
  let o := new_CannoliGroup RepeatGroup (id this) (text this) (isClone this)
             (color this) (outgoingEdges this) (incomingEdges this)
             (groups this) (members this) in
  {| id := id o; text := text o; kind := kind o; cls := cls o; type := type o;
     status := status o; dependencies := dependencies o; isClone := isClone o;
     color := color o; groups := groups o; incomingEdges := incomingEdges o;
     outgoingEdges := outgoingEdges o; source := source o; target := target o;
     crossingInGroups := crossingInGroups o;
     crossingOutGroups := crossingOutGroups o; isReflexive := isReflexive o;
     addMessages := addMessages o; content := content o;
     messages := messages o; members := members o; maxLoops := n;
     currentLoop := None; numberOfVersions := numberOfVersions o;
     copyId := copyId o |}.

Definition new_ListGroup (this : CannoliObject) (n : Z) (copy : Z)
  : CannoliObject :=
  let o := new_CannoliGroup ListGroup (id this) (text this) (isClone this)
             (color this) (outgoingEdges this) (incomingEdges this)
             (groups this) (members this) in
  {| id := id o; text := text o; kind := kind o; cls := cls o; type := type o;
     status := status o; dependencies := dependencies o; isClone := isClone o;
     color := color o; groups := groups o; incomingEdges := incomingEdges o;
     outgoingEdges := outgoingEdges o; source := source o; target := target o;
     crossingInGroups := crossingInGroups o;
     crossingOutGroups := crossingOutGroups o; isReflexive := isReflexive o;
     addMessages := addMessages o; content := content o;
     messages := messages o; members := members o; maxLoops := maxLoops o;
     currentLoop := currentLoop o; numberOfVersions := n;
     copyId := copy |}.

(** [CannoliGroup.createTyped]: the typed object, [None] for [null], or
    the error thrown. *)
Definition createTyped (this : CannoliObject) (memberTypes : list Indicated)
  : Exn + option CannoliObject :=
  match decideType this memberTypes with
  | inl e => inl e
  | inr type =>
      let labelNumber := getLabelNumber this in
      match type with
      | GroupType.Repeat =>
          match labelNumber with
          | None =>
              inl (Error ("Error on object " +:+ id this
                          +:+ ": repeat group must have a positive integer label."))
          | Some n => inr (Some (new_RepeatGroup this n))
          end
      | GroupType.List =>
          match labelNumber with
          | None =>
              inl (Error ("Error on object " +:+ id this
                          +:+ ": list group must have a positive integer label."))
          | Some n => inr (Some (new_ListGroup this n 0))
          end
      | GroupType.Basic =>
          inr (Some (new_CannoliGroup CannoliGroup (id this) (text this)
                       (isClone this) (color this) [] [] [] []))
      | GroupType.NonLogic => inr None
      | _ =>
          inl (Error ("Error on object " +:+ id this
                      +:+ ": type is not a valid group type."))
      end
  end.

(** [CannoliFactory.createTypedObjects] of the factory, on the groups
    of a graph: every object is typed in turn and the first error ends
    the construction; [null] results are left out of the new graph. *)
Fixpoint createTypedObjects (objects : list (CannoliObject * list Indicated))
    (newGraph : gmap string CannoliObject)
  : Exn + gmap string CannoliObject :=
  match objects with
  | [] => inr newGraph
  | (object, memberTypes) :: rest =>
      match createTyped object memberTypes with
      | inl e => inl e
      | inr (Some typedObject) =>
          createTypedObjects rest (<[id object := typedObject]> newGraph)
      | inr None => createTypedObjects rest newGraph
      end
  end.

(** ** [models/edge.ts] *)

Definition Content_truthy (c : option Content) : bool :=
  match c with
  | Some (CStr s) => Js.truthy s
  | Some (CRec _) => true
  | None => false
  end.

(** A payload inside a template literal. *)
Definition Content_render (c : Content) : string :=
  match c with
  | CStr s => s
  | CRec _ => "[object Object]"
  end.

(** [CannoliEdge.load] *)
Definition CannoliEdge_load (this : string) (content : option Content)
    (request : option Request) : M unit :=
  modify this (set_content (if Content_truthy content then content else None));;
  t ← get_obj this;
  if addMessages t then
    modify this (set_messages
                   match request with
                   | Some r => req_messages r
                   | None => None
                   end)
  else ret tt.



(** [ChatConverterEdge.arrayToString], with [showSystemMessages] at its
    default, [false]. *)
Fixpoint arrayToString_loop (messages : list Msg.t) (format : string)
    (messageStr : string) (isFirstMessage : bool) : string :=
  match messages with
  | [] => messageStr
  | message :: rest =>
      if String.eqb (Msg.role message) "system" then
        arrayToString_loop rest format messageStr isFirstMessage
      else
        let formattedMessage :=
          Js.replace "{{content}}" (default EmptyString (Msg.content message))
            (Js.replace "{{role}}" (Msg.role message) format) in
        let messageStr :=
          if negb isFirstMessage then messageStr +:+ newline +:+ newline
          else messageStr in
        arrayToString_loop rest format (messageStr +:+ formattedMessage) false
  end.

Definition arrayToString (messages : list Msg.t) (format : string) : string :=
  let messageStr := arrayToString_loop messages format EmptyString true in
  let userTemplate :=
    Js.replace "{{content}}" EmptyString (Js.replace "{{role}}" "user" format) in
  let completeStr :=
    if Js.truthy messageStr
    then messageStr +:+ newline +:+ newline +:+ userTemplate
    else userTemplate in
  Js.trimStart completeStr.

(** The pattern [stringToArray] builds from the format. *)
Definition rolePattern (format : string) : string :=
  Js.trim (Js.replace "{{content}}" EmptyString
             (Js.replace "{{role}}" "(system|user|assistant)" format)).

Definition user_message (content : string) : Msg.t :=
  {| Msg.role := "user"; Msg.content := Some content;
     Msg.function_call := None |}.

(** The [while] loop of [stringToArray].  [regexLastIndex] is
    [regex.lastIndex]; the result is [messages] and [lastIndex] when the
    loop ends, or [None] when it has not ended within [fuel] rounds. *)
Fixpoint stringToArray_loop (exec : string -> nat -> option Match)
    (fuel : nat) (str : string) (regexLastIndex : nat)
    (messages : list Msg.t) (lastIndex : nat)
  : option (list Msg.t * nat) :=
  match fuel with
  | O => None
  | S fuel =>
      match exec str regexLastIndex with
      | None => Some (messages, lastIndex)
      | Some match_ =>
          let role := m_role match_ in
          let start := m_end match_ in
          let end_ :=
            match exec str start with
            | Some nextMatch => m_index nextMatch
            | None => String.length str
            end in
          let content := Js.trim (Js.substring str start end_) in
          stringToArray_loop exec fuel str start
            (messages ++ [{| Msg.role := role; Msg.content := Some content;
                             Msg.function_call := None |}])
            end_
      end
  end.

(** What [stringToArray] does once the expression is compiled. *)
Definition stringToArray_with (exec : string -> nat -> option Match)
    (fuel : nat) (str : string) : option (list Msg.t) :=
  match stringToArray_loop exec fuel str 0 [] 0 with
  | None => None
  | Some (messages, lastIndex) =>
      if (Datatypes.length messages =? 0)%nat then
        Some [user_message (Js.trim str)]
      else if (Z.of_nat lastIndex <? Z.of_nat (String.length str) - 1) then
        Some (messages ++ [user_message (Js.trim (Js.substringFrom str lastIndex))])%list
      else Some messages
  end.

Section Edges.
Context `{Host}.

(** [ChatConverterEdge.stringToArray].  Every round of the loop moves
    [regex.lastIndex] forward when matches are not empty, so the loop
    takes at most [length str] rounds; the outer [None] is a loop that
    has not ended by then. *)
Definition stringToArray (str : string) (format : string)
  : option (Exn + list Msg.t) :=
  match RegExp (rolePattern format) with
  | None => Some (inl SyntaxError)
  | Some exec =>
      match stringToArray_with exec (S (String.length str)) str with
      | Some messages => Some (inr messages)
      | None => None
      end
  end.

(** [ChatConverterEdge.load].  A loop of [stringToArray] that does not
    end leaves the method without a result; the model stops it with the
    error [stringToArray: no result]. *)
Definition ChatConverterEdge_load (this : string) (content : option Content)
    (request : option Request) : M unit :=
  let format := chatFormatString in
  let format_ok := match format with Some f => Js.truthy f | None => false end in
  r ← match request, format with
      | Some {| req_messages := Some messages |}, Some f =>
          if Js.truthy f then ret (arrayToString messages f, [])
          else ret (EmptyString, [])
      | _, _ =>
          if Content_truthy content && format_ok then
            match content, format with
            | Some (CStr str), Some f =>
                match stringToArray str f with
                | Some (inr messages) => ret (EmptyString, messages)
                | Some (inl e) => throw e
                | None => throw (Error "stringToArray: no result")
                end
            | _, _ => throw TypeError
            end
          else ret (EmptyString, [])
      end;
  modify this (set_content (Some (CStr (fst r))));;
  modify this (set_messages (Some (snd r))).

(** [SystemMessageEdge.load] *)
Definition SystemMessageEdge_load (this : string) (content : option Content)
    (request : option Request) : M unit :=
  if Content_truthy content then
    modify this (set_messages
      (Some [{| Msg.role := "system";
                Msg.content := Content_render <$> content;
                Msg.function_call := None |}]))
  else ret tt.

(** [LoggingEdge.getConfigString] *)
Definition getConfigString (request : Request) : string :=
  fold_left (fun configString f =>
               if negb (String.eqb (fkey f) "messages") && ftruthy f
               then configString +:+ fkey f +:+ ": " +:+ frendered f +:+ newline
               else configString)
            (req_fields request) EmptyString.

(** The loop of [getLoopNumbers] and of [getForEachVersionNumbers],
    before the array is reversed. *)
Fixpoint crossing_currentLoops (g : gmap string CannoliObject) (c : Class)
    (gs : list string) : list (option Z) :=
  match gs with
  | [] => []
  | group :: gs' =>
      match g !! group with
      | Some groupObject =>
          if instanceof (cls groupObject) c
          then currentLoop groupObject :: crossing_currentLoops g c gs'
          else crossing_currentLoops g c gs'
      | None => crossing_currentLoops g c gs'
      end
  end.

(** [LoggingEdge.getLoopNumbers] *)
Definition getLoopNumbers (g : gmap string CannoliObject) (t : CannoliObject)
  : list (option Z) :=
  rev (crossing_currentLoops g RepeatGroup (crossingOutGroups t)).

(** [LoggingEdge.getForEachVersionNumbers] *)
Definition getForEachVersionNumbers (g : gmap string CannoliObject)
    (t : CannoliObject) : list (option Z) :=
  rev (crossing_currentLoops g ForEachGroup (crossingOutGroups t)).

(** [LoggingEdge.formatLoopHeader]; a loop number that was never
    assigned renders as [NaN] after the addition. *)
Definition formatLoopHeader (loopNumbers : list (option Z)) : string :=
  let loopString :=
    fold_left (fun s n =>
                 s +:+ match n with
                       | Some n => pretty (n + 1)
                       | None => "NaN"
                       end +:+ ".")
              loopNumbers "# Loop " in
  Js.sliceBack loopString 0 1.

(** [LoggingEdge.formatVersionHeader] *)
Definition formatVersionHeader (versionNumbers : list (option Z)) : string :=
  let versionString :=
    fold_left (fun s n =>
                 s +:+ match n with
                       | Some n => pretty n
                       | None => "undefined"
                       end +:+ ".")
              versionNumbers "# Version " in
  Js.sliceBack versionString 0 1.

Definition capitalize (role : string) : string :=
  match role with
  | String c r => String (Js.toUpperCase_ascii c) r
  | EmptyString => EmptyString
  end.

Definition backticks : string := "```".

(** [LoggingEdge.formatInteractionHeaders] *)
Definition formatInteractionHeaders (messages : list Msg.t) : string :=
  Js.trim
    (fold_left
       (fun formattedString message =>
          let content :=
            match Msg.function_call message with
            | Some fc =>
                "Function Call: **" +:+ Msg.name fc +:+ "**" +:+ newline
                +:+ "Arguments:" +:+ newline +:+ backticks +:+ "json" +:+ newline
                +:+ Msg.arguments fc +:+ newline +:+ backticks
            | None => default "undefined" (Msg.content message)
            end in
          formattedString +:+ "#### <u>" +:+ capitalize (Msg.role message)
          +:+ "</u>:" +:+ newline +:+ content +:+ newline)
       messages EmptyString).

(** [LoggingEdge.load] *)
Definition LoggingEdge_load (this : string) (_ : option Content)
    (request : option Request) : M unit :=
  match request with
  | None =>
      throw (Error "Logging edge was loaded without a request, this should never happen")
  | Some request =>
      let configString := getConfigString request in
      let messages := default [] (req_messages request) in
      t ← get_obj this;
      repeatLoopNumbers ← lift (fun g => inr (getLoopNumbers g t));
      let loopHeader := formatLoopHeader repeatLoopNumbers in
      forEachVersionNumbers ← lift (fun g => inr (getForEachVersionNumbers g t));
      let versionHeader := formatVersionHeader forEachVersionNumbers in
      let logs := EmptyString in
      let logs :=
        if (0 <? Datatypes.length repeatLoopNumbers)%nat
        then loopHeader +:+ newline else logs in
      let logs :=
        if (0 <? Datatypes.length forEachVersionNumbers)%nat
        then logs +:+ versionHeader +:+ newline else logs in
      let logs := logs +:+ formatInteractionHeaders messages in
      let logs :=
        logs +:+ newline +:+ "#### Config" +:+ newline +:+ configString +:+ newline in
      match content t with
      | Some c =>
          modify this (set_content (Some (CStr (Content_render c +:+ newline +:+ logs))))
      | None => modify this (set_content (Some (CStr logs)))
      end
  end.



(** [edge.load({content, request})]: the method of the edge's class. *)
Definition load (i : string) (content : option Content)
    (request : option Request) : M unit :=
  emit (Load i content request);;
  o ← get_obj i;
  match cls o with
  | ChatConverterEdge => ChatConverterEdge_load i content request
  | SystemMessageEdge => SystemMessageEdge_load i content request
  | LoggingEdge => LoggingEdge_load i content request
  | ChatResponseEdge => ChatResponseEdge_load i content request
  | _ => CannoliEdge_load i content request
  end.

End Edges.

(** ** [models/node.ts] *)

Section Nodes.
Context `{Host}.

Definition is_digit (c : ascii) : bool :=
  let n := nat_of_ascii c in (48 <=? n)%nat && (n <=? 57)%nat.

Fixpoint skip_digits (s : string) : string :=
  match s with
  | String c s' => if is_digit c then skip_digits s' else s
  | EmptyString => EmptyString
  end.

(** What is left of a line after a match of [/^\d+\. /], if any *)
Definition after_number_marker (line : string) : option string :=
  match line with
  | String c _ =>
      if is_digit c then
        match skip_digits line with
        | String "." (String " " rest) => Some rest
        | _ => None
        end
      else None
  | EmptyString => None
  end.

(** [CannoliNode.getListArrayFromContent] *)
Definition getListArrayFromContent (content : string) : list string :=
  match JSON_parse content with
  | Some (JArr jsonArray) =>
      map (fun item =>
             match item with
             | JStr s => s
             | _ => JSON_stringify item
             end) jsonArray
  | _ =>
      let lines := Js.split (ascii_of_nat 10) content in
      let listItems :=
        List.filter (fun line =>
                  Js.startsWith line "- "
                  || match after_number_marker line with
                     | Some _ => true
                     | None => false
                     end) lines in
      map (fun item =>
             if Js.startsWith item "- " then Js.substringFrom item 2
             else default item (after_number_marker item)) listItems
  end.

Definition is_Http (o : CannoliObject) : bool :=
  bool_decide (type o = Some (TNode ContentNodeType.Http)).

Definition is_Item (o : CannoliObject) : bool :=
  bool_decide (type o = Some (TEdge EdgeType.Item)).

(** [this.outgoingEdges.find(edge => this.graph[edge].type === Item)];
    reading [type] off a missing object is a [TypeError]. *)
Fixpoint find_item_edge (g : gmap string CannoliObject) (es : list EdgeRef)
  : Exn + option CannoliObject :=
  match es with
  | [] => inr None
  | edge :: es' =>
      match g !! ref_id edge with
      | None => inl TypeError
      | Some o => if is_Item o then inr (Some o) else find_item_edge g es'
      end
  end.

(** The value an HTTP node reads out of its response for the label
    [text]: [None] when the content is not JSON or parses to a falsy
    value. *)
Definition http_value (content : string) (text : string) : option Json :=
  match JSON_parse content with
  | Some contentObject =>
      if Json_truthy contentObject
      then Some (pathOr contentObject (stringToPath text) (JStr content))
      else None
  | None => None
  end.

(** The first part of [loadOutgoingEdges]: the list items. *)
Definition listItems_of (g : gmap string CannoliObject) (t : CannoliObject)
    (content : string) : Exn + list string :=
  if is_Http t then
    match find_item_edge g (outgoingEdges t) with
    | inl e => inl e
    | inr (Some itemEdge) =>
        match http_value content (text itemEdge) with
        | Some value =>
            inr (getListArrayFromContent (JSON_stringify_pretty value))
        | None => inr (getListArrayFromContent content)
        end
    | inr None => inr (getListArrayFromContent content)
    end
  else inr (getListArrayFromContent content).

(** The loop of [loadOutgoingEdges] over the outgoing edges. *)
Fixpoint loadOutgoingEdges_loop (t : CannoliObject) (content : string)
    (request : option Request) (listItems : list string)
    (es : list EdgeRef) (itemIndex : nat) : M unit :=
  match es with
  | [] => ret tt
  | edge :: es' =>
      edgeObject ← lookup_obj (ref_id edge);
      contentToLoad ←
        (if is_Http t then
           match edgeObject with
           | None => throw TypeError
           | Some eo =>
               match http_value content (text eo) with
               | Some (JStr value) => ret value
               | Some value => ret (JSON_stringify_pretty value)
               | None => ret content
               end
           end
         else ret content);
      match edgeObject with
      | Some eo =>
          if instanceof (cls eo) CannoliEdge
             && negb (instanceof (cls eo) ChatResponseEdge)
             && negb (is_Item eo)
          then
            load (ref_id edge) (Some (CStr contentToLoad)) request;;
            loadOutgoingEdges_loop t content request listItems es' itemIndex
          else if instanceof (cls eo) CannoliEdge && is_Item eo then
            match listItems !! itemIndex with
            | Some item =>
                if Js.truthy item then
                  load (ref_id edge) (Some (CStr item)) request;;
                  loadOutgoingEdges_loop t content request listItems es'
                    (S itemIndex)
                else
                  reject (ref_id edge);;
                  loadOutgoingEdges_loop t content request listItems es'
                    itemIndex
            | None =>
                reject (ref_id edge);;
                loadOutgoingEdges_loop t content request listItems es'
                  itemIndex
            end
          else loadOutgoingEdges_loop t content request listItems es' itemIndex
      | None => loadOutgoingEdges_loop t content request listItems es' itemIndex
      end
  end.

(** [CannoliNode.loadOutgoingEdges] *)
Definition CannoliNode_loadOutgoingEdges (this : string) (content : string)
    (request : option Request) : M unit :=
  t ← get_obj this;
  listItems ← lift (fun g => listItems_of g t content);
  loadOutgoingEdges_loop t content request listItems (outgoingEdges t) 0.

(** [parsedVariable.choice]: [None] stands for [undefined]; reading a
    property of [null] is a [TypeError]. *)
Definition Json_choice (v : Json) : Exn + option Json :=
  match v with
  | JNull => inl TypeError
  | JObj fields => inr (snd <$> List.find (fun kv => String.eqb (fst kv) "choice") fields)
  | _ => inr None
  end.

(** [text === choice] for a string [text]: strict equality holds only
    with the same string. *)
Definition strict_eq_string (text : string) (choice : option Json) : bool :=
  match choice with
  | Some (JStr s) => String.eqb text s
  | _ => false
  end.

(** [ChooseNode.rejectUnselectedOptions] *)
Definition rejectUnselectedOptions (this : string) (choice : option Json)
  : M unit :=
  t ← get_obj this;
  for_of (outgoingEdges t) (fun edge =>
    edgeObject ← get_obj (ref_id edge);
    if bool_decide (type edgeObject = Some (TEdge EdgeType.Choice)) then
      if negb (strict_eq_string (text edgeObject) choice)
      then reject (ref_id edge)
      else ret tt
    else ret tt).

(** [ChooseNode.loadOutgoingEdges] *)
Definition ChooseNode_loadOutgoingEdges (this : string) (content : string)
    (request : Request) : M unit :=
  match req_messages request with
  | None => throw TypeError
  | Some messages =>
      match last messages with
      | None => throw TypeError
      | Some lastMessage =>
          let choiceFunctionArgs :=
            match Msg.function_call lastMessage with
            | Some fc => Msg.arguments fc
            | None => EmptyString
            end in
          if negb (Js.truthy choiceFunctionArgs) then
            error this "Choice function call has no arguments."
          else
            match JSON_parse choiceFunctionArgs with
            | None => throw SyntaxError
            | Some parsedVariable =>
                match Json_choice parsedVariable with
                | inl e => throw e
                | inr choice =>
                    rejectUnselectedOptions this choice;;
                    CannoliNode_loadOutgoingEdges this choiceFunctionArgs
                      (Some request)
                end
            end
      end
  end.







End Nodes.

(** ** A host for the examples

    Executable collaborators for the examples: JSON without escapes
    and fractions, paths of dotted keys, and templates made of literal
    text around one role group.  On such inputs they compute what the
    JavaScript functions return. *)

Module ExampleHost.

Definition is_json_ws (c : ascii) : bool :=
  match nat_of_ascii c with
  | 9%nat | 10%nat | 13%nat | 32%nat => true
  | _ => false
  end.

Fixpoint skip_ws (s : string) : string :=
  match s with
  | String c s' => if is_json_ws c then skip_ws s' else s
  | EmptyString => EmptyString
  end.

(** The characters of a string literal up to the closing quote. *)
Fixpoint parse_chars (s : string) : option (string * string) :=
  match s with
  | EmptyString => None
  | String c s' =>
      if (nat_of_ascii c =? 34)%nat then Some (EmptyString, s')
      else if (nat_of_ascii c =? 92)%nat || (nat_of_ascii c <? 32)%nat then None
      else match parse_chars s' with
           | Some (str, rest) => Some (String c str, rest)
           | None => None
           end
  end.

Fixpoint parse_digits (acc : Z) (s : string) : Z * string :=
  match s with
  | String c s' =>
      if is_digit c
      then parse_digits (acc * 10 + (Z.of_nat (nat_of_ascii c) - 48)) s'
      else (acc, s)
  | EmptyString => (acc, s)
  end.

Definition parse_number (s : string) : option (Json * string) :=
  let '(sign, s1) := match s with
                     | String "-" r => (-1, r)
                     | _ => (1, s)
                     end in
  match s1 with
  | String "0" (String c _) =>
      if is_digit c then None else Some (JNum 0, Js.substringFrom s1 1)
  | String c _ =>
      if is_digit c
      then let '(n, rest) := parse_digits 0 s1 in Some (JNum (sign * n), rest)
      else None
  | EmptyString => None
  end.

Fixpoint parse_value (fuel : nat) (s : string) : option (Json * string) :=
  match fuel with
  | O => None
  | S fuel =>
      let s := skip_ws s in
      if String.prefix "null" s then Some (JNull, Js.substringFrom s 4)
      else if String.prefix "true" s then Some (JBool true, Js.substringFrom s 4)
      else if String.prefix "false" s then Some (JBool false, Js.substringFrom s 5)
      else match s with
           | String c rest =>
               if (nat_of_ascii c =? 34)%nat then
                 match parse_chars rest with
                 | Some (str, rest) => Some (JStr str, rest)
                 | None => None
                 end
               else if Ascii.eqb c "[" then
                 match skip_ws rest with
                 | String "]" rest => Some (JArr [], rest)
                 | _ =>
                     match parse_elements fuel rest with
                     | Some (l, rest) => Some (JArr l, rest)
                     | None => None
                     end
                 end
               else if Ascii.eqb c "{" then
                 match skip_ws rest with
                 | String "}" rest => Some (JObj [], rest)
                 | _ =>
                     match parse_members fuel rest with
                     | Some (l, rest) => Some (JObj l, rest)
                     | None => None
                     end
                 end
               else parse_number s
           | EmptyString => None
           end
  end
with parse_elements (fuel : nat) (s : string) : option (list Json * string) :=
  match fuel with
  | O => None
  | S fuel =>
      match parse_value fuel s with
      | Some (v, rest) =>
          match skip_ws rest with
          | String "," rest =>
              match parse_elements fuel rest with
              | Some (l, rest) => Some (v :: l, rest)
              | None => None
              end
          | String "]" rest => Some ([v], rest)
          | _ => None
          end
      | None => None
      end
  end
with parse_members (fuel : nat) (s : string)
  : option (list (string * Json) * string) :=
  match fuel with
  | O => None
  | S fuel =>
      match skip_ws s with
      | String c rest =>
          if (nat_of_ascii c =? 34)%nat then
            match parse_chars rest with
            | Some (key, rest) =>
                match skip_ws rest with
                | String ":" rest =>
                    match parse_value fuel rest with
                    | Some (v, rest) =>
                        match skip_ws rest with
                        | String "," rest =>
                            match parse_members fuel rest with
                            | Some (l, rest) => Some ((key, v) :: l, rest)
                            | None => None
                            end
                        | String "}" rest => Some ([(key, v)], rest)
                        | _ => None
                        end
                    | None => None
                    end
                | _ => None
                end
            | None => None
            end
          else None
      | EmptyString => None
      end
  end.

Definition parse (s : string) : option Json :=
  match parse_value (S (String.length s)) s with
  | Some (v, rest) =>
      match skip_ws rest with
      | EmptyString => Some v
      | _ => None
      end
  | None => None
  end.

Definition join (sep : string) (l : list string) : string :=
  match l with
  | [] => EmptyString
  | x :: l' => fold_left (fun acc y => acc +:+ sep +:+ y) l' x
  end.

Fixpoint spaces (n : nat) : string :=
  match n with
  | O => EmptyString
  | S n => String " " (spaces n)
  end.

(** [JSON.stringify(v, null, indent)]; [indent = 0] is [JSON.stringify(v)]. *)
Fixpoint stringify (indent level : nat) (v : Json) : string :=
  let inner := spaces (indent * S level) in
  let outer := spaces (indent * level) in
  let nl := if (indent =? 0)%nat then EmptyString else newline in
  let colon := if (indent =? 0)%nat then ":" else ": " in
  match v with
  | JNull => "null"
  | JBool true => "true"
  | JBool false => "false"
  | JNum n => pretty n
  | JStr s => quoted s
  | JArr [] => "[]"
  | JArr l =>
      "[" +:+ nl +:+ inner
      +:+ join ("," +:+ nl +:+ inner) (map (stringify indent (S level)) l)
      +:+ nl +:+ outer +:+ "]"
  | JObj [] => "{}"
  | JObj fields =>
      "{" +:+ nl +:+ inner
      +:+ join ("," +:+ nl +:+ inner)
            (map (fun kv => quoted (fst kv) +:+ colon
                            +:+ stringify indent (S level) (snd kv)) fields)
      +:+ nl +:+ outer +:+ "}"
  end.

Definition path_of (s : string) : list string :=
  List.filter Js.truthy (Js.split "." s).

Fixpoint get_path (v : Json) (path : list string) : option Json :=
  match path with
  | [] => Some v
  | key :: path' =>
      match v with
      | JObj fields =>
          match List.find (fun kv => String.eqb (fst kv) key) fields with
          | Some kv => get_path (snd kv) path'
          | None => None
          end
      | _ => None
      end
  end.

Definition roleGroup : string := "(system|user|assistant)".

(** The text before and after the first role group of a pattern. *)
Fixpoint split_roleGroup (p : string) : option (string * string) :=
  if String.prefix roleGroup p
  then Some (EmptyString, Js.substringFrom p (String.length roleGroup))
  else match p with
       | String c p' =>
           match split_roleGroup p' with
           | Some (pre, post) => Some (String c pre, post)
           | None => None
           end
       | EmptyString => None
       end.

(** A match of [pre (system|user|assistant) post] at the head of [s]. *)
Definition match_here (pre post s : string) : option (nat * string) :=
  if String.prefix pre s then
    let s1 := Js.substringFrom s (String.length pre) in
    List.fold_right
      (fun role acc =>
         if String.prefix (role +:+ post) s1
         then Some (String.length pre + String.length role + String.length post, role)%nat
         else acc)
      None ["system"; "user"; "assistant"]
  else None.

(** The first match in [s], whose first character has index [pos]. *)
Fixpoint search (pre post s : string) (pos : nat) : option Match :=
  match match_here pre post s with
  | Some (len, role) =>
      Some {| m_index := pos; m_end := (pos + len)%nat; m_role := role |}
  | None =>
      match s with
      | String _ s' => search pre post s' (S pos)
      | EmptyString => None
      end
  end.

Definition exec (pre post str : string) (lastIndex : nat) : option Match :=
  if (String.length str <? lastIndex)%nat then None
  else search pre post (Js.substringFrom str lastIndex) lastIndex.

Definition compile (pattern : string) : option (string -> nat -> option Match) :=
  match split_roleGroup pattern with
  | Some (pre, post) => Some (exec pre post)
  | None => None
  end.

End ExampleHost.

(** The host of the examples, with the chat format [format]; it loads a
    chat-response edge as a plain edge is loaded. *)
Definition example_host (format : option string) : Host :=
  {| JSON_parse := ExampleHost.parse;
     JSON_stringify := ExampleHost.stringify 0 0;
     JSON_stringify_pretty := ExampleHost.stringify 2 0;
     stringToPath := ExampleHost.path_of;
     pathOr := fun v path d => default d (ExampleHost.get_path v path);
     RegExp := ExampleHost.compile;
     chatFormatString := format;
     ChatResponseEdge_load := CannoliEdge_load |}.

(** ** Objects and stores for the examples *)

Definition ref (i : string) : EdgeRef :=
  {| ref_id := i; ref_isReflexive := false |}.

(** An edge from [src] to [tgt], Pending and not loaded. *)
Definition new_edge (c : Class) (i t : string) (ty : EdgeType.t)
    (src tgt : string) (reflexive : bool) : CannoliObject :=
  {| id := i; text := t; kind := Edge; cls := c; type := Some (TEdge ty);
     status := Pending; dependencies := [DepId src]; isClone := false;
     color := None; groups := []; incomingEdges := []; outgoingEdges := [];
     source := src; target := tgt; crossingInGroups := [];
     crossingOutGroups := []; isReflexive := reflexive; addMessages := false;
     content := None; messages := None; members := []; maxLoops := 0;
     currentLoop := None; numberOfVersions := 0; copyId := 0 |}.

(** A node inside the groups [gs], Pending. *)
Definition new_node (c : Class) (i t : string) (ty : option ObjectType)
    (gs : list string) (inc out : list string) : CannoliObject :=
  {| id := i; text := t; kind := Node; cls := c; type := ty;
     status := Pending; dependencies := map DepId inc; isClone := false;
     color := None; groups := gs; incomingEdges := map ref inc;
     outgoingEdges := map ref out;
     source := EmptyString; target := EmptyString; crossingInGroups := [];
     crossingOutGroups := []; isReflexive := false; addMessages := false;
     content := None; messages := None; members := []; maxLoops := 0;
     currentLoop := None; numberOfVersions := 0; copyId := 0 |}.

(** The store that holds the objects [l] under their ids, with nothing
    emitted yet. *)
Definition world_of (l : list CannoliObject) : World :=
  {| graph := list_to_map (map (fun o => (id o, o)) l); trace := [] |}.

(** The message [LoggingEdge.load] throws without a request. *)
Definition no_request_message : string :=
  "Logging edge was loaded without a request, this should never happen".

(** A group as the factory's [createNodesAndGroups] makes it, before
    it is typed. *)
Definition untyped_group (i t : string) (col : option string)
    (ms : list string) : CannoliObject :=
  new_CannoliGroup CannoliGroup i t false col [] [] [] ms.

(** Two alternative branches into one target: [a] is Complete and [b]
    was Rejected. *)
Definition two_branches : gmap string CannoliObject :=
  graph (world_of
           [set_status Complete
              (new_edge CannoliEdge "a" "yes" EdgeType.Choice "n" "m" false);
            set_status Rejected
              (new_edge CannoliEdge "b" "no" EdgeType.Choice "n" "m" false)]).

(** A group [g] with one incoming edge [e], which is Complete, and one
    member node [n] whose status is [st]; the graph is enumerated in
    the order [g], [n], [e]. *)
Definition group_with_member (st : CannoliObjectStatus) : World :=
  world_of
    [new_CannoliGroup CannoliGroup "g" "" false None [] [ref "e"] [] [];
     set_status st (new_node CannoliNode "n" "hello" None ["g"] [] []);
     set_status Complete
       (new_edge CannoliEdge "e" "" (EdgeType.Other "blank") "s" "g" false)].

(** The same after the wiring: [setMembers] has run on the group, and
    the group depends on its incoming edge. *)
Definition group_with_member_wired (st : CannoliObjectStatus) : World :=
  world (addDependency "g" (DepId "e")
           (world (CannoliGroup_setMembers "g" ["g"; "n"; "e"]
                     (group_with_member st)))).

(** ** What a reset leaves

    The object and the events that [x.reset()] leaves, by the class of
    [x]; the lemma [reset_eq] below shows that [reset] does just this. *)

Definition reset_base (o : CannoliObject) : CannoliObject :=
  set_content None (set_status Pending o).

Definition ContentNode_reset_text `{Host} (o : CannoliObject) : CannoliObject :=
  if bool_decide (type o = Some (TNode ContentNodeType.StandardContent))
     || bool_decide (type o = Some (TNode ContentNodeType.Output))
  then
    match ContentNode_getName o with
    | Some _ =>
        if negb (bool_decide (type o = Some (TNode ContentNodeType.StandardContent)))
        then set_text (List.hd EmptyString (Js.split (ascii_of_nat 10) (text o))) o
        else set_text EmptyString o
    | None => set_text EmptyString o
    end
  else o.

Definition reset_obj `{Host} (o : CannoliObject) : CannoliObject :=
  if instanceof (cls o) CannoliEdge then
    if isReflexive o then o else reset_base o
  else if instanceof (cls o) RepeatGroup then
    set_currentLoop (Some 0) (reset_base o)
  else if instanceof (cls o) ContentNode then
    reset_base (ContentNode_reset_text o)
  else reset_base o.

Definition reset_events (i : string) (o : CannoliObject) : list Event :=
  if instanceof (cls o) CannoliEdge && isReflexive o then []
  else [Update i Pending].

(** [n] calls of a method, one after the other. *)
Fixpoint times {A} (n : nat) (m : M A) : M unit :=
  match n with
  | O => ret tt
  | S n => bind m (fun _ => times n m)
  end.

(** ** Passes of a repeat group *)

Definition is_ResetMembers (this : string) (e : Event) : bool :=
  match e with
  | ResetMembers g => String.eqb g this
  | _ => false
  end.

(** How many times [resetMembers] has run on the group [this]. *)
Definition count_resets (this : string) (w : World) : nat :=
  Datatypes.length (List.filter (is_ResetMembers this) (trace w)).

(** The members of the group [this] and their outgoing edges are
    objects of the graph, and the group is none of them: what
    [resetMembers] resets is the subtree below the group. *)
Definition subtree_ok (this : string) (w : World) : bool :=
  match graph w !! this with
  | Some t =>
      forallb (fun member =>
                 negb (String.eqb member this)
                 && match graph w !! member with
                    | Some o =>
                        forallb (fun edge =>
                                   negb (String.eqb (ref_id edge) this)
                                   && bool_decide (is_Some (graph w !! ref_id edge)))
                                (outgoingEdges o)
                    | None => false
                    end)
              (members t)
  | None => false
  end.

(** The object [j] is re-armed: it is Pending and holds no content.
    A reflexive edge is the one exception: a reset leaves it as it
    is. *)
Definition is_rearmed (g : gmap string CannoliObject) (j : string) : bool :=
  match g !! j with
  | Some o =>
      (instanceof (cls o) CannoliEdge && isReflexive o)
      || (bool_decide (status o = Pending)
          && match content o with
             | None => true
             | Some _ => false
             end)
  | None => false
  end.

(** The member subtree of the group [this] is re-armed: every member
    and every outgoing edge of a member. *)
Definition subtree_rearmed (this : string) (w : World) : bool :=
  match graph w !! this with
  | Some t =>
      forallb (fun member =>
                 is_rearmed (graph w) member
                 && match graph w !! member with
                    | Some o =>
                        forallb (fun edge => is_rearmed (graph w) (ref_id edge))
                                (outgoingEdges o)
                    | None => false
                    end)
              (members t)
  | None => false
  end.

(** What happens between two calls of [membersFinished]: the members
    run.  Whatever they do, they leave the group object itself and the
    structure of its subtree as they are, and they do not call the
    group's [resetMembers]. *)
Definition frame (this : string) (env : World -> World) : Prop :=
  forall w,
    graph (env w) !! this = graph w !! this
    /\ count_resets this (env w) = count_resets this w
    /\ (subtree_ok this w = true -> subtree_ok this (env w) = true).

Section Passes.
Context `{Host}.

(** The calls of [membersFinished] on the group [this], one per pass,
    with the members running in between: the outcome of each call. *)
Fixpoint invocations (this : string) (envs : list (World -> World))
    (w : World) : list ((Exn + unit) * World) :=
  match envs with
  | [] => []
  | env :: envs' =>
      let r := membersFinished this w in
      r :: invocations this envs' (env (snd r))
  end.

End Passes.

(** A repeat group [loop] with [maxLoops = 2] at the start of its
    execution, with one member [n] and its outgoing edge [e]. *)
Definition repeat_twice : World :=
  world_of
    [set_status Executing
       (set_currentLoop (Some 0)
          (new_RepeatGroup
             (new_CannoliGroup CannoliGroup "loop" "2" false None [] [] [] ["n"])
             2));
     set_status Complete
       (new_node CannoliNode "n" "hello" None ["loop"] [] ["e"]);
     set_status Complete
       (new_edge CannoliEdge "e" "" (EdgeType.Other "blank") "n" "m" false)].

(** A reflexive edge [acc], loaded and Complete, that leaves the member
    [n] of the repeat group [loop], and a plain edge [out] next to it. *)
Definition loop_with_accumulator : World :=
  world_of
    [set_status Executing
       (set_currentLoop (Some 0)
          (new_RepeatGroup
             (new_CannoliGroup CannoliGroup "loop" "2" false None [] [] [] ["n"])
             2));
     set_status Complete
       (new_node CannoliNode "n" "hello" None ["loop"] ["acc"] ["acc"; "out"]);
     set_content (Some (CStr "so far"))
       (set_status Complete
          (new_edge CannoliEdge "acc" "sum" EdgeType.Variable_ "n" "n" true));
     set_content (Some (CStr "result"))
       (set_status Complete
          (new_edge CannoliEdge "out" "" (EdgeType.Other "blank") "n" "m" false))].



(** ** What [loadOutgoingEdges] leaves on an edge *)

(** The edge [CannoliEdge.load] leaves. *)
Definition loaded (c : option Content) (r : option Request)
    (o : CannoliObject) : CannoliObject :=
  let o1 := set_content (if Content_truthy c then c else None) o in
  if addMessages o1
  then set_messages (match r with
                     | Some r => req_messages r
                     | None => None
                     end) o1
  else o1.

(** The edge [SystemMessageEdge.load] leaves. *)
Definition system_loaded (c : option Content) (o : CannoliObject)
  : CannoliObject :=
  if Content_truthy c
  then set_messages (Some [{| Msg.role := "system";
                              Msg.content := Content_render <$> c;
                              Msg.function_call := None |}]) o
  else o.

(** The test of the item branch of the loop of [loadOutgoingEdges]:
    the outgoing edge [e] is an edge object and is item-typed. *)
Definition is_item_edge (g : gmap string CannoliObject) (e : EdgeRef) : bool :=
  match g !! ref_id e with
  | Some o => instanceof (cls o) CannoliEdge && is_Item o
  | None => false
  end.

(** How many item-typed edges come before position [k] in [es]. *)
Definition item_rank (g : gmap string CannoliObject) (es : list EdgeRef)
    (k : nat) : nat :=
  Datatypes.length (List.filter (is_item_edge g) (take k es)).

(** A chat-response edge is not item-typed: its type is ChatResponse.
    The class is imported from a file that is not among the sources,
    and so is its [load]. *)
Definition chat_response_not_item (g : gmap string CannoliObject)
    (e : EdgeRef) : bool :=
  match g !! ref_id e with
  | Some o => negb (bool_decide (cls o = ChatResponseEdge) && is_Item o)
  | None => true
  end.

(** The [load] of the edge object [o] is sure to return, given
    [request]: [LoggingEdge.load] throws without a request, and
    [ChatConverterEdge.load] parses the content, which can throw, when
    the request brings no messages. *)
Definition load_returns (request : option Request) (o : CannoliObject) : bool :=
  match cls o with
  | LoggingEdge =>
      match request with
      | Some _ => true
      | None => false
      end
  | ChatConverterEdge =>
      match request with
      | Some {| req_messages := Some _ |} => true
      | _ => false
      end
  | _ => true
  end.

Definition loads_return (request : option Request)
    (g : gmap string CannoliObject) (e : EdgeRef) : bool :=
  match g !! ref_id e with
  | Some o => load_returns request o
  | None => true
  end.

(** The edge [loadOutgoingEdges] leaves where it found the edge object
    [o], when [rank] item-typed edges came before it: [None] where the
    edge is loaded by [ChatConverterEdge.load] or [LoggingEdge.load]. *)
Definition outcome (content : string) (request : option Request)
    (listItems : list string) (rank : nat) (o : CannoliObject)
  : option CannoliObject :=
  let after_load c :=
    match cls o with
    | CannoliEdge => Some (loaded c request o)
    | SystemMessageEdge => Some (system_loaded c o)
    | _ => None
    end in
  if is_Item o then
    match listItems !! rank with
    | Some item => after_load (Some (CStr item))
    | None => Some (set_status Rejected o)
    end
  else if bool_decide (cls o = ChatResponseEdge) then Some o
  else after_load (Some (CStr content)).

(** The content [["a","b","c"]], a JSON array of three strings. *)
Definition abc_json : string :=
  "[" +:+ quoted "a" +:+ "," +:+ quoted "b" +:+ "," +:+ quoted "c" +:+ "]".

(** A list-producing node [n] with four item edges, a plain edge [x]
    between the first two, and a chat-response edge [r]. *)
Definition node_with_items : World :=
  world_of
    [new_node ContentNode "n" "" (Some (TNode ContentNodeType.StandardContent))
       [] [] ["i1"; "x"; "i2"; "i3"; "i4"; "r"];
     new_edge CannoliEdge "i1" "" EdgeType.Item "n" "m1" false;
     new_edge CannoliEdge "x" "" (EdgeType.Other "blank") "n" "m" false;
     new_edge CannoliEdge "i2" "" EdgeType.Item "n" "m2" false;
     new_edge CannoliEdge "i3" "" EdgeType.Item "n" "m3" false;
     new_edge CannoliEdge "i4" "" EdgeType.Item "n" "m4" false;
     new_edge ChatResponseEdge "r" "" EdgeType.ChatResponse "n" "m" false].

(** What [JSON.stringify(value, null, 2)] makes of the three strings. *)
Definition abc_json_pretty : string :=
  "[" +:+ newline +:+ "  " +:+ quoted "a" +:+ "," +:+ newline
  +:+ "  " +:+ quoted "b" +:+ "," +:+ newline
  +:+ "  " +:+ quoted "c" +:+ newline +:+ "]".

(** An HTTP node [n] with an item edge and a plain edge, both without a
    label. *)
Definition http_node_with_items : World :=
  world_of
    [new_node HttpNode "n" "" (Some (TNode ContentNodeType.Http))
       [] [] ["i1"; "x"];
     new_edge CannoliEdge "i1" "" EdgeType.Item "n" "m1" false;
     new_edge CannoliEdge "x" "" (EdgeType.Other "blank") "n" "m" false].

(** A list-producing node [n] with a system-message edge [s], a
    chat-converter edge [v] and an item edge. *)
Definition node_with_message_edges : World :=
  world_of
    [new_node ContentNode "n" "" (Some (TNode ContentNodeType.StandardContent))
       [] [] ["s"; "v"; "i1"];
     new_edge SystemMessageEdge "s" "" EdgeType.SystemMessage "n" "m" false;
     new_edge ChatConverterEdge "v" "" EdgeType.Chat "n" "m" false;
     new_edge CannoliEdge "i1" "" EdgeType.Item "n" "m1" false].

(** A list-producing node [n] with a logging edge before its item
    edge. *)
Definition node_with_logging_edge : World :=
  world_of
    [new_node ContentNode "n" "" (Some (TNode ContentNodeType.StandardContent))
       [] [] ["l"; "i1"];
     new_edge LoggingEdge "l" "" EdgeType.Logging "n" "m" false;
     new_edge CannoliEdge "i1" "" EdgeType.Item "n" "m1" false].

(** A list-producing node [n] that lists its item edge [i1] twice. *)
Definition node_with_repeated_edge : World :=
  world_of
    [new_node ContentNode "n" "" (Some (TNode ContentNodeType.StandardContent))
       [] [] ["i1"; "i1"; "i2"];
     new_edge CannoliEdge "i1" "" EdgeType.Item "n" "m1" false;
     new_edge CannoliEdge "i2" "" EdgeType.Item "n" "m2" false].

(** A list-producing node [n] whose first item-typed edge is an object
    of class [SystemMessageEdge]. *)
Definition node_with_item_message_edge : World :=
  world_of
    [new_node ContentNode "n" "" (Some (TNode ContentNodeType.StandardContent))
       [] [] ["s"; "i2"];
     new_edge SystemMessageEdge "s" "" EdgeType.Item "n" "m1" false;
     new_edge CannoliEdge "i2" "" EdgeType.Item "n" "m2" false].

(** The node [n] of a store of the examples is given the array, with
    no request. *)
Definition load_abc (w : World) : (Exn + unit) * World :=
  CannoliNode_loadOutgoingEdges (H := example_host None) "n" abc_json None w.

(** A choice node [q] with the three choice edges [A], [B], [C], and
    the response that selects [B]. *)
Definition choice_args : string :=
  "{" +:+ quoted "choice" +:+ ":" +:+ quoted "B" +:+ "}".

Definition choice_request : Request :=
  {| req_messages :=
       Some [{| Msg.role := "user"; Msg.content := Some "Which one?";
                Msg.function_call := None |};
             {| Msg.role := "assistant"; Msg.content := None;
                Msg.function_call :=
                  Some {| Msg.name := "choice"; Msg.arguments := choice_args |} |}];
     req_fields := [] |}.

Definition choice_node : World :=
  world_of
    [set_status Executing (new_node ChooseNode "q" "Which one?" None [] [] ["a"; "b"; "c"]);
     new_edge CannoliEdge "a" "A" EdgeType.Choice "q" "ma" false;
     new_edge CannoliEdge "b" "B" EdgeType.Choice "q" "mb" false;
     new_edge CannoliEdge "c" "C" EdgeType.Choice "q" "mc" false].

(** ** Role markers *)

(** Where the content of the marker that ends at [start] ends: at the
    next marker, or at the end of the string. *)
Definition next_index (exec : string -> nat -> option Match) (str : string)
    (start : nat) : nat :=
  match exec str start with
  | Some nextMatch => m_index nextMatch
  | None => String.length str
  end.

(** The message [stringToArray] makes for the marker [m]. *)
Definition marker_message (exec : string -> nat -> option Match)
    (str : string) (m : Match) : Msg.t :=
  {| Msg.role := m_role m;
     Msg.content :=
       Some (Js.trim (Js.substring str (m_end m) (next_index exec str (m_end m))));
     Msg.function_call := None |}.

(** The role markers of [str] from the index [i] on: the successive
    matches of the expression, each searched from the end of the one
    before, up to the search that finds nothing. *)
Inductive role_markers (exec : string -> nat -> option Match) (str : string)
  : nat -> list Match -> Prop :=
  | role_markers_end i :
      exec str i = None -> role_markers exec str i []
  | role_markers_next i m ms :
      exec str i = Some m ->
      role_markers exec str (m_end m) ms ->
      role_markers exec str i (m :: ms).

(** What a global regular expression whose matches are not empty does
    on [str]: a match lies at or after [lastIndex], has a positive
    length and ends inside the string. *)
Definition progresses (exec : string -> nat -> option Match) (str : string)
  : Prop :=
  forall i m,
    exec str i = Some m ->
    (i <= m_index m)%nat /\ (m_index m < m_end m)%nat
    /\ (m_end m <= String.length str)%nat.

(** ** Invariants and tactics for the proofs *)

Ltac unfold_m :=
  unfold mbind, M_bind, mret, M_ret, bind, ret, throw, lift, lookup_obj,
    get_obj, modify, emit, result, world in *.

(** Class tests between two given classes, evaluated. *)
Ltac eval_instanceof :=
  repeat match goal with
         | |- context [instanceof ?a ?b] =>
             let v := eval vm_compute in (instanceof a b) in
             change (instanceof a b) with v
         end.

(** [m] keeps [P]: also when it throws. *)
Definition keeps {A} (P : World -> Prop) (m : M A) : Prop :=
  forall w, P w -> P (snd (m w)).

(** [m] returns from every store that satisfies [P], in a store that
    satisfies [P]. *)
Definition returns {A} (P : World -> Prop) (m : M A) : Prop :=
  forall w, P w -> exists a w', m w = (inr a, w') /\ P w'.

(** The objects of [w] have the outgoing edges they have in [w0]. *)
Definition same_edges (w0 w : World) : Prop :=
  forall k, (outgoingEdges <$> graph w !! k) = (outgoingEdges <$> graph w0 !! k).

(** The invariant of the loops of [resetMembers]: the group object,
    the count of its resets and the edges of every object stay. *)
Definition subtree_inv (this : string) (T : CannoliObject) (cnt : nat)
    (w0 w : World) : Prop :=
  graph w !! this = Some T
  /\ count_resets this w = cnt
  /\ same_edges w0 w.

(** The events [evs] hold no call of [execute]. *)
Definition no_Execute (evs : list Event) : Prop :=
  Forall (fun e => forall j, e <> Execute j) evs.

(** From [w0] on, no call of [execute] was recorded. *)
Definition quiet_since (w0 w : World) : Prop :=
  exists evs, trace w = trace w0 ++ evs /\ no_Execute evs.

(** ** The wiring [setMembers] leaves *)

(** The test [setMembers] makes of an object of the graph, for the
    group [t]. *)
Definition is_member_of (t o : CannoliObject) : bool :=
  instanceof (cls o) CannoliVertex && bool_decide (id t ∈ groups o).

(** The ids [setMembers] pushes, in the order of [keys]. *)
Definition member_ids (g : gmap string CannoliObject) (t : CannoliObject)
    (keys : list string) : list string :=
  omap (fun k => match g !! k with
                 | Some o => if is_member_of t o then Some (id o) else None
                 | None => None
                 end) keys.

(** The ids of the incoming edges of [t] that are not reflexive. *)
Definition inherited_edges (t : CannoliObject) : list string :=
  map ref_id (List.filter (fun e => negb (ref_isReflexive e)) (incomingEdges t)).

(** A basic group that is Executing, whose only member is Complete. *)
Definition basic_group_done : World :=
  world_of
    [set_status Executing
       (new_CannoliGroup CannoliGroup "g" "notes" false None [] [] [] ["n"]);
     set_status Complete (new_node CannoliNode "n" "hello" None ["g"] [] [])].

(** A group labelled [3] with one member and one incoming edge, as the
    factory has it before it is typed. *)
Definition group_labelled_3 : CannoliObject :=
  new_CannoliGroup CannoliGroup "g" "3" false None [] [ref "e"] [] ["n"].

(** The message [createTyped] throws for a list group without a number. *)
Definition list_label_message (i : string) : string :=
  "Error on object " +:+ i +:+ ": list group must have a positive integer label.".

(** The message [decideType] throws for an indicated type that is not
    a group type. *)
Definition invalid_type_message (i : string) (indicatedType : Indicated)
  : string :=
  "Error on object " +:+ i +:+ ": indicated type "
  +:+ Indicated_name indicatedType +:+ " is not a valid group type.".

(** A colour that is no key of the colour map, own or inherited. *)
Definition plain_colour (color : option string) : bool :=
  match color with
  | Some c => negb (in_GroupColorMap c)
  | None => true
  end.

(** The repeat group [createTyped] makes of [group_labelled_3], in the
    graph under its id. *)
Definition constructed_repeat_group : World :=
  world_of
    [new_RepeatGroup group_labelled_3 3;
     set_status Complete (new_node CannoliNode "n" "hello" None ["g"] [] [])].

(** A member of the group [t] after [setMembers]: it depends on the
    incoming edges of the group that are not reflexive. *)
Definition wired (t o : CannoliObject) : CannoliObject :=
  set_dependencies (dependencies o ++ map DepId (inherited_edges t)) o.

(** The group [t] after [setMembers]: the members [ids] are pushed, and
    a dependency on each. *)
Definition with_members (ids : list string) (t : CannoliObject) : CannoliObject :=
  set_dependencies (dependencies t ++ map DepId ids)
    (set_members (members t ++ ids) t).

(** [message.role === "system"] *)
Definition is_system (m : Msg.t) : bool := String.eqb (Msg.role m) "system".

(** The template of the next user message, which [arrayToString]
    appends. *)
Definition userTemplate (format : string) : string :=
  Js.replace "{{content}}" EmptyString (Js.replace "{{role}}" "user" format).

(** A converter edge, a system-message edge and a logging edge that
    holds a first log, with a repeat group the logging edge leaves. *)
Definition special_edges : World :=
  world_of
    [new_edge ChatConverterEdge "conv" "" EdgeType.Chat "n" "m" false;
     set_content (Some (CStr "kept"))
       (new_edge SystemMessageEdge "sys" "" EdgeType.SystemMessage "n" "m" false);
     set_content (Some (CStr "first log"))
       (new_edge LoggingEdge "log" "" EdgeType.Logging "n" "m" false)].

Definition example_request : Request :=
  {| req_messages :=
       Some [{| Msg.role := "system"; Msg.content := Some "Be brief.";
                Msg.function_call := None |};
             {| Msg.role := "user"; Msg.content := Some "Hello";
                Msg.function_call := None |}];
     req_fields := [{| fkey := "model"; ftruthy := true; frendered := "m1" |};
                    {| fkey := "temperature"; ftruthy := false; frendered := "0" |}] |}.

(** ** The text of floating and content nodes ([models/node.ts]) *)

(** [text.split("\n")[0]] *)
Definition firstLine_of (text : string) : string :=
  List.hd EmptyString (Js.split (ascii_of_nat 10) text).

(** [FloatingNode.getName] *)
Definition FloatingNode_getName (o : CannoliObject) : string :=
  let firstLine := Js.trim (firstLine_of (text o)) in
  Js.substring firstLine 1 (String.length firstLine - 1).

(** [FloatingNode.getContent] *)
Definition FloatingNode_getContent (o : CannoliObject) : string :=
  let firstLine := firstLine_of (text o) in
  Js.substringFrom (text o) (String.length firstLine + 1).

(** [FloatingNode.editContent]; the event it dispatches carries the
    status the node has. *)
Definition FloatingNode_editContent (this : string) (newContent : string)
  : M unit :=
  t ← get_obj this;
  let firstLine := firstLine_of (text t) in
  modify this (set_text (firstLine +:+ newline +:+ newContent));;
  emit (Update this (status t)).

Section NodeText.
Context `{Host}.

(** [ContentNode.getContentCheckName] *)
Definition ContentNode_getContentCheckName (o : CannoliObject) : string :=
  match ContentNode_getName o with
  | Some _ =>
      let firstLine := firstLine_of (text o) in
      Js.substringFrom (text o) (String.length firstLine + 1)
  | None => text o
  end.


End NodeText.

(** [s] holds the character [c]. *)
Fixpoint has_char (c : ascii) (s : string) : bool :=
  match s with
  | String x s' => Ascii.eqb x c || has_char c s'
  | EmptyString => false
  end.

(** A floating node [f] named [notes], and an output node [o] named
    [answer] that holds a first answer. *)
Definition named_nodes : World :=
  world_of
    [set_status Complete
       (new_node FloatingNode "f" ("[notes]" +:+ newline +:+ "old") None [] [] []);
     set_status Complete
       (set_content (Some (CStr "first"))
          (new_node ContentNode "o" ("[answer]" +:+ newline +:+ "first")
             (Some (TNode ContentNodeType.Output)) [] [] []))].

(** ** Markdown lists *)

(** A line of a text: a bullet item, a numbered item, or any other
    line. *)
Inductive Line :=
  | Bullet (item : string)
  | Numbered (number : string) (item : string)
  | Prose (line : string).

Definition render_line (l : Line) : string :=
  match l with
  | Bullet item => "- " +:+ item
  | Numbered number item => number +:+ ". " +:+ item
  | Prose line => line
  end.

Definition item_of (l : Line) : option string :=
  match l with
  | Bullet item | Numbered _ item => Some item
  | Prose _ => None
  end.

Fixpoint all_digits (s : string) : bool :=
  match s with
  | String c s' => is_digit c && all_digits s'
  | EmptyString => true
  end.

(** The parts of a line hold no line break, a number is one digit or
    more, and a line of prose does not open as a list item does. *)
Definition well_formed (l : Line) : bool :=
  match l with
  | Bullet item => negb (has_char (ascii_of_nat 10) item)
  | Numbered number item =>
      Js.truthy number && all_digits number
      && negb (has_char (ascii_of_nat 10) item)
  | Prose line =>
      negb (has_char (ascii_of_nat 10) line)
      && negb (Js.startsWith line "- ")
      && match after_number_marker line with
         | Some _ => false
         | None => true
         end
  end.

(** [lines.join("\n")] *)
Fixpoint join_lines (lines : list string) : string :=
  match lines with
  | [] => EmptyString
  | [l] => l
  | l :: ls => l +:+ newline +:+ join_lines ls
  end.

Definition shopping_list : list Line :=
  [Prose "To buy:"; Bullet "milk"; Numbered "2" "eggs"; Prose ""; Bullet "tea"].

(** ** What a choice leaves *)

(** The test [rejectUnselectedOptions] makes of an outgoing edge. *)
Definition unselected (choice : option Json) (o : CannoliObject) : bool :=
  bool_decide (type o = Some (TEdge EdgeType.Choice))
  && negb (strict_eq_string (text o) choice).

(** The edge [rejectUnselectedOptions] leaves where it found [o]. *)
Definition after_choice (choice : option Json) (o : CannoliObject)
  : CannoliObject :=
  if unselected choice o then set_status Rejected o else o.

(** The arguments of the function call of a message, as
    [ChooseNode.loadOutgoingEdges] reads them. *)
Definition choiceFunctionArgs_of (lastMessage : Msg.t) : string :=
  match Msg.function_call lastMessage with
  | Some fc => Msg.arguments fc
  | None => EmptyString
  end.

(** A response that carries no function call. *)
Definition request_without_call : Request :=
  {| req_messages :=
       Some [{| Msg.role := "assistant"; Msg.content := Some "B, I think.";
                Msg.function_call := None |}];
     req_fields := [] |}.

(** Outside the objects [ids], the graph of [w] is that of [w0]. *)
Definition untouched_outside (ids : list string) (w0 w : World) : Prop :=
  forall j, j ∉ ids -> graph w !! j = graph w0 !! j.

(** ** The factory: [initialParse]

    The elements of a canvas, with the fields [initialParse] reads, and
    the objects it constructs, each as the call of its constructor:
    the constructors belong to [models/object.ts] and [models/edge.ts]
    of the factory's version, and [initialParse] is modelled up to
    them. *)

Module Canvas.
Record NodeData := {
  n_id : string;
  n_color : option string;
  n_type : string;
  n_text : option string;
  n_url : option string;
  n_file : string;
  n_label : option string
}.
Record EdgeData := {
  e_id : string;
  e_color : option string;
  e_label : option string;
  e_fromNode : string;
  e_toNode : string
}.
End Canvas.

Inductive Parsed :=
  | new_CannoliVertex (id text : string) (isClone : bool)
      (canvasData : Canvas.NodeData)
  | new_CannoliEdge (id text : string) (isClone : bool)
      (canvasData : Canvas.EdgeData) (source target : string).

(** The callback of [canvas.nodes.forEach] in [initialParse]. *)
Definition initialParse_node (graph : gmap string Parsed)
    (node : Canvas.NodeData) : gmap string Parsed :=
  if bool_decide (Canvas.n_color node = Some "1") then graph
  else if String.eqb (Canvas.n_type node) "text" then
    <[Canvas.n_id node :=
        new_CannoliVertex (Canvas.n_id node)
          (default EmptyString (Canvas.n_text node)) false node]> graph
  else if String.eqb (Canvas.n_type node) "link" then
    <[Canvas.n_id node :=
        new_CannoliVertex (Canvas.n_id node)
          (default EmptyString (Canvas.n_url node)) false node]> graph
  else if String.eqb (Canvas.n_type node) "file" then
    let filePath := Canvas.n_file node in
    let fileName := List.last (Js.split "/" filePath) EmptyString in
    if Js.endsWith fileName ".md" then
      let fileName := Js.sliceBack fileName 0 3 in
      <[Canvas.n_id node :=
          new_CannoliVertex (Canvas.n_id node) (">[[" +:+ fileName +:+ "]]")
            false node]> graph
    else graph
  else
    <[Canvas.n_id node :=
        new_CannoliVertex (Canvas.n_id node)
          (default EmptyString (Canvas.n_label node)) false node]> graph.

(** The callback of [canvas.edges.forEach] in [initialParse]. *)
Definition initialParse_edge (graph : gmap string Parsed)
    (edge : Canvas.EdgeData) : gmap string Parsed :=
  if bool_decide (Canvas.e_color edge = Some "1") then graph
  else
    <[Canvas.e_id edge :=
        new_CannoliEdge (Canvas.e_id edge)
          (default EmptyString (Canvas.e_label edge)) false edge
          (Canvas.e_fromNode edge) (Canvas.e_toNode edge)]> graph.

(** [CannoliFactory.initialParse] *)
Definition initialParse (nodes : list Canvas.NodeData)
    (edges : list Canvas.EdgeData) : gmap string Parsed :=
  fold_left initialParse_edge edges (fold_left initialParse_node nodes ∅).

(** What [initialParse] makes of one element, if anything. *)
Definition parsed_node (node : Canvas.NodeData) : option Parsed :=
  initialParse_node ∅ node !! Canvas.n_id node.

Definition parsed_edge (edge : Canvas.EdgeData) : option Parsed :=
  initialParse_edge ∅ edge !! Canvas.e_id edge.

(** What a fold of [initialParse] leaves under the key [i]: the object
    [o] was there before and no element of the list replaced it, or an
    element of the list made it. *)
Definition left_by {A} (parsed : A -> option Parsed) (key : A -> string)
    (l : list A) (g : gmap string Parsed) (i : string) (o : Parsed) : Prop :=
  (g !! i = Some o /\ forall x, x ∈ l -> key x = i -> parsed x = None)
  \/ (exists x, x ∈ l /\ key x = i /\ parsed x = Some o).

(** A canvas with a note, a picture, a red card and two edges, one of
    them red. *)
Definition example_canvas_nodes : list Canvas.NodeData :=
  [{| Canvas.n_id := "n1"; Canvas.n_color := None; Canvas.n_type := "file";
      Canvas.n_text := None; Canvas.n_url := None;
      Canvas.n_file := "notes/daily/Plan.md"; Canvas.n_label := None |};
   {| Canvas.n_id := "n2"; Canvas.n_color := None; Canvas.n_type := "file";
      Canvas.n_text := None; Canvas.n_url := None;
      Canvas.n_file := "img/cat.png"; Canvas.n_label := None |};
   {| Canvas.n_id := "n3"; Canvas.n_color := Some "1"; Canvas.n_type := "text";
      Canvas.n_text := Some "draft"; Canvas.n_url := None;
      Canvas.n_file := ""; Canvas.n_label := None |}].

Definition example_canvas_edges : list Canvas.EdgeData :=
  [{| Canvas.e_id := "e1"; Canvas.e_color := None; Canvas.e_label := Some "x";
      Canvas.e_fromNode := "n1"; Canvas.e_toNode := "n3" |};
   {| Canvas.e_id := "e2"; Canvas.e_color := Some "1"; Canvas.e_label := None;
      Canvas.e_fromNode := "n3"; Canvas.e_toNode := "n1" |}].

(** ** The variables of a node ([models/node.ts]) *)

(** [VariableValue]; [v_edgeId] is [None] for [null]. *)
Record VariableValue := {
  v_name : string;
  v_content : string;
  v_edgeId : option string
}.

(** [!variable.edgeId] *)
Definition no_edgeId (variable : VariableValue) : bool :=
  match v_edgeId variable with
  | Some i => negb (Js.truthy i)
  | None => true
  end.

(** [this.graph[variable.edgeId]] *)
Definition edge_of (g : gmap string CannoliObject) (variable : VariableValue)
  : option CannoliObject :=
  match v_edgeId variable with
  | Some i => g !! i
  | None => None
  end.

(** [edgeObject instanceof CannoliEdge && edgeObject.isReflexive] *)
Definition is_reflexive_edge (edgeObject : option CannoliObject) : bool :=
  match edgeObject with
  | Some o => instanceof (cls o) CannoliEdge && isReflexive o
  | None => false
  end.

(** [edgeObject.content !== ""] *)
Definition content_not_empty (edgeObject : option CannoliObject) : bool :=
  match edgeObject with
  | Some o =>
      match content o with
      | Some (CStr s) => Js.truthy s
      | _ => true
      end
  | None => true
  end.

(** The first loop of [resolveVariableConflicts] over the variables of
    one name: the selected variable and [foundNonEmptyReflexive], which
    the loop sets only as it breaks. *)
Fixpoint prefer_reflexive (g : gmap string CannoliObject)
    (variables : list VariableValue) (selectedVariable : VariableValue)
  : VariableValue * bool :=
  match variables with
  | [] => (selectedVariable, false)
  | variable :: rest =>
      if no_edgeId variable then (variable, false)
      else
        let edgeObject := edge_of g variable in
        if is_reflexive_edge edgeObject then
          if content_not_empty edgeObject then (variable, true)
          else prefer_reflexive g rest variable
        else prefer_reflexive g rest selectedVariable
  end.

(** The second loop, over the same variables. *)
Fixpoint first_non_reflexive (this : string) (name : string)
    (variables : list VariableValue) (selectedVariable : VariableValue)
  : M VariableValue :=
  match variables with
  | [] => ret selectedVariable
  | variable :: rest =>
      if no_edgeId variable then
        error this ("Variable " +:+ name +:+ " has no edgeId");;
        first_non_reflexive this name rest selectedVariable
      else
        edgeObject ← lift (fun g => inr (edge_of g variable));
        if negb (is_reflexive_edge edgeObject) then ret variable
        else first_non_reflexive this name rest selectedVariable
  end.

(** The loop of [resolveVariableConflicts] over the names. *)
Fixpoint resolveVariableConflicts_loop (this : string) (names : list string)
    (variableValues : list VariableValue)
    (finalVariables : list VariableValue) : M (list VariableValue) :=
  match names with
  | [] => ret finalVariables
  | name :: rest =>
      let variables :=
        List.filter (fun v => String.eqb (v_name v) name) variableValues in
      match variables with
      | [] => throw TypeError
      | first :: _ =>
          p ← lift (fun g => inr (prefer_reflexive g variables first));
          selectedVariable ←
            (if negb (snd p) && String.eqb (v_content (fst p)) EmptyString
             then first_non_reflexive this name variables (fst p)
             else ret (fst p));
          resolveVariableConflicts_loop this rest variableValues
            (finalVariables ++ [selectedVariable])
      end
  end.

(** [CannoliNode.resolveVariableConflicts].  [names] is the order in
    which [for ... in] enumerates the keys of [groupedByName].  A
    variable named like an inherited property finds a value that is not
    an array under its name, and the call of [push] is a [TypeError]. *)
Definition resolveVariableConflicts (this : string) (names : list string)
    (variableValues : list VariableValue) : M (list VariableValue) :=
  if existsb (fun v => bool_decide (v_name v ∈ Object_prototype_keys))
       variableValues
  then throw TypeError
  else resolveVariableConflicts_loop this names variableValues [].

(** The variables of one name. *)
Definition named (name : string) (variableValues : list VariableValue)
  : list VariableValue :=
  List.filter (fun v => String.eqb (v_name v) name) variableValues.

(** A variable that ends the first loop: it is given by the node, or
    its reflexive edge holds content. *)
Definition decisive (g : gmap string CannoliObject) (v : VariableValue) : bool :=
  no_edgeId v
  || (is_reflexive_edge (edge_of g v) && content_not_empty (edge_of g v)).

(** A node [n] with two incoming edges named [x], the plain edge [p]
    and the reflexive edge [acc], and the variables they carry. *)
Definition node_with_variables : World :=
  world_of
    [new_node CallNode "n" "{{x}}" None [] ["p"; "acc"] [];
     set_content (Some (CStr "plain"))
       (set_status Complete
          (new_edge CannoliEdge "p" "x" EdgeType.Variable_ "a" "n" false));
     set_content (Some (CStr "kept"))
       (set_status Complete
          (new_edge CannoliEdge "acc" "x" EdgeType.Variable_ "n" "n" true))].

Definition example_variables : list VariableValue :=
  [{| v_name := "x"; v_content := "plain"; v_edgeId := Some "p" |};
   {| v_name := "y"; v_content := "other"; v_edgeId := Some "p" |};
   {| v_name := "x"; v_content := "kept"; v_edgeId := Some "acc" |}].

(** A variable carried by an edge that is not a reflexive edge. *)
Definition on_plain_edge (g : gmap string CannoliObject) (v : VariableValue)
  : bool :=
  negb (no_edgeId v) && negb (is_reflexive_edge (edge_of g v)).

(** The variable the two loops select for the name [n], read off the
    graph [g]; [None] when no variable has the name. *)
Definition selected_for (g : gmap string CannoliObject)
    (variableValues : list VariableValue) (n : string) : option VariableValue :=
  match named n variableValues with
  | [] => None
  | first :: rest =>
      let p := prefer_reflexive g (first :: rest) first in
      Some (if negb (snd p) && String.eqb (v_content (fst p)) EmptyString
            then default (fst p) (List.find (on_plain_edge g) (first :: rest))
            else fst p)
  end.

(** The edges of [w] are, as to class, reflexivity and content, those
    of [w0]. *)
Definition same_edge_data (w0 w : World) : Prop :=
  forall i,
    is_reflexive_edge (graph w !! i) = is_reflexive_edge (graph w0 !! i)
    /\ content_not_empty (graph w !! i) = content_not_empty (graph w0 !! i).

(** The variables of a node that has a note and an empty accumulator:
    [NOTE] is given by the node, and [x] comes from the plain edge [p]
    and from the reflexive edge [acc], which holds nothing yet. *)
Definition node_with_empty_accumulator : World :=
  world_of
    [new_node CallNode "n" "{{x}}" None [] ["p"; "acc"] [];
     set_content (Some (CStr "plain"))
       (set_status Complete
          (new_edge CannoliEdge "p" "x" EdgeType.Variable_ "a" "n" false));
     set_content (Some (CStr ""))
       (new_edge CannoliEdge "acc" "x" EdgeType.Variable_ "n" "n" true)].

Definition variables_with_note : list VariableValue :=
  [{| v_name := "x"; v_content := ""; v_edgeId := Some "acc" |};
   {| v_name := "x"; v_content := "plain"; v_edgeId := Some "p" |};
   {| v_name := "NOTE"; v_content := "from an edge"; v_edgeId := Some "p" |};
   {| v_name := "NOTE"; v_content := "the note"; v_edgeId := Some "" |}].

(** ** The loop index of a node ([models/node.ts]) *)

(** [CannoliNode.getLoopIndex].  The outer [None] is [null]; the index
    is [None], for [NaN], when [currentLoop] was never assigned.  A
    depth past the end of [groups] reads [this.graph[undefined]], the
    object under the key [undefined]. *)
Definition getLoopIndex (g : gmap string CannoliObject) (t : CannoliObject)
    (depth : nat) : option (option Z) :=
  let group :=
    match groups t !! depth with
    | Some i => g !! i
    | None => g !! "undefined"
    end in
  match group with
  | None => None
  | Some group =>
      if negb (instanceof (cls group) CannoliGroup) then None
      else if negb (bool_decide (type group = Some (TGroup GroupType.Repeat)))
              && negb (bool_decide (type group = Some (TGroup GroupType.ForEach)))
      then None
      else Some ((fun c => c + 1) <$> currentLoop group)
  end.

(** An assignment to [type]. *)
Definition set_type (ty : option ObjectType) (o : CannoliObject) :=
  {| id := id o; text := text o; kind := kind o; cls := cls o; type := ty;
     status := status o; dependencies := dependencies o; isClone := isClone o;
     color := color o; groups := groups o; incomingEdges := incomingEdges o;
     outgoingEdges := outgoingEdges o; source := source o; target := target o;
     crossingInGroups := crossingInGroups o;
     crossingOutGroups := crossingOutGroups o; isReflexive := isReflexive o;
     addMessages := addMessages o; content := content o;
     messages := messages o; members := members o; maxLoops := maxLoops o;
     currentLoop := currentLoop o; numberOfVersions := numberOfVersions o;
     copyId := copyId o |}.

(** The member [n] of [typed_repeat_twice]. *)
Definition member_n : CannoliObject :=
  set_status Complete (new_node CannoliNode "n" "hello" None ["loop"] [] ["e"]).

(** [repeat_twice] with the type of the group set. *)
Definition typed_repeat_twice : World :=
  world_of
    [set_type (Some (TGroup GroupType.Repeat))
       (set_status Executing
          (set_currentLoop (Some 0)
             (new_RepeatGroup
                (new_CannoliGroup CannoliGroup "loop" "2" false None [] [] [] ["n"])
                2)));
     member_n;
     set_status Complete
       (new_edge CannoliEdge "e" "" (EdgeType.Other "blank") "n" "m" false)].

(** ** References to floating nodes ([models/node.ts]) *)

(** [CannoliNode.getContentFromFloatingNode].  [keys] is the order in
    which [Object.values] enumerates the graph; [None] is [null]. *)
Fixpoint getContentFromFloatingNode (g : gmap string CannoliObject)
    (keys : list string) (name : string) : option string :=
  match keys with
  | [] => None
  | k :: rest =>
      match g !! k with
      | Some object =>
          if instanceof (cls object) FloatingNode
             && String.eqb (FloatingNode_getName object) name
          then Some (FloatingNode_getContent object)
          else getContentFromFloatingNode g rest name
      | None => getContentFromFloatingNode g rest name
      end
  end.

(** No object under [keys] other than [i] is a floating node named
    [name]. *)
Definition only_floating_node_named (g : gmap string CannoliObject)
    (keys : list string) (i : string) (name : string) : bool :=
  forallb (fun k =>
             String.eqb k i
             || match g !! k with
                | Some object =>
                    negb (instanceof (cls object) FloatingNode
                          && String.eqb (FloatingNode_getName object) name)
                | None => true
                end) keys.

(** ** Pending periods *)









Section Notifications.
Context `{Host}.



End Notifications.





(** * Verification *)

(** ** Construction: a group whose label is not a number *)

Lemma getLabelNumber_abc (this : CannoliObject) :
  text this = "abc" -> getLabelNumber this = None.
Proof. intros Ht. unfold getLabelNumber. rewrite Ht. reflexivity. Qed.

Lemma getIndicatedType_abc (this : CannoliObject) (memberTypes : list Indicated) :
  text this = "abc" ->
  plain_colour (color this) = true ->
  getIndicatedType this memberTypes =
    if forallb is_NonLogic memberTypes
    then IndGroup IndicatedGroupType.NonLogic
    else IndGroup IndicatedGroupType.Basic.
Proof.
  intros Ht Hc. unfold getIndicatedType.
  rewrite (getLabelNumber_abc this Ht), Ht. cbn [Js.head in_GroupPrefixMap].
  replace (Ascii.eqb "a" "<") with false by reflexivity.
  destruct (color this) as [c|] eqn:Ec; [|reflexivity].
  cbn [plain_colour] in Hc. apply negb_true_iff in Hc.
  rewrite Hc, andb_false_r. reflexivity.
Qed.

(** A colour that names an inherited property is in the colour map,
    and what the map holds under it is no group type. *)
Lemma getIndicatedType_inherited (this : CannoliObject)
    (memberTypes : list Indicated) (c : string) :
  in_GroupPrefixMap (Js.head (text this)) = false ->
  color this = Some c ->
  c ∈ Object_prototype_keys ->
  getIndicatedType this memberTypes = IndInherited c.
Proof.
  intros Hp Hc Hin. unfold getIndicatedType. rewrite Hp, Hc.
  assert (Hne : String.eqb c "5" = false).
  { apply String.eqb_neq. intros ->. revert Hin. unfold Object_prototype_keys.
    rewrite !elem_of_cons, elem_of_nil. intros H5.
    repeat (destruct H5 as [H5|H5]; [discriminate H5|]). exact H5. }
  assert (Ht : Js.truthy c = true).
  { destruct c; [|reflexivity]. revert Hin. unfold Object_prototype_keys.
    rewrite !elem_of_cons, elem_of_nil. intros H5.
    repeat (destruct H5 as [H5|H5]; [discriminate H5|]). destruct H5. }
  unfold in_GroupColorMap, GroupColorMap_get.
  rewrite Ht, Hne, (bool_decide_eq_true_2 _ Hin). reflexivity.
Qed.

(** C8, as the code has it: the counterexample.  A group labelled
    [abc], with no colour and one member that is a logic node, is typed
    without an error: [createTyped] returns a basic group, and the
    factory's graph holds it. *)
Lemma C8_counterexample :
  let g := untyped_group "g" "abc" None ["n"] in
  let types := [IndNode (IndicatedNodeType.Other "call")] in
  createTyped g types
    = inr (Some (new_CannoliGroup CannoliGroup "g" "abc" false None [] [] [] []))
  /\ (forall e, createTyped g types <> inl e)
  /\ exists newGraph,
       createTypedObjects [(g, types)] ∅ = inr newGraph
       /\ cls <$> newGraph !! "g" = Some CannoliGroup.
Proof.
  split; [reflexivity|]. split; [discriminate|].
  eexists. split; [reflexivity|].
  cbn. rewrite lookup_insert_eq. reflexivity.
Qed.

(** C8, amended: for a group labelled [abc] with no reserved prefix
    and a colour that is no key of the colour map, [createTyped] throws
    nothing: it returns [null] when every member is non-logic and a
    basic group otherwise.  The configuration error of [createTyped]
    is thrown where a list group is indicated, by the prefix [<] or by
    the colour [5], and the rest of the label is not a number.  A
    colour that names a property every object inherits, such as
    [toString], is found in the colour map as well; what the map holds
    under it is no group type, and [decideType] throws its own
    error. *)
Theorem C8_label_abc_is_typed_without_error
    (this : CannoliObject) (memberTypes : list Indicated) :
  (text this = "abc" ->
   plain_colour (color this) = true ->
   createTyped this memberTypes =
     if forallb is_NonLogic memberTypes then inr None
     else inr (Some (new_CannoliGroup CannoliGroup (id this) "abc"
                       (isClone this) (color this) [] [] [] [])))
  /\ (text this = "abc" ->
      color this = Some "5" ->
      createTyped this memberTypes =
        inl (Error ("Error on object " +:+ id this
                    +:+ ": list group must have a positive integer label.")))
  /\ (text this = "<abc" ->
      createTyped this memberTypes =
        inl (Error ("Error on object " +:+ id this
                    +:+ ": list group must have a positive integer label.")))
  /\ (forall c,
        text this = "abc" ->
        color this = Some c ->
        c ∈ Object_prototype_keys ->
        createTyped this memberTypes =
          inl (Error (invalid_type_message (id this) (IndInherited c))))
  /\ (forall c,
        plain_colour (Some c) = true
        <-> c <> "5" /\ c ∉ Object_prototype_keys).
Proof.
  split; [|split; [|split; [|split]]].
  - intros Ht Hc. unfold createTyped, decideType.
    rewrite (getIndicatedType_abc this memberTypes Ht Hc).
    rewrite (getLabelNumber_abc this Ht).
    destruct (forallb is_NonLogic memberTypes); rewrite ?Ht; reflexivity.
  - intros Ht Hc. unfold createTyped, decideType, getIndicatedType.
    rewrite (getLabelNumber_abc this Ht), Ht, Hc. reflexivity.
  - intros Ht. unfold createTyped, decideType, getIndicatedType, getLabelNumber.
    rewrite Ht. reflexivity.
  - intros c Ht Hc Hin. unfold createTyped, decideType.
    rewrite (getIndicatedType_inherited this memberTypes c); [reflexivity| |exact Hc|exact Hin].
    rewrite Ht. reflexivity.
  - intros c. cbn [plain_colour]. unfold in_GroupColorMap.
    rewrite negb_true_iff, orb_false_iff, String.eqb_neq, bool_decide_eq_false.
    reflexivity.
Qed.

Lemma C8_label_abc_witness :
  createTyped (untyped_group "g" "abc" None ["n"; "m"])
              [IndNode IndicatedNodeType.NonLogic;
               IndNode (IndicatedNodeType.Other "content")]
    = inr (Some (new_CannoliGroup CannoliGroup "g" "abc" false None [] [] [] []))
  /\ createTyped (untyped_group "g" "abc" (Some "5") []) []
    = inl (Error "Error on object g: list group must have a positive integer label.")
  /\ createTyped (untyped_group "g" "<abc" None []) []
    = inl (Error "Error on object g: list group must have a positive integer label.")
  /\ createTyped (untyped_group "g" "abc" (Some "toString") []) []
    = inl (Error (invalid_type_message "g" (IndInherited "toString"))).
Proof.
  split; [|split; [|split]].
  - exact (proj1 (C8_label_abc_is_typed_without_error
                    (untyped_group "g" "abc" None ["n"; "m"])
                    [IndNode IndicatedNodeType.NonLogic;
                     IndNode (IndicatedNodeType.Other "content")])
                 eq_refl eq_refl).
  - exact (proj1 (proj2 (C8_label_abc_is_typed_without_error
                    (untyped_group "g" "abc" (Some "5") []) []))
                 eq_refl eq_refl).
  - exact (proj1 (proj2 (proj2 (C8_label_abc_is_typed_without_error
                    (untyped_group "g" "<abc" None []) [])))
                 eq_refl).
  - exact (proj1 (proj2 (proj2 (proj2 (C8_label_abc_is_typed_without_error
                    (untyped_group "g" "abc" (Some "toString") []) []))))
                 "toString" eq_refl eq_refl
                 (proj1 (bool_decide_eq_true
                           ("toString" ∈ Object_prototype_keys)) eq_refl)).
Defined.

(** ** Running a method *)

Lemma bind_inr {A B} (m : M A) (k : A -> M B) w a w' :
  m w = (inr a, w') -> (m ≫= k) w = k a w'.
Proof. intros E. unfold mbind, M_bind, bind. rewrite E. reflexivity. Qed.

Lemma get_obj_Some i w o :
  graph w !! i = Some o -> get_obj i w = (inr o, w).
Proof. intros E. unfold get_obj. rewrite E. reflexivity. Qed.

(** ** A logging edge loaded without a request *)

(** C10: [LoggingEdge.load] without a request throws, whatever the
    content and the state of the edge, and leaves the store as it was;
    the exception crosses the edge's boundary: a caller that goes on
    after the call does not go on. *)
Theorem C10_LoggingEdge_load_without_request_throws `{Host}
    (this : string) (c : option Content) (w : World) :
  LoggingEdge_load this c None w = (inl (Error no_request_message), w)
  /\ forall (B : Type) (k : unit -> M B),
       bind (LoggingEdge_load this c None) k w
         = (inl (Error no_request_message), w).
Proof.
  split; [reflexivity|]. intros B k. reflexivity.
Qed.

(** The same through the dispatch of [load], for an object of class
    [LoggingEdge]. *)
Lemma load_LoggingEdge_without_request `{Host} i c w o :
  graph w !! i = Some o ->
  cls o = LoggingEdge ->
  result (load i c None w) = inl (Error no_request_message).
Proof.
  intros Hi Hc. unfold load. unfold_m. cbn. rewrite Hi, Hc. reflexivity.
Qed.

(** And through [loadOutgoingEdges]: a node that is not an HTTP node,
    whose first outgoing edge is a logging edge, called with content
    only, throws. *)
Lemma loadOutgoingEdges_LoggingEdge_without_request `{Host}
    this content w t e es eo :
  graph w !! this = Some t ->
  is_Http t = false ->
  outgoingEdges t = e :: es ->
  graph w !! ref_id e = Some eo ->
  cls eo = LoggingEdge ->
  is_Item eo = false ->
  result (CannoliNode_loadOutgoingEdges this content None w)
    = inl (Error no_request_message).
Proof.
  intros Ht Hh Ho He Hc Hi.
  unfold CannoliNode_loadOutgoingEdges, listItems_of. unfold_m. cbn.
  rewrite Ht, Hh, Ho. cbn. unfold_m. cbn.
  rewrite Hh, He, Hc, Hi. eval_instanceof. cbn.
  unfold load. unfold_m. cbn. rewrite He, Hc. reflexivity.
Qed.

(** ** The edge-dependency check of a group *)

Lemma allEdgeDependenciesComplete_app g pre post :
  allEdgeDependenciesComplete g pre = inr true ->
  allEdgeDependenciesComplete g (pre ++ post)%list
    = allEdgeDependenciesComplete g post.
Proof.
  induction pre as [|d pre IH]; intros Hpre; [reflexivity|].
  cbn in *. destruct (edgeDependencyComplete g d) as [e|[|]];
    try discriminate. auto.
Qed.

Lemma edgeDependencyComplete_pair g a b oa ob :
  g !! a = Some oa ->
  g !! b = Some ob ->
  edgeDependencyComplete g (DepSet [a; b])
    = inr ((bool_decide (status oa = Complete)
            || bool_decide (status ob = Complete))
           && (bool_decide (kind oa = Edge) && bool_decide (kind ob = Edge))).
Proof.
  intros Ha Hb. cbn. rewrite Ha, Hb.
  destruct (bool_decide (status oa = Complete)),
           (bool_decide (status ob = Complete)),
           (bool_decide (kind oa = Edge)),
           (bool_decide (kind ob = Edge)); cbn; rewrite ?Ha, ?Hb; reflexivity.
Qed.

(** C5: in the all-edge-dependencies check of a group, where the other
    entries are satisfied, an entry that is a set of two ids both of
    edge kind is satisfied exactly when at least one of the two is
    Complete, whatever the status of the other; when one of the two is
    not of edge kind the entry is not satisfied, whatever is Complete. *)
Theorem C5_set_entry_of_two_edges
    (g : gmap string CannoliObject) (pre post : list Dependency)
    (a b : string) (oa ob : CannoliObject) :
  g !! a = Some oa ->
  g !! b = Some ob ->
  allEdgeDependenciesComplete g pre = inr true ->
  allEdgeDependenciesComplete g post = inr true ->
  (kind oa = Edge /\ kind ob = Edge ->
     (edgeDependencyComplete g (DepSet [a; b]) = inr true
        <-> status oa = Complete \/ status ob = Complete)
     /\ (allEdgeDependenciesComplete g (pre ++ DepSet [a; b] :: post)%list = inr true
        <-> status oa = Complete \/ status ob = Complete))
  /\ (kind oa <> Edge \/ kind ob <> Edge ->
        edgeDependencyComplete g (DepSet [a; b]) = inr false
        /\ allEdgeDependenciesComplete g (pre ++ DepSet [a; b] :: post)%list
             = inr false).
Proof.
  intros Ha Hb Hpre Hpost.
  rewrite (allEdgeDependenciesComplete_app g pre _ Hpre).
  cbn [allEdgeDependenciesComplete].
  rewrite (edgeDependencyComplete_pair g a b oa ob Ha Hb), Hpost.
  split.
  - intros [Ka Kb].
    rewrite (bool_decide_eq_true_2 _ Ka), (bool_decide_eq_true_2 _ Kb).
    cbn [andb]. rewrite andb_true_r.
    assert (Hiff : bool_decide (status oa = Complete)
                   || bool_decide (status ob = Complete) = true
                   <-> status oa = Complete \/ status ob = Complete).
    { rewrite orb_true_iff, !bool_decide_eq_true. reflexivity. }
    split.
    + rewrite <- Hiff. split; [congruence|intros ->; reflexivity].
    + rewrite <- Hiff.
      destruct (bool_decide (status oa = Complete)
                || bool_decide (status ob = Complete));
        split; congruence.
  - intros Hk.
    assert (Hf : bool_decide (kind oa = Edge) && bool_decide (kind ob = Edge) = false).
    { destruct Hk as [Hk|Hk]; rewrite (bool_decide_eq_false_2 _ Hk);
        [reflexivity | apply andb_false_r]. }
    rewrite Hf, andb_false_r. split; reflexivity.
Qed.

Lemma C5_set_entry_witness :
  allEdgeDependenciesComplete two_branches ([] ++ [DepSet ["a"; "b"]])%list
    = inr true.
Proof.
  pose proof (C5_set_entry_of_two_edges two_branches [] [] "a" "b" _ _
                eq_refl eq_refl eq_refl eq_refl) as [Hedges _].
  destruct (Hedges (conj eq_refl eq_refl)) as [_ Hall].
  apply Hall. left. reflexivity.
Defined.

(** ** A group that has members *)

(** A dependency on an object that is not an edge fails the check of a
    group: the loop returns [false] at that entry, if it gets there. *)
Lemma allEdgeDependenciesComplete_not_edge g deps d o :
  DepId d ∈ deps ->
  g !! d = Some o ->
  kind o <> Edge ->
  allEdgeDependenciesComplete g deps <> inr true.
Proof.
  intros Hin Hd Hk. induction deps as [|x deps IH]; [inversion Hin|].
  cbn. apply elem_of_cons in Hin as [<-|Hin].
  - cbn. rewrite Hd, (bool_decide_eq_false_2 _ Hk), andb_false_r. discriminate.
  - destruct (edgeDependencyComplete g x) as [e|[|]]; try discriminate. auto.
Qed.

(** So a Pending group with a member among its dependencies is never
    executed by [dependencyCompleted]: the store is left as it was. *)
Lemma CannoliGroup_with_member_not_executed `{Host} this w t d o :
  graph w !! this = Some t ->
  status t = Pending ->
  DepId d ∈ dependencies t ->
  graph w !! d = Some o ->
  kind o <> Edge ->
  world (CannoliGroup_dependencyCompleted this w) = w.
Proof.
  intros Ht Hs Hin Hd Hk. unfold CannoliGroup_dependencyCompleted.
  unfold_m. cbn. rewrite Ht, Hs. cbn.
  pose proof (allEdgeDependenciesComplete_not_edge _ _ _ _ Hin Hd Hk) as Hne.
  destruct (allEdgeDependenciesComplete (graph w) (dependencies t)) as [e|[|]];
    [reflexivity | congruence | reflexivity].
Qed.

(** C2, on the code: a Pending group with one member, whose only
    incoming edge is Complete.  [setMembers] made the member a
    dependency of the group, the check of the edge dependencies
    returns [false] on it, and [dependencyCompleted] does not execute
    the group: it stays Pending and nothing is emitted, whether the
    member is Pending or Complete. *)
Theorem C2_group_with_member_stays_pending `{Host} :
  forall st : CannoliObjectStatus,
    let w := group_with_member_wired st in
    (dependencies <$> graph w !! "g") = Some [DepId "n"; DepId "e"]
    /\ (members <$> graph w !! "g") = Some ["n"]
    /\ (status <$> graph w !! "e") = Some Complete
    /\ (status <$> graph w !! "g") = Some Pending
    /\ allEdgeDependenciesComplete (graph w) [DepId "n"; DepId "e"] = inr false
    /\ CannoliGroup_dependencyCompleted "g" w = (inr tt, w).
Proof.
  intros st w. subst w. destruct st; vm_compute; repeat split; reflexivity.
Qed.

(** ** Reset *)

Lemma CannoliObject_reset_eq i w :
  CannoliObject_reset i w
    = (inr tt, {| graph := alter reset_base i (graph w);
                  trace := trace w ++ [Update i Pending] |}).
Proof. reflexivity. Qed.

(** [reset] on an object of the graph: the object is replaced by
    [reset_obj] of it and [reset_events] are emitted. *)
Lemma reset_eq `{Host} i w o :
  graph w !! i = Some o ->
  reset i w = (inr tt, {| graph := <[i := reset_obj o]> (graph w);
                          trace := trace w ++ reset_events i o |}).
Proof.
  intros Hi. unfold reset, reset_obj, reset_events.
  rewrite (bind_inr _ _ _ _ _ (get_obj_Some i w o Hi)).
  destruct (instanceof (cls o) CannoliEdge) eqn:Ee.
  - unfold CannoliEdge_reset.
    rewrite (bind_inr _ _ _ _ _ (get_obj_Some i w o Hi)).
    destruct (isReflexive o); cbn [negb andb].
    + unfold ret. rewrite (insert_id _ _ _ Hi), app_nil_r.
      destruct w; reflexivity.
    + rewrite CannoliObject_reset_eq, (alter_alt_Some _ _ _ _ Hi). reflexivity.
  - cbn [andb]. destruct (instanceof (cls o) RepeatGroup) eqn:Er.
    + unfold RepeatGroup_reset. unfold_m.
      rewrite CannoliObject_reset_eq. cbn [graph trace].
      rewrite (alter_alt_Some _ _ _ _ Hi), alter_insert_eq. reflexivity.
    + destruct (instanceof (cls o) ContentNode) eqn:Ec.
      * unfold ContentNode_reset, ContentNode_reset_text.
        rewrite (bind_inr _ _ _ _ _ (get_obj_Some i w o Hi)).
        destruct (bool_decide (type o = Some (TNode ContentNodeType.StandardContent))
                  || bool_decide (type o = Some (TNode ContentNodeType.Output))).
        -- destruct (ContentNode_getName o);
             [destruct (negb (bool_decide (type o = Some (TNode ContentNodeType.StandardContent))))|];
             unfold_m; rewrite CannoliObject_reset_eq; cbn [graph trace];
             rewrite (alter_alt_Some _ _ _ _ Hi), alter_insert_eq; reflexivity.
        -- unfold_m. rewrite CannoliObject_reset_eq.
           rewrite (alter_alt_Some _ _ _ _ Hi). reflexivity.
      * rewrite CannoliObject_reset_eq, (alter_alt_Some _ _ _ _ Hi). reflexivity.
Qed.

Lemma reset_missing `{Host} i w :
  graph w !! i = None -> reset i w = (inl TypeError, w).
Proof. intros Hi. unfold reset. unfold_m. rewrite Hi. reflexivity. Qed.

Lemma reset_obj_outgoingEdges `{Host} o :
  outgoingEdges (reset_obj o) = outgoingEdges o.
Proof.
  unfold reset_obj, ContentNode_reset_text.
  repeat match goal with
         | |- context [if ?b then _ else _] => destruct b
         | |- context [match ?x with Some _ => _ | None => _ end] => destruct x
         end; reflexivity.
Qed.

Lemma reset_obj_members `{Host} o : members (reset_obj o) = members o.
Proof.
  unfold reset_obj, ContentNode_reset_text.
  repeat match goal with
         | |- context [if ?b then _ else _] => destruct b
         | |- context [match ?x with Some _ => _ | None => _ end] => destruct x
         end; reflexivity.
Qed.

Lemma reset_obj_reflexive_edge `{Host} o :
  instanceof (cls o) CannoliEdge = true ->
  isReflexive o = true ->
  reset_obj o = o.
Proof. intros He Hr. unfold reset_obj. rewrite He, Hr. reflexivity. Qed.

Lemma reset_events_quiet this i o :
  List.filter (is_ResetMembers this) (reset_events i o) = [].
Proof. unfold reset_events. destruct (_ && _); reflexivity. Qed.

(** ** Invariants of methods *)

Lemma keeps_ret {A} P (a : A) : keeps P (ret a).
Proof. intros w Hw. exact Hw. Qed.

Lemma keeps_bind {A B} P (m : M A) (k : A -> M B) :
  keeps P m -> (forall a, keeps P (k a)) -> keeps P (m ≫= k).
Proof.
  intros Hm Hk w Hw. unfold mbind, M_bind, bind. specialize (Hm w Hw).
  destruct (m w) as [[e|a] w']; cbn in *; [exact Hm|]. apply Hk, Hm.
Qed.

Lemma keeps_for_of {A} P (l : list A) (body : A -> M unit) :
  (forall x, x ∈ l -> keeps P (body x)) -> keeps P (for_of l body).
Proof.
  induction l as [|x l IH]; intros Hb; cbn [for_of]; [apply keeps_ret|].
  apply (keeps_bind P (body x) (fun _ => for_of l body)).
  - apply Hb. left.
  - intros _. apply IH. intros y Hy. apply Hb. right. exact Hy.
Qed.

Lemma keeps_get_obj P i : keeps P (get_obj i).
Proof. intros w Hw. unfold get_obj. destruct (graph w !! i); exact Hw. Qed.

Lemma keeps_emit P e :
  (forall w, P w -> P {| graph := graph w; trace := trace w ++ [e] |}) ->
  keeps P (emit e).
Proof. intros HP w Hw. apply HP, Hw. Qed.

(** No reset, of any object, touches a reflexive edge. *)
Lemma reset_keeps_reflexive_edge `{Host} i o j :
  instanceof (cls o) CannoliEdge = true ->
  isReflexive o = true ->
  keeps (fun w => graph w !! i = Some o) (reset j).
Proof.
  intros He Hr w Hw. destruct (graph w !! j) as [oj|] eqn:Ej.
  - rewrite (reset_eq j w oj Ej). cbn.
    destruct (decide (j = i)) as [->|Hne].
    + rewrite lookup_insert_eq. rewrite Hw in Ej. injection Ej as <-.
      rewrite (reset_obj_reflexive_edge o He Hr). reflexivity.
    + rewrite lookup_insert_ne by exact Hne. exact Hw.
  - rewrite (reset_missing j w Ej). exact Hw.
Qed.

Lemma resetMembers_keeps_reflexive_edge `{Host} i o this :
  instanceof (cls o) CannoliEdge = true ->
  isReflexive o = true ->
  keeps (fun w => graph w !! i = Some o) (RepeatGroup_resetMembers this).
Proof.
  intros He Hr. unfold RepeatGroup_resetMembers.
  apply keeps_bind; [apply keeps_emit; auto|]. intros _.
  apply keeps_bind; [apply keeps_get_obj|]. intros t.
  apply keeps_for_of. intros member _.
  apply keeps_bind; [apply reset_keeps_reflexive_edge; assumption|]. intros _.
  apply keeps_bind; [apply keeps_get_obj|]. intros m.
  apply keeps_for_of. intros edge _.
  apply reset_keeps_reflexive_edge; assumption.
Qed.

Lemma times_reset_reflexive_edge `{Host} i o w n :
  graph w !! i = Some o ->
  instanceof (cls o) CannoliEdge = true ->
  isReflexive o = true ->
  times n (reset i) w = (inr tt, w).
Proof.
  intros Hi He Hr. induction n as [|n IH]; [reflexivity|].
  cbn [times]. unfold bind. rewrite (reset_eq i w o Hi).
  rewrite (reset_obj_reflexive_edge o He Hr), (insert_id _ _ _ Hi).
  unfold reset_events. rewrite He, Hr. cbn [andb]. rewrite app_nil_r.
  destruct w. exact IH.
Qed.

(** C4: on a reflexive edge any number of calls of [reset] changes
    nothing, in the edge or in the store, and the edge is as it was
    after the [resetMembers] of any group; on an edge that is not
    reflexive [reset] returns, and leaves the edge with no content and
    Pending. *)
Theorem C4_reset_of_an_edge `{Host} (i : string) (o : CannoliObject) (w : World) :
  graph w !! i = Some o ->
  instanceof (cls o) CannoliEdge = true ->
  (isReflexive o = true ->
     (forall n : nat, times n (reset i) w = (inr tt, w))
     /\ (forall this : string,
           graph (world (RepeatGroup_resetMembers this w)) !! i = Some o))
  /\ (isReflexive o = false ->
        result (reset i w) = inr tt
        /\ exists o', graph (world (reset i w)) !! i = Some o'
                      /\ content o' = None
                      /\ status o' = Pending).
Proof.
  intros Hi He. split; intros Hr.
  - split.
    + intros n. exact (times_reset_reflexive_edge i o w n Hi He Hr).
    + intros this. exact (resetMembers_keeps_reflexive_edge i o this He Hr w Hi).
  - rewrite (reset_eq i w o Hi). split; [reflexivity|].
    exists (reset_obj o). cbn. rewrite lookup_insert_eq. split; [reflexivity|].
    unfold reset_obj. rewrite He, Hr. split; reflexivity.
Qed.

Lemma C4_reset_witness :
  graph (world (RepeatGroup_resetMembers (H := example_host None) "loop"
                  loop_with_accumulator)) !! "acc"
    = graph loop_with_accumulator !! "acc"
  /\ exists o',
       graph (world (reset (H := example_host None) "out" loop_with_accumulator))
         !! "out" = Some o'
       /\ content o' = None /\ status o' = Pending.
Proof.
  split.
  - destruct (C4_reset_of_an_edge (H := example_host None) "acc" _
                loop_with_accumulator eq_refl eq_refl) as [Hrefl _].
    destruct (Hrefl eq_refl) as [_ Hmembers]. rewrite (Hmembers "loop").
    reflexivity.
  - destruct (C4_reset_of_an_edge (H := example_host None) "out" _
                loop_with_accumulator eq_refl eq_refl) as [_ Hplain].
    exact (proj2 (Hplain eq_refl)).
Defined.

(** ** The passes of a repeat group *)

Lemma returns_bind {A B} P (m : M A) (k : A -> M B) :
  returns P m -> (forall a, returns P (k a)) -> returns P (m ≫= k).
Proof.
  intros Hm Hk w Hw. destruct (Hm w Hw) as (a & w' & E & Hw').
  rewrite (bind_inr m k w a w' E). apply Hk, Hw'.
Qed.

Lemma returns_for_of {A} P (l : list A) (body : A -> M unit) :
  (forall x, x ∈ l -> returns P (body x)) -> returns P (for_of l body).
Proof.
  induction l as [|x l IH]; intros Hb; cbn [for_of].
  - intros w Hw. exists tt, w. split; [reflexivity|exact Hw].
  - apply (returns_bind P (body x) (fun _ => for_of l body)).
    + apply Hb. left.
    + intros _. apply IH. intros y Hy. apply Hb. right. exact Hy.
Qed.

Lemma same_edges_insert w0 w j oj oj' tr :
  same_edges w0 w ->
  graph w !! j = Some oj ->
  outgoingEdges oj' = outgoingEdges oj ->
  same_edges w0 {| graph := <[j := oj']> (graph w); trace := tr |}.
Proof.
  intros Hs Hj Ho k. cbn. destruct (decide (j = k)) as [->|Hne].
  - rewrite lookup_insert_eq, <- Hs, Hj. cbn. rewrite Ho. reflexivity.
  - rewrite lookup_insert_ne by exact Hne. apply Hs.
Qed.

Lemma same_edges_is_Some w0 w k :
  same_edges w0 w -> is_Some (graph w0 !! k) -> is_Some (graph w !! k).
Proof.
  intros Hs [o Ho]. specialize (Hs k). rewrite Ho in Hs.
  destruct (graph w !! k); [eauto|discriminate].
Qed.

Lemma count_resets_app this g tr evs :
  List.filter (is_ResetMembers this) evs = [] ->
  count_resets this {| graph := g; trace := tr ++ evs |}
    = Datatypes.length (List.filter (is_ResetMembers this) tr).
Proof.
  intros Hq. unfold count_resets. cbn.
  rewrite List.filter_app, Hq, app_nil_r. reflexivity.
Qed.

Lemma reset_returns `{Host} this T cnt w0 j :
  j <> this ->
  is_Some (graph w0 !! j) ->
  returns (subtree_inv this T cnt w0) (reset j).
Proof.
  intros Hne Hj w (Ht & Hc & Hs).
  destruct (same_edges_is_Some w0 w j Hs Hj) as [oj Hoj].
  rewrite (reset_eq j w oj Hoj). eexists tt, _. split; [reflexivity|].
  split; [|split].
  - cbn. rewrite lookup_insert_ne by exact Hne. exact Ht.
  - rewrite (count_resets_app _ _ _ _ (reset_events_quiet this j oj)).
    exact Hc.
  - apply (same_edges_insert w0 w j oj); [exact Hs|exact Hoj|].
    apply reset_obj_outgoingEdges.
Qed.

(** What [subtree_ok] says, as propositions. *)
Lemma subtree_ok_spec this w t :
  graph w !! this = Some t ->
  subtree_ok this w = true ->
  forall member, member ∈ members t ->
    member <> this
    /\ exists o, graph w !! member = Some o
         /\ forall edge, edge ∈ outgoingEdges o ->
              ref_id edge <> this /\ is_Some (graph w !! ref_id edge).
Proof.
  intros Ht Hok member Hin. unfold subtree_ok in Hok. rewrite Ht in Hok.
  rewrite forallb_forall in Hok.
  specialize (Hok member (proj1 (list_elem_of_In _ _) Hin)).
  apply andb_true_iff in Hok as [Hne Hm].
  split.
  { intros ->. rewrite String.eqb_refl in Hne. discriminate. }
  destruct (graph w !! member) as [o|]; [|discriminate].
  exists o. split; [reflexivity|]. intros edge He.
  rewrite forallb_forall in Hm.
  specialize (Hm edge (proj1 (list_elem_of_In _ _) He)).
  apply andb_true_iff in Hm as [Hne' Hs]. split.
  - intros Heq. rewrite Heq, String.eqb_refl in Hne'. discriminate.
  - apply bool_decide_eq_true in Hs. exact Hs.
Qed.

Lemma subtree_ok_same_edges this w w' t t' :
  graph w !! this = Some t ->
  graph w' !! this = Some t' ->
  members t' = members t ->
  same_edges w w' ->
  subtree_ok this w = true ->
  subtree_ok this w' = true.
Proof.
  intros Ht Ht' Hm Hs Hok.
  pose proof (subtree_ok_spec this w t Ht Hok) as Hspec.
  unfold subtree_ok. rewrite Ht', Hm. apply forallb_forall. intros member Hin.
  destruct (Hspec member (proj2 (list_elem_of_In _ _) Hin)) as (Hne & o & Ho & He).
  apply andb_true_iff. split.
  { apply negb_true_iff. apply String.eqb_neq. exact Hne. }
  pose proof (Hs member) as Hk. rewrite Ho in Hk.
  destruct (graph w' !! member) as [o'|]; [|discriminate].
  cbn in Hk. injection Hk as Hk. rewrite Hk.
  apply forallb_forall. intros edge Hedge.
  destruct (He edge (proj2 (list_elem_of_In _ _) Hedge)) as [Hne' Hsome].
  apply andb_true_iff. split.
  - apply negb_true_iff. apply String.eqb_neq. exact Hne'.
  - apply bool_decide_eq_true. exact (same_edges_is_Some w w' _ Hs Hsome).
Qed.

(** *** What a reset re-arms *)

Lemma reset_obj_rearmed `{Host} g j o :
  is_rearmed (<[j := reset_obj o]> g) j = true.
Proof.
  unfold is_rearmed. rewrite lookup_insert_eq. unfold reset_obj.
  destruct (instanceof (cls o) CannoliEdge) eqn:Ee.
  - destruct (isReflexive o) eqn:Er.
    + rewrite Ee, Er. reflexivity.
    + cbn. apply orb_true_r.
  - destruct (instanceof (cls o) RepeatGroup); [cbn; apply orb_true_r|].
    destruct (instanceof (cls o) ContentNode); cbn; apply orb_true_r.
Qed.

Lemma reset_rearms `{Host} j w w1 :
  reset j w = (inr tt, w1) -> is_rearmed (graph w1) j = true.
Proof.
  destruct (graph w !! j) as [o|] eqn:Ej.
  - rewrite (reset_eq j w o Ej). intros [= <-]. cbn [graph].
    apply reset_obj_rearmed.
  - rewrite (reset_missing j w Ej). discriminate.
Qed.

Lemma keeps_rearmed_reset `{Host} i j :
  keeps (fun w => is_rearmed (graph w) j = true) (reset i).
Proof.
  intros w Hw. destruct (graph w !! i) as [o|] eqn:Ei.
  - rewrite (reset_eq i w o Ei). cbn [snd graph].
    destruct (decide (i = j)) as [->|Hne]; [apply reset_obj_rearmed|].
    unfold is_rearmed in Hw |- *. rewrite lookup_insert_ne by exact Hne. exact Hw.
  - rewrite (reset_missing i w Ei). exact Hw.
Qed.

Lemma keeps_same_edges_reset `{Host} w0 i : keeps (same_edges w0) (reset i).
Proof.
  intros w Hw. destruct (graph w !! i) as [o|] eqn:Ei.
  - rewrite (reset_eq i w o Ei). cbn [snd].
    apply (same_edges_insert w0 w i o); [exact Hw|exact Ei|].
    apply reset_obj_outgoingEdges.
  - rewrite (reset_missing i w Ei). exact Hw.
Qed.

(** The loop of [resetMembers] over the outgoing edges of a member. *)
Lemma reset_edges_rearms `{Host} (es : list EdgeRef) :
  forall w w',
    for_of es (fun edge => reset (ref_id edge)) w = (inr tt, w') ->
    forall edge, edge ∈ es -> is_rearmed (graph w') (ref_id edge) = true.
Proof.
  induction es as [|e es IH]; intros w w' E edge Hin; [inversion Hin|].
  cbn [for_of] in E. unfold bind in E.
  destruct (reset (ref_id e) w) as [[x|[]] w1] eqn:E1; [discriminate E|].
  apply elem_of_cons in Hin as [->|Hin]; [|exact (IH w1 w' E edge Hin)].
  pose proof (keeps_for_of (fun w => is_rearmed (graph w) (ref_id e) = true) es
                (fun edge => reset (ref_id edge))
                (fun x _ => keeps_rearmed_reset (ref_id x) (ref_id e))
                w1 (reset_rearms _ _ _ E1)) as Hk.
  rewrite E in Hk. exact Hk.
Qed.

(** The body of the loop of [resetMembers] keeps what is re-armed and
    the outgoing edges of every object. *)
Lemma keeps_rearmed_member `{Host} member j :
  keeps (fun w => is_rearmed (graph w) j = true)
    (reset member;;
     m ← get_obj member;
     for_of (outgoingEdges m) (fun edge => reset (ref_id edge))).
Proof.
  apply keeps_bind; [apply keeps_rearmed_reset|]. intros _.
  apply keeps_bind; [apply keeps_get_obj|]. intros m.
  apply keeps_for_of. intros edge _. apply keeps_rearmed_reset.
Qed.

Lemma keeps_same_edges_member `{Host} w0 member :
  keeps (same_edges w0)
    (reset member;;
     m ← get_obj member;
     for_of (outgoingEdges m) (fun edge => reset (ref_id edge))).
Proof.
  apply keeps_bind; [apply keeps_same_edges_reset|]. intros _.
  apply keeps_bind; [apply keeps_get_obj|]. intros m.
  apply keeps_for_of. intros edge _. apply keeps_same_edges_reset.
Qed.

(** The loop of [resetMembers] over the members: when it returns,
    every member is re-armed, and so is every outgoing edge of a
    member. *)
Lemma resetMembers_loop_rearms `{Host} w0 (ms : list string) :
  forall w w',
    same_edges w0 w ->
    for_of ms (fun member =>
                 reset member;;
                 m ← get_obj member;
                 for_of (outgoingEdges m) (fun edge => reset (ref_id edge))) w
    = (inr tt, w') ->
    forall member, member ∈ ms ->
      is_rearmed (graph w') member = true
      /\ forall o0 edge,
           graph w0 !! member = Some o0 ->
           edge ∈ outgoingEdges o0 ->
           is_rearmed (graph w') (ref_id edge) = true.
Proof.
  induction ms as [|m ms IH]; intros w w' Hs E member Hin; [inversion Hin|].
  cbn [for_of] in E. unfold bind in E.
  destruct ((reset m;;
             m0 ← get_obj m;
             for_of (outgoingEdges m0) (fun edge => reset (ref_id edge))) w)
    as [[x|[]] w1] eqn:Eb; [discriminate E|].
  pose proof (keeps_same_edges_member w0 m w Hs) as Hs1.
  rewrite Eb in Hs1. cbn [snd] in Hs1.
  apply elem_of_cons in Hin as [->|Hin]; [|exact (IH w1 w' Hs1 E member Hin)].
  assert (Hlater : forall j, is_rearmed (graph w1) j = true ->
                             is_rearmed (graph w') j = true).
  { intros j Hj.
    pose proof (keeps_for_of (fun w => is_rearmed (graph w) j = true) ms _
                  (fun x _ => keeps_rearmed_member x j) w1 Hj) as Hk.
    rewrite E in Hk. exact Hk. }
  unfold mbind, M_bind, bind in Eb.
  destruct (reset m w) as [[x|[]] wa] eqn:Er; [discriminate Eb|].
  pose proof (keeps_same_edges_reset w0 m w Hs) as Hsa.
  rewrite Er in Hsa. cbn [snd] in Hsa.
  unfold get_obj in Eb. destruct (graph wa !! m) as [oa|] eqn:Eoa;
    [|discriminate Eb].
  split.
  - apply Hlater.
    pose proof (keeps_for_of (fun w => is_rearmed (graph w) m = true)
                  (outgoingEdges oa) (fun edge => reset (ref_id edge))
                  (fun x _ => keeps_rearmed_reset (ref_id x) m)
                  wa (reset_rearms _ _ _ Er)) as Hk.
    rewrite Eb in Hk. exact Hk.
  - intros o0 edge Ho0 Hedge. apply Hlater.
    apply (reset_edges_rearms (outgoingEdges oa) wa w1 Eb).
    pose proof (Hsa m) as Hm. rewrite Eoa, Ho0 in Hm. cbn in Hm.
    injection Hm as ->. exact Hedge.
Qed.

(** When [resetMembers] returns, the member subtree is re-armed. *)
Lemma resetMembers_rearms `{Host} this T w0 w w' :
  graph w !! this = Some T ->
  same_edges w0 w ->
  RepeatGroup_resetMembers this w = (inr tt, w') ->
  forall member, member ∈ members T ->
    is_rearmed (graph w') member = true
    /\ forall o0 edge,
         graph w0 !! member = Some o0 ->
         edge ∈ outgoingEdges o0 ->
         is_rearmed (graph w') (ref_id edge) = true.
Proof.
  intros Ht Hs E. unfold RepeatGroup_resetMembers in E.
  set (w1 := {| graph := graph w; trace := trace w ++ [ResetMembers this] |}) in *.
  rewrite (bind_inr (emit (ResetMembers this)) _ w tt w1 eq_refl) in E.
  rewrite (bind_inr (get_obj this) _ w1 T w1 (get_obj_Some this w1 T Ht)) in E.
  exact (resetMembers_loop_rearms w0 (members T) w1 w' Hs E).
Qed.

Lemma subtree_rearmed_intro this w w0 T :
  graph w !! this = Some T ->
  same_edges w0 w ->
  (forall member, member ∈ members T ->
     is_rearmed (graph w) member = true
     /\ forall o0 edge,
          graph w0 !! member = Some o0 ->
          edge ∈ outgoingEdges o0 ->
          is_rearmed (graph w) (ref_id edge) = true) ->
  subtree_rearmed this w = true.
Proof.
  intros Ht Hs Hall. unfold subtree_rearmed. rewrite Ht.
  apply forallb_forall. intros member Hin. apply list_elem_of_In in Hin.
  destruct (Hall member Hin) as [Hm Hedges]. rewrite Hm. cbn [andb].
  pose proof (Hs member) as Hk.
  destruct (graph w !! member) as [o|] eqn:Eo;
    [|unfold is_rearmed in Hm; rewrite Eo in Hm; discriminate Hm].
  destruct (graph w0 !! member) as [o0|] eqn:Eo0; [|discriminate Hk].
  cbn in Hk. injection Hk as Hk. rewrite Hk.
  apply forallb_forall. intros edge Hedge. apply list_elem_of_In in Hedge.
  exact (Hedges o0 edge eq_refl Hedge).
Qed.

(** [resetMembers] on a well-formed subtree returns, and leaves the
    group object and the count of resets as they are after the event
    that records the call. *)
Lemma resetMembers_returns `{Host} this T w0 w :
  graph w !! this = Some T ->
  same_edges w0 w ->
  (forall member, member ∈ members T ->
     member <> this
     /\ exists o, graph w0 !! member = Some o
          /\ forall edge, edge ∈ outgoingEdges o ->
               ref_id edge <> this /\ is_Some (graph w0 !! ref_id edge)) ->
  exists w', RepeatGroup_resetMembers this w = (inr tt, w')
             /\ subtree_inv this T (S (count_resets this w)) w0 w'.
Proof.
  intros Ht Hs Hspec. unfold RepeatGroup_resetMembers.
  set (w1 := {| graph := graph w; trace := trace w ++ [ResetMembers this] |}).
  assert (Hinv : subtree_inv this T (S (count_resets this w)) w0 w1).
  { split; [exact Ht|]. split; [|exact Hs].
    unfold count_resets, w1. cbn. rewrite List.filter_app. cbn.
    rewrite String.eqb_refl, length_app. cbn. lia. }
  rewrite (bind_inr (emit (ResetMembers this)) _ w tt w1 eq_refl).
  rewrite (bind_inr (get_obj this) _ w1 T w1 (get_obj_Some this w1 T Ht)).
  assert (Hloop : returns (subtree_inv this T (S (count_resets this w)) w0)
            (for_of (members T) (fun member =>
               reset member;;
               m ← get_obj member;
               for_of (outgoingEdges m) (fun edge => reset (ref_id edge))))).
  { apply returns_for_of. intros member Hin.
    destruct (Hspec member Hin) as (Hne & o & Ho & Hedges).
    apply returns_bind. { apply reset_returns; [exact Hne|eauto]. }
    intros _ w2 Hw2. destruct Hw2 as (Ht2 & Hc2 & Hs2).
    pose proof (Hs2 member) as Hk. rewrite Ho in Hk.
    destruct (graph w2 !! member) as [o2|] eqn:Eo2; [|discriminate].
    cbn in Hk. injection Hk as Hk.
    rewrite (bind_inr (get_obj member) _ w2 o2 w2 (get_obj_Some member w2 o2 Eo2)).
    rewrite Hk.
    apply (returns_for_of (subtree_inv this T (S (count_resets this w)) w0)).
    - intros edge Hedge. destruct (Hedges edge Hedge) as [Hne' Hsome].
      apply reset_returns; assumption.
    - split; [exact Ht2|]. split; [exact Hc2|exact Hs2]. }
  destruct (Hloop w1 Hinv) as ([] & w' & E & Hw'). exists w'. split; assumption.
Qed.

Lemma same_edges_refl w : same_edges w w.
Proof. intros k. reflexivity. Qed.

(** One call of [membersFinished] on a repeat group. *)
Lemma membersFinished_step `{Host} this w tc c :
  graph w !! this = Some tc ->
  instanceof (cls tc) RepeatGroup = true ->
  currentLoop tc = Some c ->
  subtree_ok this w = true ->
  exists w',
    membersFinished this w = (inr tt, w')
    /\ subtree_ok this w' = true
    /\ if c <? maxLoops tc
       then graph w' !! this = Some (set_currentLoop (Some (c + 1)) tc)
            /\ count_resets this w' = S (count_resets this w)
            /\ subtree_rearmed this w' = true
       else graph w' !! this = Some (set_status Complete tc)
            /\ count_resets this w' = count_resets this w.
Proof.
  intros Ht Hcls Hc Hok. unfold membersFinished.
  rewrite (bind_inr (get_obj this) _ w tc w (get_obj_Some this w tc Ht)), Hcls.
  unfold RepeatGroup_membersFinished.
  rewrite (bind_inr (get_obj this) _ w tc w (get_obj_Some this w tc Ht)), Hc.
  pose proof (subtree_ok_spec this w tc Ht Hok) as Hspec.
  destruct (c <? maxLoops tc).
  - set (T := set_currentLoop (Some (c + 1)) tc).
    set (w1 := {| graph := <[this := T]> (graph w); trace := trace w |}).
    assert (E1 : modify this (set_currentLoop (Some (c + 1))) w = (inr tt, w1)).
    { unfold modify, w1, T. rewrite (alter_alt_Some _ _ _ _ Ht). reflexivity. }
    rewrite (bind_inr _ _ w tt w1 E1).
    assert (Ht1 : graph w1 !! this = Some T) by (cbn; apply lookup_insert_eq).
    assert (Hs1 : same_edges w w1).
    { apply (same_edges_insert w w this tc); [apply same_edges_refl|exact Ht|reflexivity]. }
    destruct (resetMembers_returns this T w w1 Ht1 Hs1 Hspec)
      as (w' & E & Ht' & Hc' & Hs').
    exists w'. split; [exact E|]. split.
    + apply (subtree_ok_same_edges this w w' tc T Ht Ht' eq_refl Hs' Hok).
    + split; [exact Ht'|]. split; [exact Hc'|].
      apply (subtree_rearmed_intro this w' w T Ht' Hs').
      exact (resetMembers_rearms this T w w1 w' Ht1 Hs1 E).
  - set (w2 := {| graph := <[this := set_status Complete tc]> (graph w);
                  trace := trace w ++ [Update this Complete] |}).
    exists w2. split.
    { unfold_m. rewrite (alter_alt_Some _ _ _ _ Ht). reflexivity. }
    split; [|split].
    + apply (subtree_ok_same_edges this w w2 tc (set_status Complete tc) Ht);
        [cbn; apply lookup_insert_eq | reflexivity | | exact Hok].
      apply (same_edges_insert w w this tc); [apply same_edges_refl|exact Ht|reflexivity].
    + cbn. apply lookup_insert_eq.
    + unfold w2. rewrite count_resets_app by reflexivity. reflexivity.
Qed.

Lemma invocations_spec `{Host} this envs :
  Forall (frame this) envs ->
  forall w tc c S,
    graph w !! this = Some tc ->
    instanceof (cls tc) RepeatGroup = true ->
    status tc = S ->
    currentLoop tc = Some c ->
    subtree_ok this w = true ->
    forall (k : nat) r wk,
      invocations this envs w !! k = Some (r, wk) ->
      r = inr tt
      /\ exists tk,
           graph wk !! this = Some tk
           /\ (c + Z.of_nat k < maxLoops tc ->
                 status tk = S
                 /\ currentLoop tk = Some (c + Z.of_nat k + 1)
                 /\ count_resets this wk = (count_resets this w + k + 1)%nat
                 /\ subtree_rearmed this wk = true)
           /\ (c <= maxLoops tc -> c + Z.of_nat k = maxLoops tc ->
                 status tk = Complete
                 /\ currentLoop tk = Some (maxLoops tc)
                 /\ count_resets this wk = (count_resets this w + k)%nat).
Proof.
  induction 1 as [|env envs Henv _ IH]; intros w tc c S Ht Hcls Hst Hc Hok k r wk Hk.
  { destruct k; discriminate. }
  destruct (membersFinished_step this w tc c Ht Hcls Hc Hok)
    as (w' & E & Hok' & Hstep).
  cbn [invocations] in Hk. rewrite E in Hk. cbn [snd] in Hk.
  destruct k as [|k].
  - cbn in Hk. injection Hk as <- <-. split; [reflexivity|].
    destruct (Z.ltb_spec c (maxLoops tc)) as [Hlt|Hge];
      destruct Hstep as [Ht' Hcnt]; eexists; (split; [exact Ht'|]); split.
    + intros _. cbn. split; [exact Hst|]. split; [f_equal; lia|].
      destruct Hcnt as [Hcnt Hre]. split; [lia|exact Hre].
    + intros _ Heq. lia.
    + intros Hlt. lia.
    + intros Hle Heq. cbn. split; [reflexivity|]. split; [|lia].
      rewrite Hc. f_equal. lia.
  - cbn in Hk. destruct (Henv w') as (Hg & Hcnt_env & Hok_env).
    specialize (Hok_env Hok').
    destruct (Z.ltb_spec c (maxLoops tc)) as [Hlt|Hge];
      destruct Hstep as [Ht' Hcnt].
    + rewrite <- Hg in Ht'.
      destruct (IH (env w') (set_currentLoop (Some (c + 1)) tc) (c + 1) S
                  Ht' Hcls Hst eq_refl Hok_env k r wk Hk)
        as (Hr & tk & Htk & Hlow & Hhigh).
      split; [exact Hr|]. exists tk. split; [exact Htk|]. cbn in Hlow, Hhigh.
      split.
      * intros Hb. destruct Hlow as (? & ? & ? & ?); [lia|].
        split; [assumption|]. split; [|split; [lia|assumption]].
        replace (c + Z.of_nat (Datatypes.S k) + 1) with (c + 1 + Z.of_nat k + 1) by lia.
        assumption.
      * intros Hle Heq. destruct Hhigh as (? & ? & ?); [lia|lia|].
        split; [assumption|]. split; [assumption|lia].
    + rewrite <- Hg in Ht'.
      destruct (IH (env w') (set_status Complete tc) c Complete
                  Ht' Hcls eq_refl Hc Hok_env k r wk Hk)
        as (Hr & tk & Htk & _ & _).
      split; [exact Hr|]. exists tk. split; [exact Htk|]. split.
      * intros Hb. lia.
      * intros Hle Heq. lia.
Qed.

(** C3: a repeat group with [maxLoops = N], [0 <= N], that starts at
    [currentLoop = 0] over a well-formed subtree.  Whatever the members
    do between the calls, every call of [membersFinished] returns.
    Each of the first [N] calls increments [currentLoop] and runs
    [resetMembers] once, which re-arms the member subtree: when the
    call returns, every member and every outgoing edge of a member is
    Pending and holds no content, a reflexive edge apart, and the
    group is still Executing.  Call number [N + 1] is the one that
    makes the group Complete, after [N] resets in all.  ([k] counts
    the calls from 0.) *)
Theorem C3_repeat_group_passes `{Host}
    (this : string) (t : CannoliObject) (N : Z)
    (envs : list (World -> World)) (w : World) :
  graph w !! this = Some t ->
  instanceof (cls t) RepeatGroup = true ->
  status t = Executing ->
  currentLoop t = Some 0 ->
  maxLoops t = N ->
  0 <= N ->
  subtree_ok this w = true ->
  Forall (frame this) envs ->
  forall (k : nat) (r : Exn + unit) (wk : World),
    invocations this envs w !! k = Some (r, wk) ->
    r = inr tt
    /\ exists tk,
         graph wk !! this = Some tk
         /\ (Z.of_nat k < N ->
               status tk = Executing
               /\ currentLoop tk = Some (Z.of_nat k + 1)
               /\ count_resets this wk = (count_resets this w + k + 1)%nat
               /\ subtree_rearmed this wk = true)
         /\ (Z.of_nat k = N ->
               status tk = Complete
               /\ currentLoop tk = Some N
               /\ count_resets this wk = (count_resets this w + Z.to_nat N)%nat).
Proof.
  intros Ht Hcls Hst Hc HN Hpos Hok Henvs k r wk Hk.
  destruct (invocations_spec this envs Henvs w t 0 Executing
              Ht Hcls Hst Hc Hok k r wk Hk) as (Hr & tk & Htk & Hlow & Hhigh).
  split; [exact Hr|]. exists tk. split; [exact Htk|]. rewrite HN in *.
  split.
  - intros Hlt. apply Hlow. lia.
  - intros Heq. destruct Hhigh as (? & ? & ?); [lia|lia|].
    split; [assumption|]. split; [assumption|]. lia.
Qed.

Lemma frame_id this : frame this (fun w => w).
Proof. intros w. auto. Qed.

Lemma C3_repeat_group_witness :
  exists r0 w0 r wk,
    invocations (H := example_host None) "loop"
      [fun w => w; fun w => w; fun w => w] repeat_twice !! 0%nat
      = Some (r0, w0)
    /\ subtree_rearmed "loop" w0 = true
    /\ (status <$> graph repeat_twice !! "n") = Some Complete
    /\ invocations (H := example_host None) "loop"
         [fun w => w; fun w => w; fun w => w] repeat_twice !! 2%nat
       = Some (r, wk)
    /\ r = inr tt
    /\ (status <$> graph wk !! "loop") = Some Complete
    /\ count_resets "loop" wk = 2%nat.
Proof.
  destruct (invocations (H := example_host None) "loop"
              [fun w => w; fun w => w; fun w => w] repeat_twice !! 0%nat)
    as [[r0 w0]|] eqn:H0; [|vm_compute in H0; discriminate].
  destruct (invocations (H := example_host None) "loop"
              [fun w => w; fun w => w; fun w => w] repeat_twice !! 2%nat)
    as [[r wk]|] eqn:Hk; [|vm_compute in Hk; discriminate].
  exists r0, w0, r, wk. split; [reflexivity|].
  destruct (C3_repeat_group_passes (H := example_host None) "loop" _ 2
              [fun w => w; fun w => w; fun w => w] repeat_twice
              eq_refl eq_refl eq_refl eq_refl eq_refl ltac:(lia) eq_refl
              ltac:(repeat constructor; apply frame_id)
              0%nat r0 w0 H0) as (_ & t0 & _ & Hpass & _).
  destruct (Hpass ltac:(lia)) as (_ & _ & _ & Hre).
  split; [exact Hre|]. split; [reflexivity|]. split; [reflexivity|].
  destruct (C3_repeat_group_passes (H := example_host None) "loop" _ 2
              [fun w => w; fun w => w; fun w => w] repeat_twice
              eq_refl eq_refl eq_refl eq_refl eq_refl ltac:(lia) eq_refl
              ltac:(repeat constructor; apply frame_id)
              2%nat r wk Hk) as (Hr & tk & Htk & _ & Hdone).
  destruct (Hdone eq_refl) as (Hst & _ & Hcnt).
  split; [exact Hr|]. rewrite Htk. cbn. rewrite Hst. split; [reflexivity|exact Hcnt].
Defined.

(** ** Who calls [execute] *)


Lemma keeps_quiet_modify w0 i f : keeps (quiet_since w0) (modify i f).
Proof. intros w Hw. exact Hw. Qed.

Lemma keeps_quiet_emit w0 e :
  (forall j, e <> Execute j) -> keeps (quiet_since w0) (emit e).
Proof.
  intros He w (evs & Ht & Hq). exists (evs ++ [e])%list. cbn. split.
  - rewrite Ht, app_assoc. reflexivity.
  - apply Forall_app. split; [exact Hq|]. constructor; [exact He|constructor].
Qed.

Lemma keeps_quiet_CannoliObject_reset w0 i :
  keeps (quiet_since w0) (CannoliObject_reset i).
Proof.
  apply keeps_bind; [apply keeps_quiet_modify|]. intros _.
  apply keeps_quiet_emit. discriminate.
Qed.












(** *** Counting the calls *)












(** ** Loading the outgoing edges *)

Lemma reject_eq i w o :
  graph w !! i = Some o ->
  reject i w = (inr tt, {| graph := <[i := set_status Rejected o]> (graph w);
                           trace := trace w ++ [Reject i; Update i Rejected] |}).
Proof.
  intros Hi. unfold reject. unfold_m. cbn.
  rewrite (alter_alt_Some _ _ _ _ Hi), <- app_assoc. reflexivity.
Qed.

(** [load] on a plain edge: the edge is replaced by [loaded] of it. *)
Lemma load_plain_eq `{Host} i c r w o :
  graph w !! i = Some o ->
  cls o = CannoliEdge ->
  load i c r w = (inr tt, {| graph := <[i := loaded c r o]> (graph w);
                             trace := trace w ++ [Load i c r] |}).
Proof.
  intros Hi Hc. unfold load, CannoliEdge_load, loaded. unfold_m. cbn.
  rewrite Hi, Hc. cbn. rewrite (alter_alt_Some _ _ _ _ Hi), lookup_insert_eq.
  cbn. destruct (addMessages o); [|reflexivity].
  cbn [graph trace]. rewrite alter_insert_eq. reflexivity.
Qed.

Lemma loaded_content s r o :
  Js.truthy s = true -> content (loaded (Some (CStr s)) r o) = Some (CStr s).
Proof.
  intros Hs. unfold loaded. cbn. rewrite Hs. destruct (addMessages o); reflexivity.
Qed.

Lemma loaded_status c r o : status (loaded c r o) = status o.
Proof. unfold loaded. cbn. destruct (addMessages o); reflexivity. Qed.

Lemma outcome_lookup content request items r1 r2 o :
  items !! r1 = items !! r2 ->
  outcome content request items r1 o = outcome content request items r2 o.
Proof. intros E. unfold outcome. rewrite E. reflexivity. Qed.

(** [load] on a system-message edge: the edge is replaced by
    [system_loaded] of it. *)
Lemma load_system_eq `{Host} i c r w o :
  graph w !! i = Some o ->
  cls o = SystemMessageEdge ->
  load i c r w = (inr tt, {| graph := <[i := system_loaded c o]> (graph w);
                             trace := trace w ++ [Load i c r] |}).
Proof.
  intros Hi Hc. unfold load, SystemMessageEdge_load, system_loaded. unfold_m. cbn.
  rewrite Hi, Hc. cbn. destruct (Content_truthy c); cbn.
  - rewrite (alter_alt_Some _ _ _ _ Hi). reflexivity.
  - rewrite (insert_id _ _ _ Hi). reflexivity.
Qed.

Lemma instanceof_ChatResponseEdge c :
  instanceof c ChatResponseEdge = bool_decide (c = ChatResponseEdge).
Proof. destruct c; reflexivity. Qed.

(** [load] on an object that is no chat-response edge touches that
    object only; it returns where [load_returns] says so. *)
Lemma load_touches_its_edge `{Host} i c r w o :
  graph w !! i = Some o ->
  cls o <> ChatResponseEdge ->
  exists res w1,
    load i c r w = (res, w1)
    /\ (forall j, j <> i -> graph w1 !! j = graph w !! j)
    /\ (load_returns r o = true -> res = inr tt).
Proof.
  intros Hi Hncr.
  assert (Hplain : exists res w1,
             CannoliEdge_load i c r
               {| graph := graph w; trace := trace w ++ [Load i c r] |} = (res, w1)
             /\ (forall j, j <> i -> graph w1 !! j = graph w !! j)
             /\ res = inr tt).
  { unfold CannoliEdge_load. unfold_m. cbn.
    rewrite lookup_alter_eq, Hi. cbn.
    destruct (addMessages o); eexists _, _; (split; [reflexivity|]);
      (split; [|reflexivity]); intros j Hj; cbn;
      rewrite ?lookup_alter_ne by congruence; reflexivity. }
  unfold load, load_returns.
  rewrite (bind_inr (emit (Load i c r)) _ w tt
             {| graph := graph w; trace := trace w ++ [Load i c r] |} eq_refl).
  rewrite (bind_inr (get_obj i) _ _ o _
             (get_obj_Some i {| graph := graph w; trace := trace w ++ [Load i c r] |}
                o Hi)).
  destruct (cls o);
    try (destruct Hplain as (res & w1 & E & Hfr & ->);
         exists (inr tt), w1; split; [exact E|]; split; [exact Hfr|reflexivity]).
  - unfold ChatConverterEdge_load.
    destruct r as [[[ms|] fs]|]; destruct chatFormatString as [f|];
      try destruct (Js.truthy f) eqn:Ef; rewrite ?andb_false_r;
      try (destruct c as [[str|rec]|]; cbn [Content_truthy];
           try destruct (Js.truthy str) eqn:Es; cbn [andb]);
      try (destruct (stringToArray str f) as [[ex|ms']|]);
      unfold_m; cbn; eexists _, _; (split; [reflexivity|]);
      (split; [intros j Hj; cbn; rewrite ?lookup_alter_ne by congruence; reflexivity|]);
      intros Hr; first [discriminate Hr|reflexivity].
  - unfold SystemMessageEdge_load. unfold_m. cbn.
    destruct (Content_truthy c); eexists _, _; (split; [reflexivity|]);
      (split; [intros j Hj; cbn; rewrite ?lookup_alter_ne by congruence; reflexivity|]);
      reflexivity.
  - unfold LoggingEdge_load. destruct r as [request|].
    + unfold_m. cbn. rewrite Hi.
      destruct (content o); eexists _, _; (split; [reflexivity|]);
        (split; [intros j Hj; cbn; rewrite ?lookup_alter_ne by congruence; reflexivity|]);
        reflexivity.
    + eexists _, _. split; [reflexivity|]. split; [reflexivity|]. discriminate.
  - contradiction.
Qed.

(** One round of the loop of [loadOutgoingEdges] on a node that is not
    an HTTP node: it touches the edge of the round only, it returns
    when the edge's [load] does, and then it leaves the [outcome] on
    the edge and goes on with the next item if it has used one. *)
Lemma loadOutgoingEdges_loop_round `{Host} t content request items e idx w :
  is_Http t = false ->
  Forall (fun s => Js.truthy s = true) items ->
  chat_response_not_item (graph w) e = true ->
  exists (r1 : Exn + unit) (w1 : World),
    (forall j, j <> ref_id e -> graph w1 !! j = graph w !! j)
    /\ (loads_return request (graph w) e = true -> r1 = inr tt)
    /\ (r1 = inr tt ->
        forall o o',
          graph w !! ref_id e = Some o ->
          instanceof (cls o) CannoliEdge = true ->
          outcome content request items idx o = Some o' ->
          graph w1 !! ref_id e = Some o')
    /\ forall es,
         loadOutgoingEdges_loop t content request items (e :: es) idx w
         = match r1 with
           | inr _ =>
               loadOutgoingEdges_loop t content request items es
                 (if is_item_edge (graph w) e
                     && bool_decide (is_Some (items !! idx))
                  then S idx else idx) w1
           | inl ex => (inl ex, w1)
           end.
Proof.
  intros Hh Hitems Hcr.
  assert (Hhead : forall es o',
             graph w !! ref_id e = o' ->
             loadOutgoingEdges_loop t content request items (e :: es) idx w
             = match o' with
               | Some eo =>
                   if instanceof (cls eo) CannoliEdge
                      && negb (instanceof (cls eo) ChatResponseEdge)
                      && negb (is_Item eo)
                   then
                     load (ref_id e) (Some (CStr content)) request;;
                     loadOutgoingEdges_loop t content request items es idx
                   else if instanceof (cls eo) CannoliEdge && is_Item eo then
                     match items !! idx with
                     | Some item =>
                         if Js.truthy item then
                           load (ref_id e) (Some (CStr item)) request;;
                           loadOutgoingEdges_loop t content request items es (S idx)
                         else
                           reject (ref_id e);;
                           loadOutgoingEdges_loop t content request items es idx
                     | None =>
                         reject (ref_id e);;
                         loadOutgoingEdges_loop t content request items es idx
                     end
                   else loadOutgoingEdges_loop t content request items es idx
               | None => loadOutgoingEdges_loop t content request items es idx
               end w).
  { intros es o' Ho'. cbn [loadOutgoingEdges_loop].
    rewrite (bind_inr (lookup_obj (ref_id e)) _ w o' w)
      by (unfold lookup_obj; rewrite Ho'; reflexivity).
    rewrite Hh. rewrite (bind_inr (ret content) _ w content w eq_refl).
    reflexivity. }
  unfold chat_response_not_item in Hcr. unfold loads_return, is_item_edge.
  destruct (graph w !! ref_id e) as [o|] eqn:He.
  2: { exists (inr tt), w. split; [reflexivity|]. split; [reflexivity|].
       split; [intros _ o o' Ho; discriminate|].
       intros es. rewrite (Hhead es None eq_refl). reflexivity. }
  rewrite instanceof_ChatResponseEdge in Hhead || idtac.
  destruct (instanceof (cls o) CannoliEdge) eqn:Hedge.
  2: { exists (inr tt), w. split; [reflexivity|]. split; [reflexivity|].
       split; [intros _ o0 o' Ho Hinst; injection Ho as <-; congruence|].
       intros es. rewrite (Hhead es (Some o) eq_refl), Hedge. reflexivity. }
  destruct (is_Item o) eqn:Hi.
  - assert (Hncr : cls o <> ChatResponseEdge).
    { intros Hc. rewrite (bool_decide_eq_true_2 _ Hc) in Hcr. discriminate. }
    destruct (items !! idx) as [item|] eqn:Eitem.
    + assert (Ht : Js.truthy item = true).
      { rewrite Forall_forall in Hitems. apply Hitems.
        apply list_elem_of_lookup. eauto. }
      destruct (load_touches_its_edge (ref_id e) (Some (CStr item)) request w o
                  He Hncr) as (r1 & w1 & El & Hfr & Hret).
      exists r1, w1. split; [exact Hfr|]. split; [exact Hret|]. split.
      * intros -> o0 o' Ho Hinst Hout. injection Ho as <-.
        unfold outcome in Hout. rewrite Hi, Eitem in Hout.
        destruct (cls o) eqn:Hc; try discriminate Hout; injection Hout as <-.
        -- rewrite (load_plain_eq _ _ _ _ _ He Hc) in El.
           injection El as <-. cbn. apply lookup_insert_eq.
        -- rewrite (load_system_eq _ _ _ _ _ He Hc) in El.
           injection El as <-. cbn. apply lookup_insert_eq.
      * intros es. rewrite (Hhead es (Some o) eq_refl), Hedge, Hi.
        rewrite andb_false_r. cbn [andb]. rewrite Ht.
        rewrite bool_decide_eq_true_2 by eauto.
        unfold mbind, M_bind, bind. rewrite El. destruct r1 as [ex|[]]; reflexivity.
    + exists (inr tt),
        {| graph := <[ref_id e := set_status Rejected o]> (graph w);
           trace := trace w ++ [Reject (ref_id e); Update (ref_id e) Rejected] |}.
      split; [intros j Hj; cbn; apply lookup_insert_ne; congruence|].
      split; [reflexivity|]. split.
      * intros _ o0 o' Ho Hinst Hout. injection Ho as <-.
        unfold outcome in Hout. rewrite Hi, Eitem in Hout. injection Hout as <-.
        cbn. apply lookup_insert_eq.
      * intros es. rewrite (Hhead es (Some o) eq_refl), Hedge, Hi.
        rewrite andb_false_r. cbn [andb].
        rewrite (bind_inr _ _ _ _ _ (reject_eq (ref_id e) w o He)).
        rewrite bool_decide_eq_false_2 by (intros [? ?]; discriminate).
        reflexivity.
  - destruct (decide (cls o = ChatResponseEdge)) as [Hc|Hncr].
    + exists (inr tt), w. split; [reflexivity|]. split; [reflexivity|]. split.
      * intros _ o0 o' Ho Hinst Hout. injection Ho as <-.
        unfold outcome in Hout. rewrite Hi in Hout.
        rewrite (bool_decide_eq_true_2 _ Hc) in Hout. injection Hout as <-.
        exact He.
      * intros es. rewrite (Hhead es (Some o) eq_refl), Hedge, Hi.
        rewrite instanceof_ChatResponseEdge, (bool_decide_eq_true_2 _ Hc).
        reflexivity.
    + destruct (load_touches_its_edge (ref_id e) (Some (CStr content)) request w o
                  He Hncr) as (r1 & w1 & El & Hfr & Hret).
      exists r1, w1. split; [exact Hfr|]. split; [exact Hret|]. split.
      * intros -> o0 o' Ho Hinst Hout. injection Ho as <-.
        unfold outcome in Hout. rewrite Hi in Hout.
        rewrite (bool_decide_eq_false_2 _ Hncr) in Hout.
        destruct (cls o) eqn:Hc; try discriminate Hout; injection Hout as <-.
        -- rewrite (load_plain_eq _ _ _ _ _ He Hc) in El.
           injection El as <-. cbn. apply lookup_insert_eq.
        -- rewrite (load_system_eq _ _ _ _ _ He Hc) in El.
           injection El as <-. cbn. apply lookup_insert_eq.
      * intros es. rewrite (Hhead es (Some o) eq_refl), Hedge, Hi.
        rewrite instanceof_ChatResponseEdge, (bool_decide_eq_false_2 _ Hncr).
        cbn [andb negb].
        unfold mbind, M_bind, bind. rewrite El. destruct r1 as [ex|[]]; reflexivity.
Qed.

Lemma item_rank_cons g e es k :
  item_rank g (e :: es) (S k)
  = ((if is_item_edge g e then 1 else 0) + item_rank g es k)%nat.
Proof.
  unfold item_rank. cbn [take List.filter].
  destruct (is_item_edge g e); reflexivity.
Qed.

Lemma item_rank_ext g g' es k :
  (forall e, e ∈ es -> g' !! ref_id e = g !! ref_id e) ->
  item_rank g' es k = item_rank g es k.
Proof.
  intros Hext. unfold item_rank. f_equal. apply List.filter_ext_in.
  intros e Hin. unfold is_item_edge. rewrite Hext; [reflexivity|].
  apply list_elem_of_In, elem_of_take in Hin. destruct Hin as (i & Hi & _).
  apply list_elem_of_lookup. eauto.
Qed.

Lemma forallb_agree {A} (f g : A -> bool) (l : list A) :
  (forall x, x ∈ l -> f x = g x) -> forallb f l = forallb g l.
Proof.
  induction l as [|x l IH]; intros Hfg; [reflexivity|]. cbn.
  rewrite (Hfg x) by left. rewrite IH; [reflexivity|].
  intros y Hy. apply Hfg. right. exact Hy.
Qed.

(** The loop of [loadOutgoingEdges] over distinct edges, on a node that
    is not an HTTP node: it touches nothing but these edges, it returns
    when every [load] it calls does, and when it returns it has left on
    each edge the [outcome] for its rank among the item-typed edges. *)
Lemma loadOutgoingEdges_loop_spec `{Host} t content request items :
  is_Http t = false ->
  Forall (fun s => Js.truthy s = true) items ->
  forall es w idx,
    NoDup (map ref_id es) ->
    forallb (chat_response_not_item (graph w)) es = true ->
    exists r w',
      loadOutgoingEdges_loop t content request items es idx w = (r, w')
      /\ (forall j, j ∉ map ref_id es -> graph w' !! j = graph w !! j)
      /\ (forallb (loads_return request (graph w)) es = true -> r = inr tt)
      /\ (r = inr tt ->
          forall k e o o',
            es !! k = Some e ->
            graph w !! ref_id e = Some o ->
            instanceof (cls o) CannoliEdge = true ->
            outcome content request items (idx + item_rank (graph w) es k) o
              = Some o' ->
            graph w' !! ref_id e = Some o').
Proof.
  intros Hh Hitems. induction es as [|e es IH]; intros w idx Hnd Hcr.
  { exists (inr tt), w. split; [reflexivity|]. split; [reflexivity|].
    split; [reflexivity|]. intros _ k e o o' Hk. destruct k; discriminate. }
  cbn [map] in Hnd. apply NoDup_cons in Hnd as [Hnotin Hnd].
  cbn [forallb] in Hcr. apply andb_true_iff in Hcr as [Hcr0 Hcr].
  destruct (loadOutgoingEdges_loop_round t content request items e idx w
              Hh Hitems Hcr0) as (r1 & w1 & Hfr1 & Hret1 & Hout1 & Estep).
  assert (Hsame : forall e', e' ∈ es -> graph w1 !! ref_id e' = graph w !! ref_id e').
  { intros e' Hin. apply Hfr1. intros Heq. apply Hnotin.
    rewrite <- Heq. apply list_elem_of_fmap_2. exact Hin. }
  destruct r1 as [ex|[]].
  - exists (inl ex), w1. rewrite Estep. split; [reflexivity|]. split.
    { intros j Hj. cbn [map] in Hj. apply not_elem_of_cons in Hj as [Hne _].
      apply Hfr1. exact Hne. }
    split.
    { intros Hall. cbn [forallb] in Hall. apply andb_true_iff in Hall as [H0 _].
      specialize (Hret1 H0). discriminate. }
    intros Hr. discriminate.
  - set (idx' := if is_item_edge (graph w) e && bool_decide (is_Some (items !! idx))
                 then S idx else idx) in *.
    assert (Hcr1 : forallb (chat_response_not_item (graph w1)) es = true).
    { rewrite (forallb_agree _ (chat_response_not_item (graph w))); [exact Hcr|].
      intros e' Hin. unfold chat_response_not_item.
      rewrite (Hsame e' Hin). reflexivity. }
    destruct (IH w1 idx' Hnd Hcr1) as (r & w' & Erun & Hframe & Hret & Hedges).
    exists r, w'. split; [rewrite Estep; exact Erun|]. split.
    { intros j Hj. cbn [map] in Hj. apply not_elem_of_cons in Hj as [Hne Hj].
      rewrite (Hframe j Hj). apply Hfr1. exact Hne. }
    split.
    { intros Hall. cbn [forallb] in Hall. apply andb_true_iff in Hall as [_ Hall].
      apply Hret.
      rewrite (forallb_agree _ (loads_return request (graph w))); [exact Hall|].
      intros e' Hin. unfold loads_return. rewrite (Hsame e' Hin). reflexivity. }
    intros Hr k e' o o' Hk Ho Hinst Hout. destruct k as [|k].
    + cbn in Hk. injection Hk as <-. rewrite (Hframe (ref_id e) Hnotin).
      apply (Hout1 eq_refl o o' Ho Hinst).
      unfold item_rank in Hout. cbn in Hout. rewrite Nat.add_0_r in Hout.
      exact Hout.
    + cbn in Hk.
      assert (Hin : e' ∈ es) by (apply list_elem_of_lookup; eauto).
      apply (Hedges Hr k e' o o' Hk); [rewrite (Hsame e' Hin); exact Ho|exact Hinst|].
      rewrite (item_rank_ext (graph w) (graph w1) es k Hsame).
      rewrite item_rank_cons in Hout. rewrite <- Hout.
      apply outcome_lookup. subst idx'.
      destruct (is_item_edge (graph w) e); cbn [andb].
      * destruct (items !! idx) as [item|] eqn:Eitem.
        -- rewrite bool_decide_eq_true_2 by eauto. f_equal. lia.
        -- rewrite bool_decide_eq_false_2 by (intros [? ?]; discriminate).
           apply lookup_ge_None in Eitem.
           rewrite !(proj2 (lookup_ge_None _ _)) by lia. reflexivity.
      * f_equal.
Qed.

(** C6, as the code has it: the counterexample, on nodes that are
    given the JSON array of "a", "b", "c" and have item-typed outgoing
    edges.  On the node with four item edges, a plain edge and a
    chat-response edge, [loadOutgoingEdges] returns and the
    chat-response edge, which is not item-typed, has received nothing:
    it holds no content.  On an HTTP node the plain edge receives the
    content printed anew, not verbatim.  A system-message edge is left
    without content, a chat-converter edge holds the empty string, and
    a logging edge that comes before the item edge throws, so that the
    item edge is never loaded.  An item edge that the node lists twice
    ends with the second item, and an item-typed edge that is not a
    plain edge holds no item. *)
Lemma C6_counterexample :
  JSON_parse (Host := example_host None) abc_json
    = Some (JArr [JStr "a"; JStr "b"; JStr "c"])
  /\ (is_item_edge (graph node_with_items) (ref "i1") = true
      /\ result (load_abc node_with_items) = inr tt
      /\ (content <$> graph node_with_items !! "r") = Some None
      /\ (content <$> graph (world (load_abc node_with_items)) !! "r")
         = Some None)
  /\ (is_item_edge (graph http_node_with_items) (ref "i1") = true
      /\ result (load_abc http_node_with_items) = inr tt
      /\ (content <$> graph (world (load_abc http_node_with_items)) !! "x")
         = Some (Some (CStr abc_json_pretty))
      /\ abc_json_pretty <> abc_json)
  /\ (is_item_edge (graph node_with_message_edges) (ref "i1") = true
      /\ result (load_abc node_with_message_edges) = inr tt
      /\ (content <$> graph (world (load_abc node_with_message_edges)) !! "s")
         = Some None
      /\ (content <$> graph (world (load_abc node_with_message_edges)) !! "v")
         = Some (Some (CStr EmptyString)))
  /\ (is_item_edge (graph node_with_logging_edge) (ref "i1") = true
      /\ result (load_abc node_with_logging_edge)
         = inl (Error no_request_message)
      /\ (content <$> graph (world (load_abc node_with_logging_edge)) !! "i1")
         = Some None)
  /\ (result (load_abc node_with_repeated_edge) = inr tt
      /\ (content <$> graph (world (load_abc node_with_repeated_edge)) !! "i1")
         = Some (Some (CStr "b")))
  /\ (is_item_edge (graph node_with_item_message_edge) (ref "s") = true
      /\ result (load_abc node_with_item_message_edge) = inr tt
      /\ (content
            <$> graph (world (load_abc node_with_item_message_edge)) !! "s")
         = Some None).
Proof.
  repeat split; try reflexivity. discriminate.
Qed.

(** C6, amended: a node that is not an HTTP node is given the JSON
    array of "a", "b", "c"; its outgoing edges are distinct, and none
    of them is an item-typed chat-response edge.  [loadOutgoingEdges]
    returns when no outgoing edge is a logging edge loaded without a
    request or a chat-converter edge loaded without request messages.
    When it returns: the first, second and third item-typed edges in
    encounter order have been loaded with "a", "b" and "c", and such
    an edge, where it is a plain edge, holds its item as content and
    keeps its status; every later item-typed edge is Rejected and
    keeps its content; a plain edge that is not item-typed holds the
    whole content verbatim and keeps its status; a chat-response edge
    is left as it is; a system-message edge that is not item-typed
    keeps its content and holds the whole content as its one system
    message. *)
Theorem C6_items_are_distributed_positionally `{Host}
    (this : string) (t : CannoliObject) (request : option Request) (w : World) :
  graph w !! this = Some t ->
  is_Http t = false ->
  JSON_parse abc_json = Some (JArr [JStr "a"; JStr "b"; JStr "c"]) ->
  NoDup (map ref_id (outgoingEdges t)) ->
  forallb (chat_response_not_item (graph w)) (outgoingEdges t) = true ->
  exists r w',
    CannoliNode_loadOutgoingEdges this abc_json request w = (r, w')
    /\ (forallb (loads_return request (graph w)) (outgoingEdges t) = true ->
        r = inr tt)
    /\ (r = inr tt ->
        forall k e o,
          outgoingEdges t !! k = Some e ->
          graph w !! ref_id e = Some o ->
          instanceof (cls o) CannoliEdge = true ->
          (is_Item o = true -> cls o = CannoliEdge ->
             (item_rank (graph w) (outgoingEdges t) k = 0%nat ->
                (content <$> graph w' !! ref_id e) = Some (Some (CStr "a"))
                /\ (status <$> graph w' !! ref_id e) = Some (status o))
             /\ (item_rank (graph w) (outgoingEdges t) k = 1%nat ->
                (content <$> graph w' !! ref_id e) = Some (Some (CStr "b"))
                /\ (status <$> graph w' !! ref_id e) = Some (status o))
             /\ (item_rank (graph w) (outgoingEdges t) k = 2%nat ->
                (content <$> graph w' !! ref_id e) = Some (Some (CStr "c"))
                /\ (status <$> graph w' !! ref_id e) = Some (status o)))
          /\ (is_Item o = true ->
              (3 <= item_rank (graph w) (outgoingEdges t) k)%nat ->
                (status <$> graph w' !! ref_id e) = Some Rejected
                /\ (content <$> graph w' !! ref_id e) = Some (content o))
          /\ (is_Item o = false -> cls o = CannoliEdge ->
                (content <$> graph w' !! ref_id e) = Some (Some (CStr abc_json))
                /\ (status <$> graph w' !! ref_id e) = Some (status o))
          /\ (is_Item o = false -> cls o = ChatResponseEdge ->
                graph w' !! ref_id e = Some o)
          /\ (is_Item o = false -> cls o = SystemMessageEdge ->
                (content <$> graph w' !! ref_id e) = Some (content o)
                /\ (messages <$> graph w' !! ref_id e)
                   = Some (Some [{| Msg.role := "system";
                                    Msg.content := Some abc_json;
                                    Msg.function_call := None |}]))).
Proof.
  intros Ht Hh Hparse Hnd Hcr.
  assert (Hitems : getListArrayFromContent abc_json = ["a"; "b"; "c"]).
  { unfold getListArrayFromContent. rewrite Hparse. reflexivity. }
  assert (Htruthy : Forall (fun s => Js.truthy s = true) ["a"; "b"; "c"]).
  { repeat constructor. }
  destruct (loadOutgoingEdges_loop_spec t abc_json request ["a"; "b"; "c"]
              Hh Htruthy (outgoingEdges t) w 0%nat Hnd Hcr)
    as (r & w' & Erun & _ & Hret & Hedges).
  exists r, w'. split.
  { unfold CannoliNode_loadOutgoingEdges.
    rewrite (bind_inr _ _ _ _ _ (get_obj_Some this w t Ht)).
    rewrite (bind_inr (lift (fun g => listItems_of g t abc_json)) _ w
               ["a"; "b"; "c"] w)
      by (unfold lift, listItems_of; rewrite Hh, Hitems; reflexivity).
    exact Erun. }
  split; [exact Hret|].
  intros Hr k e o Hk Ho Hinst.
  set (rank := item_rank (graph w) (outgoingEdges t) k).
  set (o' := graph w' !! ref_id e).
  assert (Hout : forall o1,
             outcome abc_json request ["a"; "b"; "c"] rank o = Some o1 ->
             o' = Some o1).
  { intros o1 Ho1. exact (Hedges Hr k e o o1 Hk Ho Hinst Ho1). }
  clear Hedges. unfold outcome in Hout.
  split; [|split; [|split; [|split]]].
  - intros Hi Hc. rewrite Hi, Hc in Hout.
    split; [|split]; intros Hrank; rewrite Hrank in Hout;
      rewrite (Hout _ eq_refl); cbn;
      (split; [rewrite loaded_content by reflexivity; reflexivity
              |rewrite loaded_status; reflexivity]).
  - intros Hi Hrank. rewrite Hi in Hout.
    rewrite (proj2 (lookup_ge_None _ _)) in Hout by (cbn; lia).
    rewrite (Hout _ eq_refl). split; reflexivity.
  - intros Hi Hc. rewrite Hi, Hc in Hout.
    rewrite (bool_decide_eq_false_2 (CannoliEdge = ChatResponseEdge)) in Hout
      by discriminate.
    rewrite (Hout _ eq_refl). cbn.
    split; [rewrite loaded_content by reflexivity; reflexivity
           |rewrite loaded_status; reflexivity].
  - intros Hi Hc. rewrite Hi, Hc in Hout.
    rewrite (bool_decide_eq_true_2 (ChatResponseEdge = ChatResponseEdge)) in Hout
      by reflexivity.
    exact (Hout _ eq_refl).
  - intros Hi Hc. rewrite Hi, Hc in Hout.
    rewrite (bool_decide_eq_false_2 (SystemMessageEdge = ChatResponseEdge)) in Hout
      by discriminate.
    rewrite (Hout _ eq_refl). split; reflexivity.
Qed.

Lemma C6_items_witness :
  exists w',
    CannoliNode_loadOutgoingEdges (H := example_host None) "n" abc_json None
      node_with_items = (inr tt, w')
    /\ (content <$> graph w' !! "i1") = Some (Some (CStr "a"))
    /\ (content <$> graph w' !! "i3") = Some (Some (CStr "c"))
    /\ (status <$> graph w' !! "i4") = Some Rejected
    /\ (content <$> graph w' !! "x") = Some (Some (CStr abc_json))
    /\ graph w' !! "r" = graph node_with_items !! "r".
Proof.
  destruct (C6_items_are_distributed_positionally (H := example_host None)
              "n" _ None node_with_items eq_refl eq_refl eq_refl
              ltac:(apply (bool_decide_unpack _); vm_compute; exact I)
              eq_refl)
    as (r & w' & Erun & Hret & Hedges).
  specialize (Hret eq_refl). subst r.
  exists w'. split; [exact Erun|].
  destruct (Hedges eq_refl 0%nat (ref "i1") _ eq_refl eq_refl eq_refl)
    as (H1 & _).
  destruct (Hedges eq_refl 3%nat (ref "i3") _ eq_refl eq_refl eq_refl)
    as (H3 & _).
  destruct (Hedges eq_refl 4%nat (ref "i4") _ eq_refl eq_refl eq_refl)
    as (_ & H4 & _).
  destruct (Hedges eq_refl 1%nat (ref "x") _ eq_refl eq_refl eq_refl)
    as (_ & _ & Hx & _).
  destruct (Hedges eq_refl 5%nat (ref "r") _ eq_refl eq_refl eq_refl)
    as (_ & _ & _ & Hr & _).
  cbn [ref ref_id] in *.
  destruct (H1 eq_refl eq_refl) as ((E1 & _) & _); [reflexivity|].
  destruct (H3 eq_refl eq_refl) as (_ & _ & (E3 & _)); [reflexivity|].
  destruct (H4 eq_refl) as (E4 & _); [vm_compute; lia|].
  destruct (Hx eq_refl eq_refl) as (Ex & _).
  specialize (Hr eq_refl eq_refl).
  split; [exact E1|]. split; [exact E3|]. split; [exact E4|].
  split; [exact Ex|]. exact Hr.
Defined.

(** ** A choice node *)

(** One round of the loop of [loadOutgoingEdges] on a plain edge that
    is not item-typed. *)
Lemma loadOutgoingEdges_loop_plain `{Host} t content request items e es idx w o :
  is_Http t = false ->
  graph w !! ref_id e = Some o ->
  cls o = CannoliEdge ->
  is_Item o = false ->
  loadOutgoingEdges_loop t content request items (e :: es) idx w
  = loadOutgoingEdges_loop t content request items es idx
      {| graph := <[ref_id e := loaded (Some (CStr content)) request o]> (graph w);
         trace := trace w ++ [Load (ref_id e) (Some (CStr content)) request] |}.
Proof.
  intros Hh He Hc Hi. cbn [loadOutgoingEdges_loop].
  rewrite (bind_inr (lookup_obj (ref_id e)) _ w (Some o) w)
    by (unfold lookup_obj; rewrite He; reflexivity).
  rewrite Hh. rewrite (bind_inr (ret content) _ w content w eq_refl).
  rewrite Hc, Hi. eval_instanceof. cbn [andb negb].
  rewrite (bind_inr _ _ _ _ _ (load_plain_eq (ref_id e) (Some (CStr content)) request w o He Hc)).
  reflexivity.
Qed.

(** [rejectUnselectedOptions] with the choice "B" on the three choice
    edges "A", "B", "C": the first and the third are rejected. *)
Lemma rejectUnselectedOptions_B `{Host} this t eA eB eC oA oB oC w :
  graph w !! this = Some t ->
  outgoingEdges t = [eA; eB; eC] ->
  NoDup [ref_id eA; ref_id eB; ref_id eC] ->
  graph w !! ref_id eA = Some oA ->
  graph w !! ref_id eB = Some oB ->
  graph w !! ref_id eC = Some oC ->
  type oA = Some (TEdge EdgeType.Choice) ->
  type oB = Some (TEdge EdgeType.Choice) ->
  type oC = Some (TEdge EdgeType.Choice) ->
  text oA = "A" -> text oB = "B" -> text oC = "C" ->
  rejectUnselectedOptions this (Some (JStr "B")) w
  = (inr tt,
     {| graph := <[ref_id eC := set_status Rejected oC]>
                   (<[ref_id eA := set_status Rejected oA]> (graph w));
        trace := trace w ++ [Reject (ref_id eA); Update (ref_id eA) Rejected;
                             Reject (ref_id eC); Update (ref_id eC) Rejected] |}).
Proof.
  intros Ht Hout Hnd HA HB HC TA TB TC XA XB XC.
  apply NoDup_cons in Hnd as [HnA Hnd]. apply NoDup_cons in Hnd as [HnB _].
  assert (Hab : ref_id eA <> ref_id eB) by (intros E; apply HnA; rewrite E; left).
  assert (Hac : ref_id eA <> ref_id eC)
    by (intros E; apply HnA; rewrite E; right; left).
  unfold rejectUnselectedOptions.
  rewrite (bind_inr _ _ _ _ _ (get_obj_Some this w t Ht)), Hout.
  cbn [for_of].
  set (w1 := {| graph := <[ref_id eA := set_status Rejected oA]> (graph w);
                trace := trace w ++ [Reject (ref_id eA); Update (ref_id eA) Rejected] |}).
  assert (E1 : (edgeObject ← get_obj (ref_id eA);
                if bool_decide (type edgeObject = Some (TEdge EdgeType.Choice))
                then if negb (strict_eq_string (text edgeObject) (Some (JStr "B")))
                     then reject (ref_id eA) else ret tt
                else ret tt) w = (inr tt, w1)).
  { rewrite (bind_inr _ _ _ _ _ (get_obj_Some _ w oA HA)).
    rewrite (bool_decide_eq_true_2 _ TA), XA. cbn [strict_eq_string String.eqb negb].
    exact (reject_eq (ref_id eA) w oA HA). }
  unfold bind at 1. rewrite E1.
  assert (HB1 : graph w1 !! ref_id eB = Some oB)
    by (cbn; rewrite lookup_insert_ne by exact Hab; exact HB).
  assert (E2 : (edgeObject ← get_obj (ref_id eB);
                if bool_decide (type edgeObject = Some (TEdge EdgeType.Choice))
                then if negb (strict_eq_string (text edgeObject) (Some (JStr "B")))
                     then reject (ref_id eB) else ret tt
                else ret tt) w1 = (inr tt, w1)).
  { rewrite (bind_inr _ _ _ _ _ (get_obj_Some _ w1 oB HB1)).
    rewrite (bool_decide_eq_true_2 _ TB), XB. reflexivity. }
  unfold bind at 1. rewrite E2.
  assert (HC1 : graph w1 !! ref_id eC = Some oC)
    by (cbn; rewrite lookup_insert_ne by exact Hac; exact HC).
  unfold bind at 1.
  rewrite (bind_inr _ _ _ _ _ (get_obj_Some _ w1 oC HC1)).
  rewrite (bool_decide_eq_true_2 _ TC), XC.
  change (strict_eq_string "C" (Some (JStr "B"))) with false. cbn [negb].
  rewrite (reject_eq (ref_id eC) w1 oC HC1). unfold ret, w1. cbn [graph trace].
  rewrite <- app_assoc. reflexivity.
Qed.

Lemma is_Item_Choice o :
  type o = Some (TEdge EdgeType.Choice) -> is_Item o = false.
Proof.
  intros Ht. unfold is_Item. rewrite Ht. apply bool_decide_eq_false_2.
  discriminate.
Qed.

(** C7: a choice node with the three plain choice edges "A", "B", "C",
    in this order, and a response whose last message carries the
    function-call arguments that parse to the choice "B".
    [loadOutgoingEdges] returns; it calls [reject] on "A" and on "C"
    and not on "B"; afterwards "A" and "C" are Rejected, and "B" has
    the status it had and is loaded with the arguments. *)
Theorem C7_choice_B_rejects_A_and_C `{Host}
    (this : string) (t oA oB oC : CannoliObject) (eA eB eC : EdgeRef)
    (request : Request) (messages : list Msg.t) (lastMessage : Msg.t)
    (fc : Msg.FunctionCall) (response : string) (parsed : Json) (w : World) :
  graph w !! this = Some t ->
  cls t = ChooseNode ->
  is_Http t = false ->
  outgoingEdges t = [eA; eB; eC] ->
  NoDup [ref_id eA; ref_id eB; ref_id eC] ->
  graph w !! ref_id eA = Some oA ->
  graph w !! ref_id eB = Some oB ->
  graph w !! ref_id eC = Some oC ->
  cls oA = CannoliEdge -> cls oB = CannoliEdge -> cls oC = CannoliEdge ->
  type oA = Some (TEdge EdgeType.Choice) ->
  type oB = Some (TEdge EdgeType.Choice) ->
  type oC = Some (TEdge EdgeType.Choice) ->
  text oA = "A" -> text oB = "B" -> text oC = "C" ->
  req_messages request = Some messages ->
  last messages = Some lastMessage ->
  Msg.function_call lastMessage = Some fc ->
  Js.truthy (Msg.arguments fc) = true ->
  JSON_parse (Msg.arguments fc) = Some parsed ->
  Json_choice parsed = inr (Some (JStr "B")) ->
  exists w' evs,
    ChooseNode_loadOutgoingEdges this response request w = (inr tt, w')
    /\ trace w' = trace w ++ evs
    /\ Reject (ref_id eA) ∈ evs
    /\ Reject (ref_id eC) ∈ evs
    /\ (Reject (ref_id eB) ∉ evs)
    /\ Load (ref_id eB) (Some (CStr (Msg.arguments fc))) (Some request) ∈ evs
    /\ (status <$> graph w' !! ref_id eA) = Some Rejected
    /\ (status <$> graph w' !! ref_id eC) = Some Rejected
    /\ exists oB',
         graph w' !! ref_id eB = Some oB'
         /\ status oB' = status oB
         /\ content oB' = Some (CStr (Msg.arguments fc)).
Proof.
  intros Ht Hcls Hh Hout Hnd HA HB HC CA CB CC TA TB TC XA XB XC
         Hmsgs Hlast Hfc Htruthy Hparse Hchoice.
  pose proof Hnd as Hnd'.
  apply NoDup_cons in Hnd' as [HnA Hnd']. apply NoDup_cons in Hnd' as [HnB _].
  assert (Hab : ref_id eA <> ref_id eB) by (intros E; apply HnA; rewrite E; left).
  assert (Hac : ref_id eA <> ref_id eC)
    by (intros E; apply HnA; rewrite E; right; left).
  assert (Hbc : ref_id eB <> ref_id eC) by (intros E; apply HnB; rewrite E; left).
  assert (HtA : ref_id eA <> this) by (intros E; rewrite E in HA; congruence).
  assert (HtC : ref_id eC <> this) by (intros E; rewrite E in HC; congruence).
  set (args := Msg.arguments fc) in *.
  set (rA := set_status Rejected oA). set (rC := set_status Rejected oC).
  set (w1 := {| graph := <[ref_id eC := rC]> (<[ref_id eA := rA]> (graph w));
                trace := trace w ++ [Reject (ref_id eA); Update (ref_id eA) Rejected;
                                     Reject (ref_id eC); Update (ref_id eC) Rejected] |}).
  set (c := Some (CStr args)). set (r := Some request).
  set (w2 := {| graph := <[ref_id eA := loaded c r rA]> (graph w1);
                trace := trace w1 ++ [Load (ref_id eA) c r] |}).
  set (w3 := {| graph := <[ref_id eB := loaded c r oB]> (graph w2);
                trace := trace w2 ++ [Load (ref_id eB) c r] |}).
  set (w4 := {| graph := <[ref_id eC := loaded c r rC]> (graph w3);
                trace := trace w3 ++ [Load (ref_id eC) c r] |}).
  assert (Ht1 : graph w1 !! this = Some t).
  { cbn. rewrite !lookup_insert_ne by assumption. exact Ht. }
  assert (HA1 : graph w1 !! ref_id eA = Some rA).
  { cbn. rewrite lookup_insert_ne by congruence. apply lookup_insert_eq. }
  assert (HB2 : graph w2 !! ref_id eB = Some oB).
  { cbn. rewrite !lookup_insert_ne by congruence. exact HB. }
  assert (HC3 : graph w3 !! ref_id eC = Some rC).
  { cbn. rewrite !lookup_insert_ne by congruence. apply lookup_insert_eq. }
  exists w4, [Reject (ref_id eA); Update (ref_id eA) Rejected;
              Reject (ref_id eC); Update (ref_id eC) Rejected;
              Load (ref_id eA) c r; Load (ref_id eB) c r; Load (ref_id eC) c r].
  split.
  { unfold ChooseNode_loadOutgoingEdges. rewrite Hmsgs, Hlast, Hfc.
    fold args. rewrite Htruthy. cbn [negb]. rewrite Hparse, Hchoice.
    rewrite (bind_inr _ _ _ _ _
               (rejectUnselectedOptions_B this t eA eB eC oA oB oC w
                  Ht Hout Hnd HA HB HC TA TB TC XA XB XC)).
    fold rA rC w1. unfold CannoliNode_loadOutgoingEdges.
    rewrite (bind_inr _ _ _ _ _ (get_obj_Some this w1 t Ht1)).
    rewrite (bind_inr (lift (fun g => listItems_of g t args)) _ w1
               (getListArrayFromContent args) w1)
      by (unfold lift, listItems_of; rewrite Hh; reflexivity).
    rewrite Hout.
    rewrite (loadOutgoingEdges_loop_plain t args r _ eA _ _ w1 rA Hh HA1 CA
               (is_Item_Choice rA TA)).
    fold c w2.
    rewrite (loadOutgoingEdges_loop_plain t args r _ eB _ _ w2 oB Hh HB2 CB
               (is_Item_Choice oB TB)).
    fold c w3.
    rewrite (loadOutgoingEdges_loop_plain t args r _ eC _ _ w3 rC Hh HC3 CC
               (is_Item_Choice rC TC)).
    reflexivity. }
  split.
  { cbn. rewrite <- !app_assoc. reflexivity. }
  split; [left|].
  split; [right; right; left|].
  split.
  { intros Hin. repeat (apply elem_of_cons in Hin as [Hin|Hin]; [congruence|]).
    inversion Hin. }
  split; [do 5 right; left|].
  split.
  { cbn. rewrite !lookup_insert_ne by congruence. rewrite lookup_insert_eq.
    cbn. rewrite loaded_status. reflexivity. }
  split.
  { cbn. rewrite lookup_insert_eq. cbn. rewrite loaded_status. reflexivity. }
  exists (loaded c r oB). split.
  { cbn. rewrite lookup_insert_ne by congruence. apply lookup_insert_eq. }
  split; [apply loaded_status|apply loaded_content; exact Htruthy].
Qed.

Lemma C7_choice_witness :
  exists w',
    ChooseNode_loadOutgoingEdges (H := example_host None) "q" "ignored"
      choice_request choice_node = (inr tt, w')
    /\ (status <$> graph w' !! "a") = Some Rejected
    /\ (status <$> graph w' !! "c") = Some Rejected
    /\ (status <$> graph w' !! "b") = Some Pending
    /\ (content <$> graph w' !! "b") = Some (Some (CStr choice_args)).
Proof.
  destruct (C7_choice_B_rejects_A_and_C (H := example_host None)
              "q" _ _ _ _ (ref "a") (ref "b") (ref "c") choice_request
              _ _ _ "ignored" _ choice_node
              eq_refl eq_refl eq_refl eq_refl
              ltac:(apply (bool_decide_unpack _); vm_compute; exact I)
              eq_refl eq_refl eq_refl eq_refl eq_refl eq_refl
              eq_refl eq_refl eq_refl eq_refl eq_refl eq_refl
              eq_refl eq_refl eq_refl eq_refl eq_refl eq_refl)
    as (w' & evs & Erun & _ & _ & _ & _ & _ & HA & HC & oB' & HB & Hst & Hct).
  exists w'. split; [exact Erun|].
  cbn [ref ref_id] in *. rewrite HA, HC, HB. cbn. rewrite Hst, Hct.
  repeat split.
Defined.

(** ** The message-format converter: from a string to messages *)

(** The loop of [stringToArray]: with enough fuel it ends; it adds one
    message per marker found from [regexLastIndex] on, and nothing
    else; once it has added a message, [lastIndex] is the length of the
    string. *)
Lemma role_markers_unique exec str i ms1 ms2 :
  role_markers exec str i ms1 -> role_markers exec str i ms2 -> ms1 = ms2.
Proof.
  intros H1. revert ms2. induction H1 as [i E|i m ms E Hms IH]; intros ms2 H2.
  - destruct H2 as [j E2|j m2 ms2 E2 _]; [reflexivity|congruence].
  - destruct H2 as [j E2|j m2 ms2 E2 Hms2]; [congruence|].
    rewrite E in E2. injection E2 as <-. f_equal. exact (IH _ Hms2).
Qed.

(** The loop of [stringToArray] makes one message of every role marker,
    in order, and leaves [lastIndex] at the end of the string once it
    has found a marker. *)
Lemma stringToArray_loop_markers exec str :
  progresses exec str ->
  forall fuel i acc last,
    (String.length str - i < fuel)%nat ->
    exists markers last',
      role_markers exec str i markers
      /\ stringToArray_loop exec fuel str i acc last
         = Some (acc ++ map (marker_message exec str) markers, last')
      /\ (markers = [] -> last' = last)
      /\ (markers <> [] -> last' = String.length str).
Proof.
  intros Hp. induction fuel as [|fuel IH]; intros i acc last Hfuel; [lia|].
  cbn [stringToArray_loop]. destruct (exec str i) as [m|] eqn:Em.
  - destruct (Hp i m Em) as (Hi & Hlen & Hend).
    fold (next_index exec str (m_end m)). fold (marker_message exec str m).
    destruct (IH (m_end m) (acc ++ [marker_message exec str m])
                (next_index exec str (m_end m)) ltac:(lia))
      as (ms & last' & Hms & Erun & Hnone & Hsome).
    exists (m :: ms), last'. split; [constructor; assumption|]. split.
    { rewrite Erun, <- app_assoc. reflexivity. }
    split; [discriminate|]. intros _.
    destruct ms as [|m2 ms].
    + rewrite (Hnone eq_refl). unfold next_index.
      inversion Hms as [j E2|]; subst. rewrite E2. reflexivity.
    + apply Hsome. discriminate.
  - exists [], last. split; [constructor; exact Em|].
    split; [rewrite app_nil_r; reflexivity|]. split; [reflexivity|].
    intros Hne. contradiction.
Qed.

(** C9, as the code has it: the counterexample.  With the template
    [{{role}}: {{content}}], the text before the first marker makes no
    message: the result is the one message of the marker. *)
Lemma C9_counterexample :
  stringToArray (H := example_host None)
    "intro assistant: hi" "{{role}}: {{content}}"
  = Some (inr [{| Msg.role := "assistant"; Msg.content := Some "hi";
                  Msg.function_call := None |}]).
Proof. reflexivity. Qed.

(** C9, amended: for a template whose expression compiles and whose
    matches are not empty, [stringToArray] returns.  With no role
    marker in the string the result is one user message, the trimmed
    string.  Otherwise the result holds exactly one message for every
    role marker, in the order of the markers and nothing else: the
    message of a marker has the marker's role, and its content is the
    trimmed text from the end of the marker to the next marker or to
    the end of the string.  So the text before the first marker makes
    no message, and no user message is added at the end.  The role
    markers of a string are determined by the expression. *)
Theorem C9_messages_are_those_of_the_markers `{Host}
    (str format : string) (exec : string -> nat -> option Match) :
  RegExp (rolePattern format) = Some exec ->
  progresses exec str ->
  exists markers,
    role_markers exec str 0 markers
    /\ (forall markers', role_markers exec str 0 markers' -> markers' = markers)
    /\ stringToArray str format
       = Some (inr match markers with
                   | [] => [user_message (Js.trim str)]
                   | _ :: _ => map (marker_message exec str) markers
                   end).
Proof.
  intros Hre Hp. unfold stringToArray, stringToArray_with. rewrite Hre.
  destruct (stringToArray_loop_markers exec str Hp (S (String.length str))
              0%nat [] 0%nat ltac:(lia))
    as (markers & last' & Hms & Erun & Hnone & Hsome).
  exists markers. split; [exact Hms|]. split.
  { intros markers' Hms'. exact (role_markers_unique _ _ _ _ _ Hms' Hms). }
  rewrite Erun. cbn [app]. destruct markers as [|m ms].
  - reflexivity.
  - rewrite (Hsome ltac:(discriminate)). cbn [map Datatypes.length Nat.eqb].
    replace (Z.of_nat (String.length str) <? Z.of_nat (String.length str) - 1)
      with false by (symmetry; apply Z.ltb_ge; lia).
    reflexivity.
Qed.

(** *** The expression of the examples progresses *)

Lemma prefix_length p s :
  String.prefix p s = true -> (String.length p <= String.length s)%nat.
Proof.
  revert s. induction p as [|c p IH]; intros s Hp; cbn; [lia|].
  destruct s as [|d s]; cbn in Hp; [discriminate|].
  destruct (ascii_dec c d); [|discriminate]. cbn. specialize (IH s Hp). lia.
Qed.

Lemma length_substring_tail n s :
  (n <= String.length s)%nat ->
  String.length (String.substring n (String.length s - n) s)
    = (String.length s - n)%nat.
Proof.
  revert n. induction s as [|c s IH]; intros n Hn.
  - destruct n; reflexivity.
  - destruct n as [|n].
    + cbn. f_equal. specialize (IH 0%nat ltac:(lia)).
      rewrite Nat.sub_0_r in IH. exact IH.
    + cbn in Hn |- *. apply IH. lia.
Qed.

Lemma length_append a b :
  String.length (a +:+ b) = (String.length a + String.length b)%nat.
Proof.
  induction a as [|c a IH]; [reflexivity|].
  change (String.length (String c (a +:+ b))
          = S (String.length a + String.length b)).
  cbn [String.length]. rewrite IH. reflexivity.
Qed.

Lemma match_here_length pre post s len role :
  ExampleHost.match_here pre post s = Some (len, role) ->
  (0 < len <= String.length s)%nat.
Proof.
  unfold ExampleHost.match_here. destruct (String.prefix pre s) eqn:Epre;
    [|discriminate].
  pose proof (prefix_length pre s Epre) as Hpre.
  pose proof (length_substring_tail (String.length pre) s Hpre) as Htail.
  fold (Js.substringFrom s (String.length pre)) in Htail.
  cbn [fold_right].
  repeat match goal with
         | |- context [String.prefix ?p ?x] =>
             let E := fresh "E" in
             destruct (String.prefix p x) eqn:E;
             [apply prefix_length in E; rewrite length_append, Htail in E;
              cbn [String.length] in E; intros [= <- <-];
              cbn [String.length]; lia|]
         end.
  discriminate.
Qed.

Lemma search_progresses pre post s pos m :
  ExampleHost.search pre post s pos = Some m ->
  (pos <= m_index m)%nat /\ (m_index m < m_end m)%nat
  /\ (m_end m <= pos + String.length s)%nat.
Proof.
  revert pos. induction s as [|c s IH]; intros pos; cbn [ExampleHost.search].
  - destruct (ExampleHost.match_here pre post "") as [[len role]|] eqn:Eh;
      [|discriminate].
    apply match_here_length in Eh. cbn in Eh. lia.
  - destruct (ExampleHost.match_here pre post (String c s)) as [[len role]|] eqn:Eh.
    + apply match_here_length in Eh. cbn [String.length] in Eh.
      intros [= <-]. cbn. lia.
    + intros Hs. specialize (IH (S pos) Hs). cbn [String.length]. lia.
Qed.

Lemma ExampleHost_exec_progresses pre post str :
  progresses (ExampleHost.exec pre post) str.
Proof.
  intros i m. unfold ExampleHost.exec.
  destruct (Nat.ltb_spec (String.length str) i) as [Hlt|Hle]; [discriminate|].
  intros Hs. apply search_progresses in Hs.
  unfold Js.substringFrom in Hs. rewrite (length_substring_tail i str Hle) in Hs.
  lia.
Qed.

Lemma C9_messages_witness :
  exists markers,
    role_markers (ExampleHost.exec "" ":")
      "intro assistant: hi there user: bye" 0 markers
    /\ stringToArray (H := example_host None)
         "intro assistant: hi there user: bye" "{{role}}: {{content}}"
       = Some (inr match markers with
                   | [] => [user_message "intro assistant: hi there user: bye"]
                   | _ :: _ =>
                       map (marker_message (ExampleHost.exec "" ":")
                              "intro assistant: hi there user: bye") markers
                   end)
    /\ stringToArray (H := example_host None)
         "intro assistant: hi there user: bye" "{{role}}: {{content}}"
       = Some (inr [{| Msg.role := "assistant"; Msg.content := Some "hi there";
                       Msg.function_call := None |};
                    {| Msg.role := "user"; Msg.content := Some "bye";
                       Msg.function_call := None |}]).
Proof.
  destruct (C9_messages_are_those_of_the_markers (H := example_host None)
              "intro assistant: hi there user: bye" "{{role}}: {{content}}"
              (ExampleHost.exec "" ":") eq_refl
              (ExampleHost_exec_progresses "" ":" _))
    as (markers & Hms & _ & Erun).
  exists markers. split; [exact Hms|]. split; [exact Erun|reflexivity].
Defined.

(** * Further properties of the code *)

(** ** Groups *)

(** X1: [allMembersCompleteOrRejected] returns [true] exactly when
    every member is an object of the graph that is Complete or
    Rejected, so at once for a group with no member; it throws only
    when a member is missing from the graph. *)
Theorem X1_allMembersCompleteOrRejected_iff
    (g : gmap string CannoliObject) (ms : list string) :
  (allMembersCompleteOrRejected g ms = inr true
   <-> Forall (fun m => exists o, g !! m = Some o
                          /\ (status o = Complete \/ status o = Rejected)) ms)
  /\ (forall e, allMembersCompleteOrRejected g ms = inl e ->
        e = TypeError /\ exists m, m ∈ ms /\ g !! m = None).
Proof.
  induction ms as [|m ms [IHt IHe]]; cbn [allMembersCompleteOrRejected].
  { split; [split; [constructor|reflexivity]|discriminate]. }
  destruct (g !! m) as [o|] eqn:Em.
  - destruct (decide (status o = Complete)) as [Hc|Hc];
      [rewrite (bool_decide_eq_true_2 _ Hc)
      |rewrite (bool_decide_eq_false_2 _ Hc)]; cbn [negb andb].
    + split.
      * rewrite IHt. split.
        -- intros Hall. constructor; [eauto|exact Hall].
        -- intros Hall. apply Forall_cons in Hall as [_ Hall]. exact Hall.
      * intros e He. destruct (IHe e He) as (-> & m' & Hin & Hm').
        split; [reflexivity|]. exists m'. split; [right; exact Hin|exact Hm'].
    + destruct (decide (status o = Rejected)) as [Hr|Hr];
        [rewrite (bool_decide_eq_true_2 _ Hr)
        |rewrite (bool_decide_eq_false_2 _ Hr)]; cbn [negb].
      * split.
        -- rewrite IHt. split.
           ++ intros Hall. constructor; [eauto|exact Hall].
           ++ intros Hall. apply Forall_cons in Hall as [_ Hall]. exact Hall.
        -- intros e He. destruct (IHe e He) as (-> & m' & Hin & Hm').
           split; [reflexivity|]. exists m'. split; [right; exact Hin|exact Hm'].
      * split; [|discriminate]. split; [discriminate|].
        intros Hall. apply Forall_cons in Hall as [(o' & Ho' & Hs) _].
        rewrite Em in Ho'. injection Ho' as <-. destruct Hs; contradiction.
  - split.
    + split; [discriminate|].
      intros Hall. apply Forall_cons in Hall as [(o' & Ho' & _) _].
      rewrite Em in Ho'. discriminate.
    + intros e [= <-]. split; [reflexivity|]. exists m. split; [left|exact Em].
Qed.

(** X2: a group that is not a repeat group is never completed by
    [dependencyCompleted]: once it has left Pending, a notification
    leaves the whole store as it was, also when every member is
    Complete, for [membersFinished] is empty in [CannoliGroup]. *)
Theorem X2_basic_group_is_never_completed `{Host}
    (this : string) (t : CannoliObject) (w : World) :
  graph w !! this = Some t ->
  instanceof (cls t) RepeatGroup = false ->
  status t <> Pending ->
  world (CannoliGroup_dependencyCompleted this w) = w.
Proof.
  intros Ht Hcls Hst. unfold CannoliGroup_dependencyCompleted.
  rewrite (bind_inr _ _ _ _ _ (get_obj_Some this w t Ht)).
  destruct (status t); try contradiction; try reflexivity.
  unfold lift. unfold mbind at 1, M_bind at 1, bind at 1.
  destruct (allMembersCompleteOrRejected (graph w) (members t)) as [e|[|]];
    try reflexivity.
  unfold membersFinished.
  rewrite (bind_inr _ _ _ _ _ (get_obj_Some this w t Ht)), Hcls. reflexivity.
Qed.

Lemma X2_basic_group_witness :
  allMembersCompleteOrRejected (graph basic_group_done) ["n"] = inr true
  /\ world (CannoliGroup_dependencyCompleted (H := example_host None)
              "g" basic_group_done) = basic_group_done.
Proof.
  split; [reflexivity|].
  exact (X2_basic_group_is_never_completed (H := example_host None)
           "g" _ basic_group_done eq_refl eq_refl ltac:(discriminate)).
Defined.

(** X3: the errors [createTyped] throws on a group.  One is that of a
    list group: the label starts with [<] or the colour is [5], and
    what is left of the label is not a number.  The other is that of
    [decideType], for a colour that names a property every object
    inherits, which the colour map is found to hold.  No other group
    makes it throw: the error of a repeat group is never thrown, for a
    repeat group is indicated by the number itself. *)
Theorem X3_createTyped_throws_for_list_labels_and_inherited_colours
    (this : CannoliObject) (memberTypes : list Indicated) (e : Exn) :
  createTyped this memberTypes = inl e ->
  (e = Error (list_label_message (id this))
   /\ getLabelNumber this = None
   /\ (Js.head (text this) = Some "<"%char \/ color this = Some "5"))
  \/ (exists c,
        color this = Some c
        /\ c ∈ Object_prototype_keys
        /\ Js.head (text this) <> Some "<"%char
        /\ e = Error (invalid_type_message (id this) (IndInherited c))).
Proof.
  unfold createTyped, decideType, getIndicatedType.
  destruct (in_GroupPrefixMap (Js.head (text this))) eqn:Ep.
  - destruct (getLabelNumber this); [discriminate|]. intros [= <-]. left.
    split; [reflexivity|]. split; [reflexivity|]. left.
    destruct (Js.head (text this)) as [c|]; [|discriminate]. cbn in Ep.
    apply Ascii.eqb_eq in Ep. rewrite Ep. reflexivity.
  - assert (Hhead : Js.head (text this) <> Some "<"%char).
    { intros Hh. rewrite Hh in Ep. discriminate Ep. }
    destruct (color this) as [c|] eqn:Ec.
    + destruct (Js.truthy c && in_GroupColorMap c) eqn:Et.
      * apply andb_true_iff in Et as [_ Et]. unfold in_GroupColorMap in Et.
        unfold GroupColorMap_get.
        destruct (String.eqb_spec c "5") as [->|Hne].
        -- destruct (getLabelNumber this); [discriminate|]. intros [= <-]. left.
           split; [reflexivity|]. split; [reflexivity|]. right. reflexivity.
        -- cbn [orb] in Et. apply bool_decide_eq_true in Et.
           intros [= <-]. right. exists c.
           split; [reflexivity|]. split; [exact Et|]. split; [exact Hhead|].
           reflexivity.
      * destruct (getLabelNumber this); [discriminate|].
        destruct (forallb is_NonLogic memberTypes); discriminate.
    + destruct (getLabelNumber this); [discriminate|].
      destruct (forallb is_NonLogic memberTypes); discriminate.
Qed.

Lemma X3_createTyped_witness :
  createTyped (untyped_group "g" "<abc" None []) []
    = inl (Error (list_label_message "g"))
  /\ Js.head "<abc" = Some "<"%char.
Proof.
  split; [reflexivity|].
  destruct (X3_createTyped_throws_for_list_labels_and_inherited_colours
              (untyped_group "g" "<abc" None []) [] _ eq_refl)
    as [(_ & _ & [Hp|Hc])|(c & Hc & _)];
    [exact Hp|discriminate Hc|discriminate Hc].
Defined.

(** X4: what the typed group keeps of the group it is made from.  A
    repeat or list group keeps the members, the edges and the enclosing
    groups, and its bound is the number of the label; a basic group is
    constructed without them and has no member, no edge and no
    enclosing group, whatever the group had. *)
Theorem X4_createTyped_structure
    (this o : CannoliObject) (memberTypes : list Indicated) :
  createTyped this memberTypes = inr (Some o) ->
  id o = id this /\ text o = text this
  /\ (cls o = CannoliGroup /\ getLabelNumber this = None
      /\ members o = [] /\ incomingEdges o = [] /\ outgoingEdges o = []
      /\ groups o = []
      \/ (cls o = RepeatGroup /\ getLabelNumber this = Some (maxLoops o)
          \/ cls o = ListGroup /\ getLabelNumber this = Some (numberOfVersions o)
             /\ copyId o = 0)
         /\ members o = members this
         /\ incomingEdges o = incomingEdges this
         /\ outgoingEdges o = outgoingEdges this
         /\ groups o = groups this).
Proof.
  unfold createTyped, decideType, getIndicatedType.
  destruct (in_GroupPrefixMap (Js.head (text this))).
  { destruct (getLabelNumber this) as [n|]; [|discriminate].
    intros [= <-]. cbn. repeat split; right; repeat split; right;
      repeat split. }
  destruct (color this) as [c|].
  - destruct (Js.truthy c && in_GroupColorMap c).
    + unfold GroupColorMap_get. destruct (String.eqb c "5"); [|discriminate].
      destruct (getLabelNumber this) as [n|]; [|discriminate].
      intros [= <-]. cbn. repeat split; right; repeat split; right;
        repeat split.
    + destruct (getLabelNumber this) as [n|].
      { intros [= <-]. cbn. repeat split; right; repeat split; left;
          repeat split. }
      destruct (forallb is_NonLogic memberTypes); [discriminate|].
      intros [= <-]. cbn. repeat split; left; repeat split.
  - destruct (getLabelNumber this) as [n|].
    { intros [= <-]. cbn. repeat split; right; repeat split; left;
        repeat split. }
    destruct (forallb is_NonLogic memberTypes); [discriminate|].
    intros [= <-]. cbn. repeat split; left; repeat split.
Qed.

Lemma X4_createTyped_witness :
  exists o,
    createTyped group_labelled_3 [IndNode (IndicatedNodeType.Other "call")]
      = inr (Some o)
    /\ cls o = RepeatGroup /\ maxLoops o = 3 /\ members o = ["n"].
Proof.
  destruct (createTyped group_labelled_3 [IndNode (IndicatedNodeType.Other "call")])
    as [e|[o|]] eqn:E; [discriminate E| |discriminate E].
  exists o. split; [reflexivity|].
  destruct (X4_createTyped_structure group_labelled_3 o _ E)
    as (_ & _ & [(_ & Hl & _)|([(Hc & Hl)|(_ & Hl & _)] & Hm & _)]);
    try discriminate Hl.
  - split; [exact Hc|]. split; [|exact Hm].
    change (getLabelNumber group_labelled_3) with (Some 3) in Hl. congruence.
  - exfalso. vm_compute in E. injection E as <-. discriminate Hl.
Defined.

(** X5: a repeat group as [createTyped] constructs it does not loop.
    The constructor assigns [maxLoops] and leaves [currentLoop]
    unassigned, so the test [currentLoop < maxLoops] of the first
    [membersFinished] fails: the group becomes Complete at once and
    [resetMembers] is not called, whatever the number of the label. *)
Theorem X5_constructed_repeat_group_completes_at_once `{Host}
    (this o : CannoliObject) (memberTypes : list Indicated)
    (k : string) (w : World) :
  createTyped this memberTypes = inr (Some o) ->
  cls o = RepeatGroup ->
  graph w !! k = Some o ->
  membersFinished k w
    = (inr tt, {| graph := <[k := set_status Complete o]> (graph w);
                  trace := trace w ++ [Update k Complete] |}).
Proof.
  intros Hc Hcls Hk.
  assert (Hloop : currentLoop o = None).
  { revert Hc. unfold createTyped.
    destruct (decideType this memberTypes) as [e|[| | | |]]; try discriminate;
      destruct (getLabelNumber this); try discriminate;
      intros [= <-]; reflexivity. }
  unfold membersFinished.
  rewrite (bind_inr _ _ _ _ _ (get_obj_Some k w o Hk)), Hcls.
  eval_instanceof. unfold RepeatGroup_membersFinished.
  rewrite (bind_inr _ _ _ _ _ (get_obj_Some k w o Hk)), Hloop.
  unfold_m. rewrite (alter_alt_Some _ _ _ _ Hk). reflexivity.
Qed.

(** X6: [createTypedObjects] fails closed.  The error it ends with is
    the error [createTyped] throws on the first object that makes it
    throw, and then no graph is returned.  When a graph is returned,
    [createTyped] has returned on every object, and what the graph
    holds under a key is known: the typed object of the last object of
    that id that was typed to an object, or, when there is none, what
    the graph held before.  An object typed to [null] adds nothing. *)
Theorem X6_createTypedObjects_fails_closed
    (objects : list (CannoliObject * list Indicated))
    (newGraph : gmap string CannoliObject) :
  (forall e,
     createTypedObjects objects newGraph = inl e <->
     exists pre object memberTypes post,
       objects = pre ++ (object, memberTypes) :: post
       /\ Forall (fun p => exists r, createTyped (fst p) (snd p) = inr r) pre
       /\ createTyped object memberTypes = inl e)
  /\ (forall typed,
        createTypedObjects objects newGraph = inr typed ->
        Forall (fun p => exists r, createTyped (fst p) (snd p) = inr r) objects
        /\ forall k o,
             typed !! k = Some o <->
             (exists pre object memberTypes post,
                objects = pre ++ (object, memberTypes) :: post
                /\ id object = k
                /\ createTyped object memberTypes = inr (Some o)
                /\ Forall (fun p => id (fst p) = k ->
                                    createTyped (fst p) (snd p) = inr None) post)
             \/ (newGraph !! k = Some o
                 /\ Forall (fun p => id (fst p) = k ->
                                     createTyped (fst p) (snd p) = inr None)
                      objects)).
Proof.
  revert newGraph. induction objects as [|[o1 ts1] objects IH]; intros newGraph.
  { split.
    - intros e. split; [discriminate|].
      intros (pre & object & memberTypes & post & Hobj & _).
      destruct pre; discriminate Hobj.
    - intros typed [= <-]. split; [constructor|]. intros k o. split.
      + intros Hk. right. split; [exact Hk|constructor].
      + intros [(pre & object & memberTypes & post & Hobj & _)|[Hk _]];
          [destruct pre; discriminate Hobj|exact Hk]. }
  cbn [createTypedObjects].
  destruct (createTyped o1 ts1) as [e1|r1] eqn:E1.
  { split.
    - intros e. split.
      + intros [= <-]. exists [], o1, ts1, objects.
        split; [reflexivity|]. split; [constructor|exact E1].
      + intros (pre & object & memberTypes & post & Hobj & Hpre & He).
        destruct pre as [|p pre].
        * injection Hobj as <- <- _. rewrite E1 in He. injection He as ->.
          reflexivity.
        * injection Hobj as <- _. apply Forall_cons in Hpre as [[r Hr] _].
          cbn [fst snd] in Hr. rewrite E1 in Hr. discriminate Hr.
    - discriminate. }
  set (g1 := match r1 with
             | Some typedObject => <[id o1 := typedObject]> newGraph
             | None => newGraph
             end).
  assert (Hrun : match r1 with
                 | Some typedObject =>
                     createTypedObjects objects (<[id o1 := typedObject]> newGraph)
                 | None => createTypedObjects objects newGraph
                 end = createTypedObjects objects g1)
    by (destruct r1; reflexivity).
  rewrite Hrun. destruct (IH g1) as [IHe IHt]. split.
  - intros e. rewrite IHe. split.
    + intros (pre & object & memberTypes & post & -> & Hpre & He).
      exists ((o1, ts1) :: pre), object, memberTypes, post.
      split; [reflexivity|]. split; [|exact He].
      constructor; [exists r1; exact E1|exact Hpre].
    + intros (pre & object & memberTypes & post & Hobj & Hpre & He).
      destruct pre as [|p pre].
      * injection Hobj as <- <- _. rewrite E1 in He. discriminate He.
      * injection Hobj as _ ->. apply Forall_cons in Hpre as [_ Hpre].
        exists pre, object, memberTypes, post. auto.
  - intros typed Htyped. destruct (IHt typed Htyped) as [Hall Hkeys]. split.
    { constructor; [exists r1; exact E1|exact Hall]. }
    intros k o. rewrite Hkeys. split.
    + intros [(pre & object & memberTypes & post & -> & Hid & Hc & Hpost)
             |[Hk Hnone]].
      * left. exists ((o1, ts1) :: pre), object, memberTypes, post. auto.
      * subst g1. destruct r1 as [t1|].
        -- destruct (decide (id o1 = k)) as [Heq|Hne].
           ++ subst k. rewrite lookup_insert_eq in Hk. injection Hk as <-.
              left. exists [], o1, ts1, objects. auto.
           ++ rewrite lookup_insert_ne in Hk by exact Hne.
              right. split; [exact Hk|]. constructor; [|exact Hnone].
              intros Heq. contradiction.
        -- right. split; [exact Hk|]. constructor; [|exact Hnone].
           intros _. exact E1.
    + intros [(pre & object & memberTypes & post & Hobj & Hid & Hc & Hpost)
             |[Hk Hnone]].
      * destruct pre as [|p pre].
        -- injection Hobj as <- <- <-. right. split; [|exact Hpost].
           rewrite E1 in Hc. injection Hc as ->. subst g1 k.
           apply lookup_insert_eq.
        -- injection Hobj as _ ->. left.
           exists pre, object, memberTypes, post. auto.
      * apply Forall_cons in Hnone as [H1 Hnone]. cbn [fst snd] in H1.
        right. split; [|exact Hnone]. subst g1. destruct r1 as [t1|]; [|exact Hk].
        rewrite lookup_insert_ne; [exact Hk|].
        intros Heq. specialize (H1 Heq). rewrite E1 in H1. discriminate H1.
Qed.

Lemma X5_constructed_repeat_group_witness :
  (status <$> graph (world (membersFinished (H := example_host None) "g"
                              constructed_repeat_group)) !! "g")
    = Some Complete
  /\ count_resets "g" (world (membersFinished (H := example_host None) "g"
                                constructed_repeat_group)) = 0%nat.
Proof.
  rewrite (X5_constructed_repeat_group_completes_at_once
             (H := example_host None) group_labelled_3 _
             [IndNode (IndicatedNodeType.Other "call")] "g"
             constructed_repeat_group eq_refl eq_refl eq_refl).
  split; reflexivity.
Defined.

Lemma X6_createTypedObjects_witness :
  createTypedObjects
    [(group_labelled_3, [IndNode (IndicatedNodeType.Other "call")]);
     (untyped_group "h" "<abc" None [], [])] ∅
  = inl (Error (list_label_message "h")).
Proof.
  apply (proj1 (X6_createTypedObjects_fails_closed
                  [(group_labelled_3, [IndNode (IndicatedNodeType.Other "call")]);
                   (untyped_group "h" "<abc" None [], [])] ∅)).
  exists [(group_labelled_3, [IndNode (IndicatedNodeType.Other "call")])],
    (untyped_group "h" "<abc" None []), [], [].
  split; [reflexivity|]. split; [|reflexivity].
  constructor; [eexists; reflexivity|constructor].
Defined.

(** *** What [setMembers] wires *)

Lemma set_dependencies_same o : set_dependencies (dependencies o) o = o.
Proof. destruct o; reflexivity. Qed.

(** The inner loop of [setMembers] on the object [k]. *)
Lemma setMembers_inner_eq k es :
  forall w o,
    graph w !! k = Some o ->
    for_of es (fun edge =>
                 if negb (ref_isReflexive edge)
                 then addDependency k (DepId (ref_id edge))
                 else ret tt) w
    = (inr tt,
       {| graph :=
            <[k := set_dependencies
                     (dependencies o
                      ++ map DepId
                           (map ref_id
                              (List.filter (fun e => negb (ref_isReflexive e)) es)))
                     o]> (graph w);
          trace := trace w |}).
Proof.
  induction es as [|e es IH]; intros w o Ho.
  - cbn. rewrite app_nil_r, set_dependencies_same, (insert_id _ _ _ Ho).
    destruct w; reflexivity.
  - cbn [for_of List.filter]. destruct (ref_isReflexive e); cbn [negb].
    + unfold bind, ret. apply IH. exact Ho.
    + unfold bind, addDependency, modify.
      rewrite (alter_alt_Some _ _ _ _ Ho).
      rewrite (IH _ (set_dependencies (dependencies o ++ [DepId (ref_id e)]) o))
        by (cbn; apply lookup_insert_eq).
      cbn. rewrite insert_insert_eq, <- app_assoc. reflexivity.
Qed.

Lemma is_member_of_self t :
  id t ∉ groups t -> is_member_of t t = false.
Proof.
  intros Hn. unfold is_member_of. rewrite (bool_decide_eq_false_2 _ Hn).
  apply andb_false_r.
Qed.

Lemma member_ids_ext g g' t t' keys :
  id t' = id t ->
  (forall k, k ∈ keys ->
     match g' !! k, g !! k with
     | Some o', Some o => is_member_of t' o' = is_member_of t o /\ id o' = id o
     | None, None => True
     | _, _ => False
     end) ->
  member_ids g' t' keys = member_ids g t keys.
Proof.
  intros Hid Hk. induction keys as [|k keys IH]; [reflexivity|].
  unfold member_ids in *. cbn [omap list_omap].
  rewrite IH by (intros j Hj; apply Hk; right; exact Hj).
  specialize (Hk k ltac:(left)).
  destruct (g' !! k) as [o'|], (g !! k) as [o|]; try contradiction;
    [|reflexivity].
  destruct Hk as [-> ->]. reflexivity.
Qed.

Lemma setMembers_spec this :
  forall keys w t,
    graph w !! this = Some t ->
    id t ∉ groups t ->
    NoDup keys ->
    exists w',
      CannoliGroup_setMembers this keys w = (inr tt, w')
      /\ trace w' = trace w
      /\ graph w' !! this
         = Some (with_members (member_ids (graph w) t keys) t)
      /\ (forall k o, k <> this -> graph w !! k = Some o ->
            graph w' !! k
            = Some (if bool_decide (k ∈ keys) && is_member_of t o
                    then wired t o else o))
      /\ (forall k, graph w !! k = None -> graph w' !! k = None).
Proof.
  induction keys as [|k keys IH]; intros w t Ht Hself Hnd.
  { exists w. split; [reflexivity|]. split; [reflexivity|].
    split; [|split].
    - unfold with_members, member_ids. cbn. rewrite !app_nil_r.
      rewrite Ht. f_equal. destruct t; reflexivity.
    - intros k o _ Ho. rewrite Ho. reflexivity.
    - auto. }
  apply NoDup_cons in Hnd as [Hk Hnd].
  unfold CannoliGroup_setMembers. cbn [for_of].
  fold (CannoliGroup_setMembers this keys).
  (* the round of the key [k] *)
  assert (Hstep : exists w1 t1,
    (object ← lookup_obj k;
     match object with
     | Some object =>
         if instanceof (cls object) CannoliVertex then
           t0 ← get_obj this;
           if bool_decide (id t0 ∈ groups object) then
             modify this (fun o => set_members (members o ++ [id object]) o);;
             addDependency this (DepId (id object));;
             for_of (incomingEdges t0) (fun edge =>
               if negb (ref_isReflexive edge)
               then addDependency k (DepId (ref_id edge))
               else ret tt)
           else ret tt
         else ret tt
     | None => ret tt
     end) w = (inr tt, w1)
    /\ trace w1 = trace w
    /\ graph w1 !! this = Some t1
    /\ t1 = with_members (member_ids (graph w) t [k]) t
    /\ (forall j, j <> this -> j <> k -> graph w1 !! j = graph w !! j)
    /\ (k <> this ->
        graph w1 !! k
        = (fun o => if is_member_of t o then wired t o else o) <$> graph w !! k)).
  { assert (Hnone : with_members [] t = t) by
      (unfold with_members; cbn; rewrite !app_nil_r; destruct t; reflexivity).
    unfold member_ids. cbn [omap list_omap].
    destruct (graph w !! k) as [o|] eqn:Eo.
    - rewrite (bind_inr (lookup_obj k) _ w (Some o) w)
        by (unfold lookup_obj; rewrite Eo; reflexivity).
      unfold is_member_of.
      destruct (instanceof (cls o) CannoliVertex) eqn:Ev; cbn [andb].
      + rewrite (bind_inr _ _ _ _ _ (get_obj_Some this w t Ht)).
        destruct (bool_decide (id t ∈ groups o)) eqn:Eg.
        * assert (Hne : k <> this).
          { intros ->. rewrite Ht in Eo. injection Eo as <-.
            apply bool_decide_eq_true in Eg. contradiction. }
          set (t1 := with_members [id o] t).
          set (w0 := {| graph := <[this := t1]> (graph w); trace := trace w |}).
          set (wm := {| graph := <[this := set_members (members t ++ [id o]) t]> (graph w);
                        trace := trace w |}).
          assert (Em : modify this (fun o0 => set_members (members o0 ++ [id o]) o0) w
                       = (inr tt, wm)).
          { unfold modify, wm. rewrite (alter_alt_Some _ _ _ _ Ht). reflexivity. }
          assert (E0 : addDependency this (DepId (id o)) wm = (inr tt, w0)).
          { unfold addDependency, modify, wm, w0. cbn [graph trace].
            rewrite alter_insert_eq. reflexivity. }
          assert (Ho0 : graph w0 !! k = Some o).
          { cbn. rewrite lookup_insert_ne by congruence. exact Eo. }
          exists {| graph := <[k := wired t o]> (graph w0); trace := trace w0 |}, t1.
          split.
          { rewrite (bind_inr _ _ _ _ _ Em), (bind_inr _ _ _ _ _ E0).
            exact (setMembers_inner_eq k (incomingEdges t) w0 o Ho0). }
          split; [reflexivity|]. split.
          { cbn. rewrite lookup_insert_ne by exact Hne. apply lookup_insert_eq. }
          split; [reflexivity|]. split.
          { intros j Hj1 Hj2. cbn. rewrite !lookup_insert_ne by congruence.
            reflexivity. }
          intros _. cbn. rewrite lookup_insert_eq, Ev, Eg. reflexivity.
        * exists w, t. rewrite Hnone. repeat split; auto.
          intros _. rewrite Eo. cbn. rewrite Ev, Eg. reflexivity.
      + exists w, t. rewrite Hnone. repeat split; auto.
        intros _. rewrite Eo. cbn. rewrite Ev. reflexivity.
    - rewrite (bind_inr (lookup_obj k) _ w None w)
        by (unfold lookup_obj; rewrite Eo; reflexivity).
      exists w, t. rewrite Hnone. repeat split; auto. }
  destruct Hstep as (w1 & t1 & E1 & Htr1 & Ht1 & Hdef1 & Hother & Hkey).
  assert (Hid1 : id t1 = id t) by (rewrite Hdef1; reflexivity).
  assert (Hgr1 : groups t1 = groups t) by (rewrite Hdef1; reflexivity).
  assert (Hin1 : inherited_edges t1 = inherited_edges t)
    by (rewrite Hdef1; reflexivity).
  assert (Hmem1 : forall o, is_member_of t1 o = is_member_of t o)
    by (intros o; unfold is_member_of; rewrite Hid1; reflexivity).
  assert (Hself1 : id t1 ∉ groups t1) by (rewrite Hid1, Hgr1; exact Hself).
  destruct (IH w1 t1 Ht1 Hself1 Hnd) as (w' & Erun & Htr & Hthis & Hobj & Hmiss).
  assert (Hids : member_ids (graph w1) t1 keys = member_ids (graph w) t keys).
  { apply member_ids_ext; [exact Hid1|]. intros j Hj.
    assert (Hjk : j <> k) by (intros ->; contradiction).
    destruct (decide (j = this)) as [->|Hjt].
    - rewrite Ht1, Ht. rewrite Hmem1, (is_member_of_self t Hself).
      rewrite <- (Hmem1 t1), (is_member_of_self t1 Hself1). auto.
    - rewrite (Hother j Hjt Hjk). destruct (graph w !! j); auto. }
  exists w'. split.
  { unfold bind. rewrite E1. exact Erun. }
  split; [congruence|]. split; [|split].
  - rewrite Hthis, Hids, Hdef1. f_equal.
    unfold with_members, member_ids. cbn [omap list_omap].
    fold (member_ids (graph w) t keys).
    destruct (match graph w !! k with
              | Some o => if is_member_of t o then Some (id o) else None
              | None => None
              end) as [i|]; cbn.
    + rewrite <- !app_assoc. reflexivity.
    + rewrite !app_nil_r. reflexivity.
  - intros j o Hjt Ho. destruct (decide (j = k)) as [->|Hjk].
    + specialize (Hkey Hjt). rewrite Ho in Hkey. cbn in Hkey.
      rewrite (Hobj k _ Hjt Hkey).
      rewrite (bool_decide_eq_false_2 (k ∈ keys)) by exact Hk.
      rewrite (bool_decide_eq_true_2 (k ∈ k :: keys)) by left. reflexivity.
    + rewrite (Hobj j o Hjt) by (rewrite (Hother j Hjt Hjk); exact Ho).
      rewrite Hmem1. unfold wired. rewrite Hin1.
      replace (bool_decide (j ∈ k :: keys)) with (bool_decide (j ∈ keys));
        [reflexivity|].
      apply bool_decide_ext. rewrite elem_of_cons. intuition congruence.
  - intros j Hj. apply Hmiss.
    destruct (decide (j = this)) as [->|Hjt]; [congruence|].
    destruct (decide (j = k)) as [->|Hjk].
    + rewrite (Hkey Hjt), Hj. reflexivity.
    + rewrite (Hother j Hjt Hjk). exact Hj.
Qed.

(** X7: [setMembers] on a group that does not enclose itself, over
    distinct keys.  It returns and emits nothing.  The members it
    pushes are the ids of the vertices among the keys whose [groups]
    hold the group's id, in the order of the keys, and the group gets a
    dependency on each, in the same order.  Each of these members gets
    a dependency on every incoming edge of the group that is not
    reflexive, and on no reflexive one; no other object changes. *)
Theorem X7_setMembers_wires_the_members
    (this : string) (keys : list string) (t : CannoliObject) (w : World) :
  graph w !! this = Some t ->
  id t ∉ groups t ->
  NoDup keys ->
  exists w' t',
    CannoliGroup_setMembers this keys w = (inr tt, w')
    /\ trace w' = trace w
    /\ graph w' !! this = Some t'
    /\ members t' = members t ++ member_ids (graph w) t keys
    /\ dependencies t'
       = dependencies t ++ map DepId (member_ids (graph w) t keys)
    /\ forall k o,
         k <> this ->
         graph w !! k = Some o ->
         if bool_decide (k ∈ keys) && is_member_of t o
         then exists o',
                graph w' !! k = Some o'
                /\ dependencies o'
                   = dependencies o ++ map DepId (inherited_edges t)
                /\ status o' = status o /\ groups o' = groups o
         else graph w' !! k = Some o.
Proof.
  intros Ht Hself Hnd.
  destruct (setMembers_spec this keys w t Ht Hself Hnd)
    as (w' & Erun & Htr & Hthis & Hobj & _).
  exists w', (with_members (member_ids (graph w) t keys) t).
  split; [exact Erun|]. split; [exact Htr|]. split; [exact Hthis|].
  split; [reflexivity|]. split; [reflexivity|].
  intros k o Hk Ho. specialize (Hobj k o Hk Ho).
  destruct (bool_decide (k ∈ keys) && is_member_of t o); [|exact Hobj].
  exists (wired t o). split; [exact Hobj|]. repeat split.
Qed.

Lemma X7_setMembers_witness :
  exists w',
    CannoliGroup_setMembers "g" ["g"; "n"; "e"] (group_with_member Pending)
      = (inr tt, w')
    /\ (members <$> graph w' !! "g") = Some ["n"]
    /\ (dependencies <$> graph w' !! "n") = Some [DepId "e"].
Proof.
  destruct (X7_setMembers_wires_the_members "g" ["g"; "n"; "e"] _
              (group_with_member Pending) eq_refl
              ltac:(apply (bool_decide_unpack _); vm_compute; exact I)
              ltac:(apply (bool_decide_unpack _); vm_compute; exact I))
    as (w' & t' & Erun & _ & Ht' & Hm & _ & Hobj).
  exists w'. split; [exact Erun|]. split.
  - rewrite Ht'. cbn. rewrite Hm. reflexivity.
  - specialize (Hobj "n" _ ltac:(discriminate) eq_refl).
    destruct Hobj as (o' & Ho' & Hd & _). rewrite Ho'. cbn. rewrite Hd.
    reflexivity.
Defined.

(** ** Edges *)

Lemma loaded_cls c r o : cls (loaded c r o) = cls o.
Proof. unfold loaded. cbn. destruct (addMessages o); reflexivity. Qed.

Lemma loaded_isReflexive c r o : isReflexive (loaded c r o) = isReflexive o.
Proof. unfold loaded. cbn. destruct (addMessages o); reflexivity. Qed.

(** X8: [load] and [reset] on a plain edge.  [load] never changes the
    status; it stores a string that is not empty and stores [null] for
    the empty string.  After a load, [reset] changes nothing at all on
    a reflexive edge, which keeps what was loaded, and on any other
    edge it leaves no content and Pending. *)
Theorem X8_load_then_reset `{Host}
    (i : string) (o : CannoliObject) (s : string) (r : option Request)
    (w : World) :
  graph w !! i = Some o ->
  cls o = CannoliEdge ->
  exists w1 o1,
    load i (Some (CStr s)) r w = (inr tt, w1)
    /\ graph w1 !! i = Some o1
    /\ status o1 = status o
    /\ content o1 = (if Js.truthy s then Some (CStr s) else None)
    /\ (isReflexive o = true -> reset i w1 = (inr tt, w1))
    /\ (isReflexive o = false ->
        exists o2, graph (world (reset i w1)) !! i = Some o2
                   /\ content o2 = None /\ status o2 = Pending).
Proof.
  intros Hi Hc. rewrite (load_plain_eq i (Some (CStr s)) r w o Hi Hc).
  eexists _, (loaded (Some (CStr s)) r o). split; [reflexivity|].
  assert (H1 : graph {| graph := <[i := loaded (Some (CStr s)) r o]> (graph w);
                        trace := trace w ++ [Load i (Some (CStr s)) r] |} !! i
               = Some (loaded (Some (CStr s)) r o))
    by (cbn; apply lookup_insert_eq).
  split; [exact H1|]. split; [apply loaded_status|]. split.
  { unfold loaded. cbn. destruct (addMessages o); reflexivity. }
  assert (He : instanceof (cls (loaded (Some (CStr s)) r o)) CannoliEdge = true)
    by (rewrite loaded_cls, Hc; reflexivity).
  split; intros Hr.
  - rewrite (reset_eq i _ _ H1). unfold reset_obj, reset_events.
    rewrite He, loaded_isReflexive, Hr. cbn [andb graph trace].
    rewrite insert_insert_eq, app_nil_r. reflexivity.
  - rewrite (reset_eq i _ _ H1). eexists. cbn. rewrite lookup_insert_eq.
    split; [reflexivity|]. unfold reset_obj.
    rewrite He, loaded_isReflexive, Hr. split; reflexivity.
Qed.

Lemma X8_load_then_reset_witness :
  exists w1,
    load (H := example_host None) "acc" (Some (CStr "next")) None
      loop_with_accumulator = (inr tt, w1)
    /\ reset (H := example_host None) "acc" w1 = (inr tt, w1)
    /\ (content <$> graph w1 !! "acc") = Some (Some (CStr "next")).
Proof.
  destruct (X8_load_then_reset (H := example_host None) "acc" _ "next" None
              loop_with_accumulator eq_refl eq_refl)
    as (w1 & o1 & Eload & Ho1 & _ & Hc & Hrefl & _).
  exists w1. split; [exact Eload|]. split; [exact (Hrefl eq_refl)|].
  rewrite Ho1. cbn. rewrite Hc. reflexivity.
Defined.

Lemma arrayToString_loop_filter format messages :
  forall messageStr isFirstMessage,
    arrayToString_loop messages format messageStr isFirstMessage
    = arrayToString_loop (List.filter (fun m => negb (is_system m)) messages)
        format messageStr isFirstMessage.
Proof.
  induction messages as [|m messages IH]; intros messageStr isFirstMessage;
    [reflexivity|].
  cbn [arrayToString_loop List.filter]. unfold is_system at 1.
  destruct (String.eqb (Msg.role m) "system") eqn:Es; cbn [negb].
  - apply IH.
  - cbn [arrayToString_loop]. rewrite Es. apply IH.
Qed.

(** X9: [arrayToString] leaves the system messages out: a conversation
    renders as it does without them, and a conversation of system
    messages only, like the empty one, renders as the template of the
    next user message. *)
Theorem X9_arrayToString_skips_system_messages
    (messages : list Msg.t) (format : string) :
  arrayToString messages format
    = arrayToString (List.filter (fun m => negb (is_system m)) messages) format
  /\ (forallb is_system messages = true ->
      arrayToString messages format = Js.trimStart (userTemplate format)).
Proof.
  split.
  - unfold arrayToString. rewrite arrayToString_loop_filter. reflexivity.
  - intros Hall. unfold arrayToString. rewrite arrayToString_loop_filter.
    replace (List.filter (fun m => negb (is_system m)) messages) with (@nil Msg.t).
    + reflexivity.
    + induction messages as [|m messages IH]; [reflexivity|].
      cbn in Hall |- *. apply andb_true_iff in Hall as [Hm Hall].
      rewrite Hm. cbn. apply IH. exact Hall.
Qed.

Lemma X9_arrayToString_witness :
  arrayToString
    [{| Msg.role := "system"; Msg.content := Some "Be brief.";
        Msg.function_call := None |}] "{{role}}: {{content}}"
  = "user: ".
Proof.
  exact (proj2 (X9_arrayToString_skips_system_messages
                  [{| Msg.role := "system"; Msg.content := Some "Be brief.";
                      Msg.function_call := None |}] "{{role}}: {{content}}")
           eq_refl).
Defined.

(** X10: [load] on a converter edge with a request that has messages
    never throws and ignores the content it is given: the edge holds
    the text of the conversation in the run's format, or the empty
    string when the run has no format, and its message list is emptied;
    the messages of the request are not kept as messages. *)
Theorem X10_converter_edge_renders_the_request `{Host}
    (i : string) (o : CannoliObject) (c : option Content) (r : Request)
    (ms : list Msg.t) (w : World) :
  graph w !! i = Some o ->
  cls o = ChatConverterEdge ->
  req_messages r = Some ms ->
  load i c (Some r) w
  = (inr tt,
     {| graph :=
          <[i := set_messages (Some [])
                   (set_content
                      (Some (CStr match chatFormatString with
                                  | Some f =>
                                      if Js.truthy f then arrayToString ms f
                                      else EmptyString
                                  | None => EmptyString
                                  end)) o)]> (graph w);
        trace := trace w ++ [Load i c (Some r)] |}).
Proof.
  intros Hi Hc Hms. unfold load, ChatConverterEdge_load. unfold_m. cbn.
  rewrite Hi, Hc. destruct r as [rm rf]. cbn in Hms. subst rm. cbn.
  destruct chatFormatString as [f|].
  - destruct (Js.truthy f); cbn;
      rewrite (alter_alt_Some _ _ _ _ Hi), alter_insert_eq; reflexivity.
  - destruct (Content_truthy c); cbn;
      rewrite (alter_alt_Some _ _ _ _ Hi), alter_insert_eq; reflexivity.
Qed.

Lemma X10_converter_edge_witness :
  (content <$> graph (world (load (H := example_host (Some "{{role}}: {{content}}"))
                               "conv" (Some (CStr "ignored"))
                               (Some example_request) special_edges)) !! "conv")
  = Some (Some (CStr ("user: Hello" +:+ newline +:+ newline +:+ "user: "))).
Proof.
  rewrite (X10_converter_edge_renders_the_request
             (H := example_host (Some "{{role}}: {{content}}"))
             "conv" _ (Some (CStr "ignored")) example_request _ special_edges
             eq_refl eq_refl eq_refl).
  reflexivity.
Defined.

(** X11: [load] on a system-message edge never throws, ignores the
    request, and touches neither the content nor the status of the
    edge: content that is not empty becomes the one system message of
    the edge, and with empty or absent content the edge is left as it
    is. *)
Theorem X11_system_message_edge_load `{Host}
    (i : string) (o : CannoliObject) (c : option Content)
    (r : option Request) (w : World) :
  graph w !! i = Some o ->
  cls o = SystemMessageEdge ->
  exists o',
    load i c r w = (inr tt, {| graph := <[i := o']> (graph w);
                               trace := trace w ++ [Load i c r] |})
    /\ content o' = content o
    /\ status o' = status o
    /\ dependencies o' = dependencies o
    /\ messages o'
       = (if Content_truthy c
          then Some [{| Msg.role := "system";
                        Msg.content := Content_render <$> c;
                        Msg.function_call := None |}]
          else messages o).
Proof.
  intros Hi Hc. unfold load, SystemMessageEdge_load. unfold_m. cbn.
  rewrite Hi, Hc. destruct (Content_truthy c); cbn.
  - eexists. rewrite (alter_alt_Some _ _ _ _ Hi).
    split; [reflexivity|]. repeat split.
  - exists o. rewrite (insert_id _ _ _ Hi). repeat split.
Qed.

Lemma X11_system_message_edge_witness :
  exists o',
    graph (world (load (H := example_host None) "sys" (Some (CStr "Be brief."))
                    (Some example_request) special_edges)) !! "sys" = Some o'
    /\ content o' = Some (CStr "kept")
    /\ messages o' = Some [{| Msg.role := "system"; Msg.content := Some "Be brief.";
                              Msg.function_call := None |}].
Proof.
  destruct (X11_system_message_edge_load (H := example_host None) "sys" _
              (Some (CStr "Be brief.")) (Some example_request) special_edges
              eq_refl eq_refl) as (o' & E & Hcontent & _ & _ & Hm).
  exists o'. rewrite E. cbn. rewrite lookup_insert_eq.
  split; [reflexivity|]. split; [exact Hcontent | exact Hm].
Defined.

Lemma append_assoc (a b c : string) : (a +:+ b) +:+ c = a +:+ (b +:+ c).
Proof.
  induction a as [|x a IH]; [reflexivity|].
  change (String x ((a +:+ b) +:+ c) = String x (a +:+ (b +:+ c))).
  rewrite IH. reflexivity.
Qed.

(** X12: [load] on a logging edge with a request never throws and never
    loses a log: what the edge held stays, in front, followed by a line
    break and the new log, and the new log ends with the [#### Config]
    section of the request.  The content argument is not read and the
    status is not changed. *)
Theorem X12_logging_edge_appends `{Host}
    (i : string) (o : CannoliObject) (r : Request) (w : World) :
  graph w !! i = Some o ->
  cls o = LoggingEdge ->
  exists head, forall c : option Content,
    load i c (Some r) w
    = (inr tt,
       {| graph :=
            <[i := set_content
                     (Some (CStr (match content o with
                                  | Some c0 => Content_render c0 +:+ newline
                                  | None => EmptyString
                                  end
                                  +:+ head +:+ newline +:+ "#### Config" +:+ newline
                                  +:+ getConfigString r +:+ newline))) o]> (graph w);
          trace := trace w ++ [Load i c (Some r)] |}).
Proof.
  intros Hi Hc. eexists. intros c. unfold load, LoggingEdge_load. unfold_m. cbn.
  rewrite Hi, Hc. cbn. rewrite Hi. cbn.
  destruct (content o) as [c0|]; cbn; rewrite (alter_alt_Some _ _ _ _ Hi).
  - rewrite (append_assoc (Content_render c0) newline). reflexivity.
  - reflexivity.
Qed.

Lemma X12_logging_edge_witness :
  exists head,
    (content <$> graph (world (load (H := example_host None) "log" None
                                 (Some example_request) special_edges)) !! "log")
    = Some (Some (CStr ("first log" +:+ newline +:+ head +:+ newline
                        +:+ "#### Config" +:+ newline
                        +:+ "model: m1" +:+ newline +:+ newline))).
Proof.
  destruct (X12_logging_edge_appends (H := example_host None) "log" _
              example_request special_edges eq_refl eq_refl) as (hd & E).
  exists hd. rewrite (E None). cbn. rewrite lookup_insert_eq. reflexivity.
Defined.

(** ** The text of nodes *)

Lemma split_nonempty sep s : exists l ls, Js.split sep s = l :: ls.
Proof.
  induction s as [|c s IH]; cbn; [eauto|].
  destruct (Ascii.eqb c sep); [eauto|].
  destruct IH as (l & ls & ->). eauto.
Qed.

Lemma split_app sep l c :
  has_char sep l = false ->
  Js.split sep (l +:+ String sep c) = l :: Js.split sep c.
Proof.
  induction l as [|x l IH]; intros Hl.
  - change (Js.split sep (String sep c) = EmptyString :: Js.split sep c).
    cbn [Js.split]. rewrite Ascii.eqb_refl. reflexivity.
  - cbn [has_char] in Hl. apply orb_false_iff in Hl as [Hx Hl].
    change (Js.split sep (String x (l +:+ String sep c)) = String x l :: Js.split sep c).
    cbn [Js.split]. rewrite Hx, (IH Hl). reflexivity.
Qed.

Lemma split_no_sep sep s : has_char sep s = false -> Js.split sep s = [s].
Proof.
  induction s as [|x s IH]; intros Hs; [reflexivity|].
  cbn [has_char] in Hs. apply orb_false_iff in Hs as [Hx Hs].
  cbn [Js.split]. rewrite Hx, (IH Hs). reflexivity.
Qed.

Lemma firstLine_of_app l c :
  has_char (ascii_of_nat 10) l = false ->
  firstLine_of (l +:+ newline +:+ c) = l.
Proof.
  intros Hl. unfold firstLine_of.
  change (l +:+ newline +:+ c) with (l +:+ String (ascii_of_nat 10) c).
  rewrite (split_app _ _ _ Hl). reflexivity.
Qed.

Lemma firstLine_of_no_newline s :
  has_char (ascii_of_nat 10) (firstLine_of s) = false.
Proof.
  unfold firstLine_of. induction s as [|x s IH]; [reflexivity|].
  cbn [Js.split]. destruct (Ascii.eqb x (ascii_of_nat 10)) eqn:Ex; [reflexivity|].
  destruct (split_nonempty (ascii_of_nat 10) s) as (l & ls & E).
  rewrite E in IH |- *. cbn in IH |- *. rewrite Ex, IH. reflexivity.
Qed.

Lemma firstLine_of_idem s : firstLine_of (firstLine_of s) = firstLine_of s.
Proof.
  unfold firstLine_of at 1.
  rewrite (split_no_sep _ _ (firstLine_of_no_newline s)). reflexivity.
Qed.

Lemma substring_all s : String.substring 0 (String.length s) s = s.
Proof. induction s as [|x s IH]; [reflexivity|]. cbn. rewrite IH. reflexivity. Qed.

Lemma substringFrom_app l c :
  Js.substringFrom (l +:+ newline +:+ c) (String.length l + 1) = c.
Proof.
  unfold Js.substringFrom.
  rewrite length_append, length_append. cbn [String.length newline].
  replace (String.length l + (1 + String.length c) - (String.length l + 1))%nat
    with (String.length c) by lia.
  induction l as [|x l IH].
  - cbn. apply substring_all.
  - change (String.substring (S (String.length l + 1)) (String.length c)
              (String x (l +:+ newline +:+ c)) = c).
    cbn [String.substring]. exact IH.
Qed.

(** A text with a line break is its first line, the break and the
    rest. *)
Lemma text_decompose s :
  has_char (ascii_of_nat 10) s = true ->
  s = firstLine_of s +:+ newline
      +:+ Js.substringFrom s (String.length (firstLine_of s) + 1).
Proof.
  unfold firstLine_of, Js.substringFrom.
  induction s as [|x s IH]; intros Hs; [discriminate|].
  cbn [Js.split]. cbn in Hs.
  destruct (Ascii.eqb x (ascii_of_nat 10)) eqn:Ex.
  - apply Ascii.eqb_eq in Ex. subst x. cbn.
    rewrite Nat.sub_0_r, substring_all. reflexivity.
  - cbn in Hs. specialize (IH Hs).
    destruct (split_nonempty (ascii_of_nat 10) s) as (l & ls & E).
    rewrite E in IH |- *. cbn [List.hd] in IH |- *.
    change (String x s = String x (l +:+ newline
              +:+ String.substring (S (String.length l + 1))
                    (String.length (String x s) - S (String.length l + 1))
                    (String x s))).
    cbn [String.substring String.length]. f_equal.
    replace (S (String.length s) - S (String.length l + 1))%nat
      with (String.length s - (String.length l + 1))%nat by lia.
    exact IH.
Qed.

(** X13: the content of a floating node.  [editContent] never touches
    the first line: after it, [getContent] returns the new content as it
    was given, the name and the status of the node are what they were,
    and the update is announced.  Writing back what [getContent]
    returned leaves a text of several lines as it is. *)
Theorem X13_floating_node_content_round_trip
    (i : string) (o : CannoliObject) (c : string) (w : World) :
  graph w !! i = Some o ->
  (exists o',
     FloatingNode_editContent i c w
     = (inr tt, {| graph := <[i := o']> (graph w);
                   trace := trace w ++ [Update i (status o)] |})
     /\ FloatingNode_getContent o' = c
     /\ FloatingNode_getName o' = FloatingNode_getName o
     /\ status o' = status o)
  /\ (has_char (ascii_of_nat 10) (text o) = true ->
      graph (world (FloatingNode_editContent i (FloatingNode_getContent o) w))
      = graph w).
Proof.
  intros Hi. split.
  - exists (set_text (firstLine_of (text o) +:+ newline +:+ c) o).
    split; [|split; [|split]].
    + unfold FloatingNode_editContent. unfold_m. rewrite Hi. cbn.
      rewrite (alter_alt_Some _ _ _ _ Hi). reflexivity.
    + unfold FloatingNode_getContent. cbn [text set_text].
      rewrite (firstLine_of_app _ _ (firstLine_of_no_newline _)).
      apply substringFrom_app.
    + unfold FloatingNode_getName. cbn [text set_text].
      rewrite (firstLine_of_app _ _ (firstLine_of_no_newline _)). reflexivity.
    + reflexivity.
  - intros Hnl. unfold FloatingNode_editContent, FloatingNode_getContent.
    unfold_m. rewrite Hi. cbn. rewrite (alter_alt_Some _ _ _ _ Hi).
    rewrite <- (text_decompose _ Hnl).
    replace (set_text (text o) o) with o by (destruct o; reflexivity).
    apply (insert_id _ _ _ Hi).
Qed.

Lemma X13_floating_node_witness :
  exists o',
    graph (world (FloatingNode_editContent "f" "new" named_nodes)) !! "f" = Some o'
    /\ FloatingNode_getContent o' = "new"
    /\ FloatingNode_getName o' = "notes".
Proof.
  destruct (proj1 (X13_floating_node_content_round_trip "f" _ "new" named_nodes
                     eq_refl)) as (o' & E & Hc & Hn & _).
  exists o'. rewrite E. cbn [world snd graph]. rewrite lookup_insert_eq.
  split; [reflexivity|]. split; [exact Hc | exact Hn].
Defined.









Lemma substringFrom_append l r :
  Js.substringFrom (l +:+ r) (String.length l) = r.
Proof.
  unfold Js.substringFrom. rewrite length_append.
  replace (String.length l + String.length r - String.length l)%nat
    with (String.length r) by lia.
  induction l as [|x l IH]; [apply substring_all|].
  change (String.substring (S (String.length l)) (String.length r)
            (String x (l +:+ r)) = r).
  cbn [String.substring]. exact IH.
Qed.

Lemma ContentNode_getName_ext `{Host} o o' :
  firstLine_of (text o') = firstLine_of (text o) ->
  type o' = type o ->
  ContentNode_getName o' = ContentNode_getName o.
Proof.
  unfold ContentNode_getName, firstLine_of. intros -> ->. reflexivity.
Qed.



Lemma substring_none n s : String.substring n 0 s = EmptyString.
Proof.
  revert n. induction s as [|x s IH]; intros [|n]; try reflexivity.
  cbn. apply IH.
Qed.

Lemma instanceof_ContentNode c :
  instanceof c ContentNode = true ->
  instanceof c CannoliEdge = false /\ instanceof c RepeatGroup = false.
Proof. destruct c; intros Hc; try discriminate Hc; split; reflexivity. Qed.

(** X15: a reset keeps the name of a named output node.  The text is
    cut down to its first line, so the node still has the name it had
    and its content is empty; the node is Pending again and holds no
    content. *)
Theorem X15_reset_keeps_the_name_of_an_output_node `{Host}
    (i : string) (o : CannoliObject) (n : string) (w : World) :
  graph w !! i = Some o ->
  instanceof (cls o) ContentNode = true ->
  type o = Some (TNode ContentNodeType.Output) ->
  ContentNode_getName o = Some n ->
  exists o',
    reset i w = (inr tt, {| graph := <[i := o']> (graph w);
                            trace := trace w ++ [Update i Pending] |})
    /\ text o' = firstLine_of (text o)
    /\ ContentNode_getName o' = Some n
    /\ ContentNode_getContentCheckName o' = EmptyString
    /\ status o' = Pending
    /\ content o' = None.
Proof.
  intros Hi Hc Ht Hn. destruct (instanceof_ContentNode _ Hc) as [He Hr].
  rewrite (reset_eq i w o Hi). unfold reset_obj, reset_events.
  rewrite He, Hr, Hc. cbn [andb].
  assert (Htext : ContentNode_reset_text o = set_text (firstLine_of (text o)) o).
  { unfold ContentNode_reset_text. rewrite Hn, Ht. reflexivity. }
  rewrite Htext. eexists. split; [reflexivity|].
  assert (Hname : ContentNode_getName
                    (reset_base (set_text (firstLine_of (text o)) o)) = Some n).
  { rewrite <- Hn. apply ContentNode_getName_ext; [|reflexivity].
    cbn [text reset_base set_content set_status set_text]. apply firstLine_of_idem. }
  split; [reflexivity|]. split; [exact Hname|].
  split; [|split; reflexivity].
  unfold ContentNode_getContentCheckName. rewrite Hname.
  cbn [text reset_base set_content set_status set_text].
  rewrite firstLine_of_idem. unfold Js.substringFrom.
  replace (String.length (firstLine_of (text o))
           - (String.length (firstLine_of (text o)) + 1))%nat with 0%nat by lia.
  apply substring_none.
Qed.

Lemma X15_reset_witness :
  exists o',
    graph (world (reset (H := example_host None) "o" named_nodes)) !! "o" = Some o'
    /\ text o' = "[answer]"
    /\ ContentNode_getName (H := example_host None) o' = Some "answer".
Proof.
  destruct (X15_reset_keeps_the_name_of_an_output_node (H := example_host None)
              "o" _ "answer" named_nodes eq_refl eq_refl eq_refl eq_refl)
    as (o' & E & Ht & Hn & _).
  exists o'. rewrite E. cbn [world snd graph]. rewrite lookup_insert_eq.
  split; [reflexivity|]. split; [exact Ht | exact Hn].
Defined.

(** ** Lists in markdown *)

Lemma split_join_lines ls :
  ls <> [] ->
  forallb (fun l => negb (has_char (ascii_of_nat 10) l)) ls = true ->
  Js.split (ascii_of_nat 10) (join_lines ls) = ls.
Proof.
  induction ls as [|l ls IH]; intros Hne Hall; [contradiction|].
  cbn [forallb] in Hall. apply andb_true_iff in Hall as [Hl Hall].
  apply negb_true_iff in Hl.
  destruct ls as [|l' ls].
  - cbn [join_lines]. apply split_no_sep, Hl.
  - change (join_lines (l :: l' :: ls))
      with (l +:+ String (ascii_of_nat 10) (join_lines (l' :: ls))).
    rewrite (split_app _ _ _ Hl), IH; [reflexivity|discriminate|exact Hall].
Qed.

Lemma skip_digits_app d r :
  all_digits d = true ->
  skip_digits (d +:+ String "." r) = String "." r.
Proof.
  induction d as [|x d IH]; intros Hd; [reflexivity|].
  cbn [all_digits] in Hd. apply andb_true_iff in Hd as [Hx Hd].
  change (skip_digits (String x (d +:+ String "." r)) = String "." r).
  cbn [skip_digits]. rewrite Hx. exact (IH Hd).
Qed.

Lemma after_number_marker_numbered d item :
  Js.truthy d = true -> all_digits d = true ->
  after_number_marker (d +:+ ". " +:+ item) = Some item.
Proof.
  intros Ht Hd. destruct d as [|x d]; [discriminate|].
  pose proof (skip_digits_app (String x d) (String " " item) Hd) as Hs.
  cbn [all_digits] in Hd. apply andb_true_iff in Hd as [Hx _].
  change (String x d +:+ ". " +:+ item)
    with (String x d +:+ String "." (String " " item)).
  change (String x d +:+ String "." (String " " item))
    with (String x (d +:+ String "." (String " " item))) in Hs |- *.
  unfold after_number_marker. cbv beta iota.
  rewrite Hx, Hs. reflexivity.
Qed.

Lemma startsWith_bullet_numbered d item :
  Js.truthy d = true -> all_digits d = true ->
  Js.startsWith (d +:+ ". " +:+ item) "- " = false.
Proof.
  intros Ht Hd. destruct d as [|x d]; [discriminate|].
  cbn [all_digits] in Hd. apply andb_true_iff in Hd as [Hx _].
  change (String x d +:+ ". " +:+ item) with (String x (d +:+ ". " +:+ item)).
  unfold Js.startsWith. cbn [String.prefix].
  destruct (ascii_dec "-" x) as [<-|_]; [discriminate Hx|reflexivity].
Qed.

Lemma list_line_kept (l : Line) :
  well_formed l = true ->
  (Js.startsWith (render_line l) "- "
   || match after_number_marker (render_line l) with
      | Some _ => true
      | None => false
      end)
  = match item_of l with Some _ => true | None => false end
  /\ forall item, item_of l = Some item ->
       (if Js.startsWith (render_line l) "- "
        then Js.substringFrom (render_line l) 2
        else default (render_line l) (after_number_marker (render_line l)))
       = item.
Proof.
  destruct l as [item|d item|line]; cbn [well_formed render_line item_of]; intros Hw.
  - assert (Hp : Js.startsWith ("- " +:+ item) "- " = true).
    { unfold Js.startsWith.
      change ("- " +:+ item) with (String "-" (String " " item)).
      cbn. destruct item; reflexivity. }
    rewrite Hp. split; [reflexivity|]. intros ? [= <-].
    apply (substringFrom_append "- " item).
  - apply andb_true_iff in Hw as [Hw _]. apply andb_true_iff in Hw as [Ht Hd].
    rewrite (startsWith_bullet_numbered _ _ Ht Hd),
      (after_number_marker_numbered _ _ Ht Hd).
    split; [reflexivity|]. intros ? [= <-]. reflexivity.
  - apply andb_true_iff in Hw as [Hw Hn]. apply andb_true_iff in Hw as [_ Hp].
    apply negb_true_iff in Hp. rewrite Hp.
    destruct (after_number_marker line); [discriminate|].
    split; [reflexivity|]. intros ? [=].
Qed.

(** X16: a markdown list is read back item by item.  When the content
    is not a JSON array, [getListArrayFromContent] returns the items of
    its bullet lines and of its numbered lines, in order and as they
    were written, and drops every other line. *)
Theorem X16_markdown_list_is_read_item_by_item `{Host} (lines : list Line) :
  forallb well_formed lines = true ->
  (forall a, JSON_parse (join_lines (map render_line lines)) <> Some (JArr a)) ->
  getListArrayFromContent (join_lines (map render_line lines))
  = omap item_of lines.
Proof.
  intros Hw Hjson.
  assert (Hgen : forall ls : list Line,
             forallb well_formed ls = true ->
             map (fun item =>
                    if Js.startsWith item "- " then Js.substringFrom item 2
                    else default item (after_number_marker item))
               (List.filter
                  (fun line =>
                     Js.startsWith line "- "
                     || match after_number_marker line with
                        | Some _ => true
                        | None => false
                        end) (map render_line ls))
             = omap item_of ls).
  { induction ls as [|l ls IH]; intros Hall; [reflexivity|].
    cbn [forallb] in Hall. apply andb_true_iff in Hall as [Hl Hall].
    destruct (list_line_kept l Hl) as [Hkeep Hitem].
    assert (Ho : omap item_of (l :: ls)
                 = match item_of l with
                   | Some y => y :: omap item_of ls
                   | None => omap item_of ls
                   end) by reflexivity.
    rewrite Ho. cbn [map List.filter]. rewrite Hkeep.
    destruct (item_of l) as [item|] eqn:E.
    - cbn [map]. rewrite (Hitem item eq_refl), (IH Hall). reflexivity.
    - exact (IH Hall). }
  assert (Hlines : getListArrayFromContent (join_lines (map render_line lines))
                   = map (fun item =>
                            if Js.startsWith item "- " then Js.substringFrom item 2
                            else default item (after_number_marker item))
                       (List.filter
                          (fun line =>
                             Js.startsWith line "- "
                             || match after_number_marker line with
                                | Some _ => true
                                | None => false
                                end)
                          (Js.split (ascii_of_nat 10)
                             (join_lines (map render_line lines))))).
  { unfold getListArrayFromContent.
    destruct (JSON_parse (join_lines (map render_line lines))) as [[]|] eqn:E;
      try reflexivity.
    exfalso. exact (Hjson _ eq_refl). }
  rewrite Hlines. destruct lines as [|l lines]; [reflexivity|].
  rewrite split_join_lines; [exact (Hgen _ Hw)|discriminate|].
  clear -Hw. induction (l :: lines) as [|x xs IH]; [reflexivity|].
  cbn [forallb map] in Hw |- *. apply andb_true_iff in Hw as [Hx Hw].
  rewrite (IH Hw), andb_true_r.
  destruct x as [item|d item|line]; cbn [well_formed render_line] in Hx |- *.
  - exact Hx.
  - apply andb_true_iff in Hx as [Hx Hi]. apply andb_true_iff in Hx as [_ Hd].
    apply negb_true_iff. apply negb_true_iff in Hi.
    clear -Hd Hi. induction d as [|c d IHd]; [exact Hi|].
    cbn [all_digits] in Hd. apply andb_true_iff in Hd as [Hc Hd].
    change (has_char (ascii_of_nat 10) (String c (d +:+ ". " +:+ item)) = false).
    cbn [has_char]. rewrite (IHd Hd), orb_false_r.
    destruct (Ascii.eqb_spec c (ascii_of_nat 10)) as [->|_];
      [discriminate Hc|reflexivity].
  - apply andb_true_iff in Hx as [Hx _]. apply andb_true_iff in Hx as [Hx _].
    exact Hx.
Qed.

Lemma X16_markdown_list_witness :
  getListArrayFromContent (H := example_host None)
    (join_lines (map render_line shopping_list))
  = ["milk"; "eggs"; "tea"].
Proof.
  apply (X16_markdown_list_is_read_item_by_item (H := example_host None)
           shopping_list eq_refl).
  intros a. vm_compute. discriminate.
Defined.

(** ** Choices *)

Lemma after_choice_idem choice o :
  after_choice choice (after_choice choice o) = after_choice choice o.
Proof.
  unfold after_choice. destruct (unselected choice o) eqn:E; [|rewrite E; reflexivity].
  replace (unselected choice (set_status Rejected o)) with true by (symmetry; exact E).
  reflexivity.
Qed.

Lemma rejectUnselectedOptions_body choice e w o :
  graph w !! ref_id e = Some o ->
  exists w1,
    (edgeObject ← get_obj (ref_id e);
     if bool_decide (type edgeObject = Some (TEdge EdgeType.Choice)) then
       if negb (strict_eq_string (text edgeObject) choice)
       then reject (ref_id e)
       else ret tt
     else ret tt) w = (inr tt, w1)
    /\ forall j, graph w1 !! j
                 = if bool_decide (j = ref_id e) then Some (after_choice choice o)
                   else graph w !! j.
Proof.
  intros Ho. rewrite (bind_inr _ _ _ _ _ (get_obj_Some _ w o Ho)).
  unfold after_choice, unselected.
  destruct (bool_decide (type o = Some (TEdge EdgeType.Choice)));
    [destruct (negb (strict_eq_string (text o) choice))|]; cbn [andb].
  - rewrite (reject_eq _ _ _ Ho). eexists. split; [reflexivity|].
    intros j. cbn [graph]. case_bool_decide as Hj.
    + subst j. apply lookup_insert_eq.
    + apply lookup_insert_ne. congruence.
  - exists w. split; [reflexivity|]. intros j. case_bool_decide as Hj; congruence.
  - exists w. split; [reflexivity|]. intros j. case_bool_decide as Hj; congruence.
Qed.

Lemma rejectUnselectedOptions_loop choice es :
  forall w,
    forallb (fun e => bool_decide (is_Some (graph w !! ref_id e))) es = true ->
    exists w',
      for_of es (fun edge =>
        edgeObject ← get_obj (ref_id edge);
        if bool_decide (type edgeObject = Some (TEdge EdgeType.Choice)) then
          if negb (strict_eq_string (text edgeObject) choice)
          then reject (ref_id edge)
          else ret tt
        else ret tt) w = (inr tt, w')
      /\ forall j, graph w' !! j
                   = if bool_decide (j ∈ map ref_id es)
                     then after_choice choice <$> graph w !! j
                     else graph w !! j.
Proof.
  induction es as [|e es IH]; intros w Hall.
  - exists w. split; [reflexivity|]. intros j.
    rewrite bool_decide_eq_false_2; [reflexivity|]. cbn. apply not_elem_of_nil.
  - cbn [forallb] in Hall. apply andb_true_iff in Hall as [He Hall].
    apply bool_decide_eq_true_1 in He as [o Ho].
    destruct (rejectUnselectedOptions_body choice e w o Ho) as (w1 & E1 & H1).
    assert (Hall1 : forallb (fun e => bool_decide (is_Some (graph w1 !! ref_id e))) es
                    = true).
    { apply forallb_forall. intros e' He'.
      rewrite forallb_forall in Hall. specialize (Hall e' He').
      apply bool_decide_eq_true_1 in Hall. apply bool_decide_eq_true_2.
      rewrite H1. case_bool_decide; [eauto|exact Hall]. }
    destruct (IH w1 Hall1) as (w' & E' & H').
    exists w'. split.
    + cbn [for_of]. unfold bind at 1. rewrite E1. exact E'.
    + intros j. rewrite H', !H1. cbn [map].
      destruct (decide (j = ref_id e)) as [->|Hne].
      * rewrite (bool_decide_eq_true_2 (ref_id e = ref_id e) eq_refl).
        rewrite (bool_decide_eq_true_2 (ref_id e ∈ ref_id e :: map ref_id es))
          by (apply elem_of_cons; left; reflexivity).
        rewrite Ho. cbn. rewrite after_choice_idem.
        destruct (bool_decide (ref_id e ∈ map ref_id es)); reflexivity.
      * rewrite (bool_decide_eq_false_2 (j = ref_id e) Hne).
        destruct (decide (j ∈ map ref_id es)) as [Hin|Hnin].
        -- rewrite (bool_decide_eq_true_2 _ Hin).
           rewrite (bool_decide_eq_true_2 (j ∈ ref_id e :: map ref_id es))
             by (apply elem_of_cons; right; exact Hin).
           reflexivity.
        -- rewrite (bool_decide_eq_false_2 _ Hnin).
           rewrite (bool_decide_eq_false_2 (j ∈ ref_id e :: map ref_id es));
             [reflexivity|].
           intros [?|?]%elem_of_cons; contradiction.
Qed.

(** X17: what a choice rejects.  On a node whose outgoing edges exist,
    [rejectUnselectedOptions] returns; it sets to Rejected every
    outgoing edge of type Choice whose label is not the chosen string,
    and leaves every other object of the graph, the chosen edges and
    the edges of other types among them, as it was.  A choice that is
    not a string rejects every choice edge. *)
Theorem X17_rejectUnselectedOptions_rejects_the_others
    (this : string) (t : CannoliObject) (choice : option Json) (w : World) :
  graph w !! this = Some t ->
  forallb (fun e => bool_decide (is_Some (graph w !! ref_id e)))
    (outgoingEdges t) = true ->
  exists w',
    rejectUnselectedOptions this choice w = (inr tt, w')
    /\ forall j,
         graph w' !! j
         = if bool_decide (j ∈ map ref_id (outgoingEdges t))
           then after_choice choice <$> graph w !! j
           else graph w !! j.
Proof.
  intros Ht Hall. unfold rejectUnselectedOptions.
  rewrite (bind_inr _ _ _ _ _ (get_obj_Some _ w t Ht)).
  exact (rejectUnselectedOptions_loop choice (outgoingEdges t) w Hall).
Qed.

Lemma X17_rejectUnselectedOptions_witness :
  exists w',
    rejectUnselectedOptions "q" None choice_node
    = (inr tt, w')
    /\ (status <$> graph w' !! "a") = Some Rejected
    /\ (status <$> graph w' !! "b") = Some Rejected
    /\ (status <$> graph w' !! "c") = Some Rejected
    /\ graph w' !! "q" = graph choice_node !! "q".
Proof.
  destruct (X17_rejectUnselectedOptions_rejects_the_others
              "q" _ None choice_node eq_refl eq_refl)
    as (w' & E & Hw').
  exists w'. split; [exact E|].
  rewrite !Hw'. repeat split.
Defined.

(** X18: a response without a usable choice touches no branch.  When
    the last message of the request carries no function call, or one
    without arguments, [ChooseNode.loadOutgoingEdges] reports the error
    on the node, which is Rejected, and returns; when the arguments are
    not JSON, the [SyntaxError] of [JSON.parse] leaves the method and
    the store is as it was, the node not Rejected.  In both cases no
    outgoing edge is loaded and none is rejected. *)
Theorem X18_choose_node_without_a_choice `{Host}
    (this : string) (t : CannoliObject) (content : string) (r : Request)
    (ms : list Msg.t) (m : Msg.t) (w : World) :
  graph w !! this = Some t ->
  req_messages r = Some ms ->
  last ms = Some m ->
  (Js.truthy (choiceFunctionArgs_of m) = true ->
   JSON_parse (choiceFunctionArgs_of m) = None) ->
  ChooseNode_loadOutgoingEdges this content r w
  = if Js.truthy (choiceFunctionArgs_of m)
    then (inl SyntaxError, w)
    else (inr tt,
          {| graph := <[this := set_status Rejected t]> (graph w);
             trace := trace w
                      ++ [ErrorReported this "Choice function call has no arguments.";
                          Update this Rejected] |}).
Proof.
  intros Ht Hms Hlast Hjson. unfold ChooseNode_loadOutgoingEdges.
  rewrite Hms, Hlast. fold (choiceFunctionArgs_of m).
  destruct (Js.truthy (choiceFunctionArgs_of m)); cbn [negb].
  - rewrite (Hjson eq_refl). reflexivity.
  - unfold error. unfold_m. cbn.
    rewrite (alter_alt_Some _ _ _ _ Ht), <- app_assoc. reflexivity.
Qed.

Lemma X18_choose_node_witness :
  exists w',
    ChooseNode_loadOutgoingEdges (H := example_host None) "q" "B, I think."
      request_without_call choice_node = (inr tt, w')
    /\ (status <$> graph w' !! "q") = Some Rejected
    /\ graph w' !! "b" = graph choice_node !! "b".
Proof.
  eexists.
  rewrite (X18_choose_node_without_a_choice (H := example_host None)
             "q" _ "B, I think." request_without_call _ _ choice_node
             eq_refl eq_refl eq_refl ltac:(discriminate)).
  cbn [Js.truthy choiceFunctionArgs_of Msg.function_call].
  split; [reflexivity|]. split; reflexivity.
Defined.

(** ** What [loadOutgoingEdges] leaves alone *)

Lemma keeps_same_world {A} P (m : M A) :
  (forall w, snd (m w) = w) -> keeps P m.
Proof. intros Hm w Hw. rewrite Hm. exact Hw. Qed.

Lemma keeps_untouched_modify ids w0 i f :
  i ∈ ids -> keeps (untouched_outside ids w0) (modify i f).
Proof.
  intros Hi w Hw j Hj. cbn. rewrite lookup_alter_ne; [exact (Hw j Hj)|].
  intros ->. contradiction.
Qed.

Lemma keeps_untouched_emit ids w0 e : keeps (untouched_outside ids w0) (emit e).
Proof. apply keeps_emit. intros w Hw. exact Hw. Qed.

Lemma keeps_untouched_reject ids w0 i :
  i ∈ ids -> keeps (untouched_outside ids w0) (reject i).
Proof.
  intros Hi. unfold reject.
  apply keeps_bind; [apply keeps_untouched_emit|intros _].
  apply keeps_bind; [apply keeps_untouched_modify, Hi|intros _].
  apply keeps_untouched_emit.
Qed.

Lemma keeps_untouched_load `{Host} ids w0 i c r :
  (forall i c r w j,
     j <> i -> graph (snd (ChatResponseEdge_load i c r w)) !! j = graph w !! j) ->
  i ∈ ids -> keeps (untouched_outside ids w0) (load i c r).
Proof.
  intros HCR Hi. unfold load.
  apply keeps_bind; [apply keeps_untouched_emit|intros _].
  apply keeps_bind; [apply keeps_get_obj|intros o].
  assert (Hplain : keeps (untouched_outside ids w0) (CannoliEdge_load i c r)).
  { unfold CannoliEdge_load.
    apply keeps_bind; [apply keeps_untouched_modify, Hi|intros _].
    apply keeps_bind; [apply keeps_get_obj|intros t].
    destruct (addMessages t); [apply keeps_untouched_modify, Hi|apply keeps_ret]. }
  destruct (cls o); try exact Hplain.
  - unfold ChatConverterEdge_load.
    apply keeps_bind.
    + apply keeps_same_world. intros w.
      repeat match goal with
             | |- context [match ?x with _ => _ end] => destruct x
             end; reflexivity.
    + intros p. apply keeps_bind; [|intros _]; apply keeps_untouched_modify, Hi.
  - unfold SystemMessageEdge_load.
    destruct (Content_truthy c); [apply keeps_untouched_modify, Hi|apply keeps_ret].
  - unfold LoggingEdge_load. destruct r as [request|].
    + apply keeps_bind; [apply keeps_get_obj|intros t].
      apply keeps_bind; [apply keeps_same_world; reflexivity|intros ?].
      apply keeps_bind; [apply keeps_same_world; reflexivity|intros ?].
      destruct (content t); apply keeps_untouched_modify, Hi.
    + apply keeps_same_world. reflexivity.
  - intros w Hw j Hj. rewrite HCR; [exact (Hw j Hj)|].
    intros ->. contradiction.
Qed.

Lemma keeps_untouched_loop `{Host} ids w0 t content request listItems :
  (forall i c r w j,
     j <> i -> graph (snd (ChatResponseEdge_load i c r w)) !! j = graph w !! j) ->
  forall es itemIndex,
    (forall e, e ∈ es -> ref_id e ∈ ids) ->
    keeps (untouched_outside ids w0)
      (loadOutgoingEdges_loop t content request listItems es itemIndex).
Proof.
  intros HCR. induction es as [|e es IH]; intros itemIndex Hes;
    cbn [loadOutgoingEdges_loop]; [apply keeps_ret|].
  assert (He : ref_id e ∈ ids) by (apply Hes; left).
  assert (Hrest : forall k, keeps (untouched_outside ids w0)
                              (loadOutgoingEdges_loop t content request listItems es k)).
  { intros k. apply IH. intros e' He'. apply Hes. right. exact He'. }
  apply keeps_bind; [apply keeps_same_world; reflexivity|intros edgeObject].
  apply keeps_bind.
  - apply keeps_same_world. intros w.
    repeat match goal with
           | |- context [match ?x with _ => _ end] => destruct x
           end; reflexivity.
  - intros contentToLoad. destruct edgeObject as [eo|]; [|apply Hrest].
    destruct (instanceof (cls eo) CannoliEdge
              && negb (instanceof (cls eo) ChatResponseEdge) && negb (is_Item eo)).
    + apply keeps_bind; [apply (keeps_untouched_load _ _ _ _ _ HCR He)|intros _].
      apply Hrest.
    + destruct (instanceof (cls eo) CannoliEdge && is_Item eo); [|apply Hrest].
      destruct (listItems !! itemIndex) as [item|].
      * destruct (Js.truthy item).
        -- apply keeps_bind; [apply (keeps_untouched_load _ _ _ _ _ HCR He)|intros _].
           apply Hrest.
        -- apply keeps_bind; [apply keeps_untouched_reject, He|intros _].
           apply Hrest.
      * apply keeps_bind; [apply keeps_untouched_reject, He|intros _].
        apply Hrest.
Qed.

(** X19: [loadOutgoingEdges] touches the outgoing edges of the node
    and nothing else.  Whatever the content and the request, and also
    when a [load] throws on the way, every object of the graph that is
    not an outgoing edge of the node, the node itself among them, is
    left as it was; this holds when the [load] of a chat-response edge
    touches that edge only. *)
Theorem X19_loadOutgoingEdges_touches_outgoing_edges_only `{Host}
    (this : string) (t : CannoliObject) (content : string)
    (request : option Request) (w : World) (j : string) :
  (forall i c r w j,
     j <> i -> graph (snd (ChatResponseEdge_load i c r w)) !! j = graph w !! j) ->
  graph w !! this = Some t ->
  j ∉ map ref_id (outgoingEdges t) ->
  graph (world (CannoliNode_loadOutgoingEdges this content request w)) !! j
  = graph w !! j.
Proof.
  intros HCR Ht Hj. unfold CannoliNode_loadOutgoingEdges.
  rewrite (bind_inr _ _ _ _ _ (get_obj_Some _ w t Ht)).
  destruct (listItems_of (graph w) t content) as [e|listItems] eqn:El.
  - unfold mbind, M_bind, bind, lift. rewrite El. reflexivity.
  - rewrite (bind_inr _ _ w listItems w)
      by (unfold lift; rewrite El; reflexivity).
    exact (keeps_untouched_loop (map ref_id (outgoingEdges t)) w t content request
             listItems HCR (outgoingEdges t) 0%nat
             (fun e He => list_elem_of_fmap_2 ref_id _ e He)
             w (fun _ _ => eq_refl) j Hj).
Qed.

Lemma CannoliEdge_load_touches_the_edge_only i c r w j :
  j <> i -> graph (snd (CannoliEdge_load i c r w)) !! j = graph w !! j.
Proof.
  intros Hj. unfold CannoliEdge_load. unfold_m. cbn.
  destruct (alter _ i (graph w) !! i) as [t|]; [|cbn; apply lookup_alter_ne; congruence].
  destruct (addMessages t); cbn; rewrite ?lookup_alter_ne by congruence; reflexivity.
Qed.

Lemma X19_loadOutgoingEdges_witness :
  graph (world (CannoliNode_loadOutgoingEdges (H := example_host None)
                  "n" abc_json None node_with_items)) !! "n"
  = graph node_with_items !! "n".
Proof.
  apply (X19_loadOutgoingEdges_touches_outgoing_edges_only
           (H := example_host None) "n" _ abc_json None node_with_items "n"
           CannoliEdge_load_touches_the_edge_only eq_refl).
  apply (proj1 (bool_decide_eq_false _)). reflexivity.
Defined.

(** ** The first pass of the factory *)

Lemma fold_left_left_by {A} (step : gmap string Parsed -> A -> gmap string Parsed)
    (parsed : A -> option Parsed) (key : A -> string) :
  (forall g x, step g x = match parsed x with
                          | Some o => <[key x := o]> g
                          | None => g
                          end) ->
  forall l g i o,
    fold_left step l g !! i = Some o -> left_by parsed key l g i o.
Proof.
  intros Hstep. induction l as [|x l IH]; intros g i o Hlook.
  - left. split; [exact Hlook|]. intros x Hx. inversion Hx.
  - cbn [fold_left] in Hlook. destruct (IH _ _ _ Hlook) as [[Hg Hnone]|(y & Hy & Hk & Hp)].
    + rewrite Hstep in Hg. destruct (parsed x) as [ox|] eqn:Ex.
      * destruct (decide (key x = i)) as [Hi|Hi].
        -- subst i. rewrite lookup_insert_eq in Hg. injection Hg as <-.
           right. exists x. split; [left|split; [reflexivity|exact Ex]].
        -- rewrite lookup_insert_ne in Hg by exact Hi.
           left. split; [exact Hg|]. intros y [->|Hy]%elem_of_cons Hk;
             [contradiction|exact (Hnone y Hy Hk)].
      * left. split; [exact Hg|]. intros y [->|Hy]%elem_of_cons Hk;
          [exact Ex|exact (Hnone y Hy Hk)].
    + right. exists y. split; [right; exact Hy|split; [exact Hk|exact Hp]].
Qed.

Lemma initialParse_node_step g node :
  initialParse_node g node
  = match parsed_node node with
    | Some o => <[Canvas.n_id node := o]> g
    | None => g
    end.
Proof.
  unfold parsed_node, initialParse_node.
  repeat match goal with
         | |- context [if ?b then _ else _] => destruct b
         end;
    rewrite ?lookup_insert_eq, ?lookup_empty; reflexivity.
Qed.

Lemma initialParse_edge_step g edge :
  initialParse_edge g edge
  = match parsed_edge edge with
    | Some o => <[Canvas.e_id edge := o]> g
    | None => g
    end.
Proof.
  unfold parsed_edge, initialParse_edge.
  destruct (bool_decide (Canvas.e_color edge = Some "1"));
    rewrite ?lookup_insert_eq, ?lookup_empty; reflexivity.
Qed.

Lemma substring_split n s :
  (n <= String.length s)%nat ->
  String.substring 0 n s +:+ String.substring n (String.length s - n) s = s.
Proof.
  revert s. induction n as [|n IH]; intros s Hn.
  - rewrite Nat.sub_0_r, substring_all. destruct s; reflexivity.
  - destruct s as [|c s]; [cbn in Hn; lia|].
    cbn [String.length] in Hn |- *.
    change (String c (String.substring 0 n s
                      +:+ String.substring n (String.length s - n) s)
            = String c s).
    rewrite IH by lia. reflexivity.
Qed.

Lemma endsWith_md fileName :
  Js.endsWith fileName ".md" = true ->
  fileName = Js.sliceBack fileName 0 3 +:+ ".md".
Proof.
  unfold Js.endsWith, Js.sliceBack. cbn [String.length].
  intros [Hlen Heq]%andb_true_iff.
  apply Nat.leb_le in Hlen. apply String.eqb_eq in Heq.
  rewrite Nat.sub_0_r.
  rewrite <- (substring_split (String.length fileName - 3) fileName) at 1 by lia.
  replace (String.length fileName - (String.length fileName - 3))%nat
    with 3%nat by lia.
  rewrite Heq. reflexivity.
Qed.

Lemma parsed_node_Some node o :
  parsed_node node = Some o ->
  exists t,
    o = new_CannoliVertex (Canvas.n_id node) t false node
    /\ Canvas.n_color node <> Some "1"
    /\ (Canvas.n_type node = "file" ->
        exists name,
          List.last (Js.split "/" (Canvas.n_file node)) EmptyString
          = name +:+ ".md"
          /\ t = ">[[" +:+ name +:+ "]]").
Proof.
  unfold parsed_node, initialParse_node.
  case_bool_decide as Hred; [rewrite lookup_empty; discriminate|].
  destruct (String.eqb_spec (Canvas.n_type node) "text") as [Et|_].
  { rewrite lookup_insert_eq. intros [= <-]. eexists.
    split; [reflexivity|]. split; [exact Hred|]. rewrite Et. discriminate. }
  destruct (String.eqb_spec (Canvas.n_type node) "link") as [El|_].
  { rewrite lookup_insert_eq. intros [= <-]. eexists.
    split; [reflexivity|]. split; [exact Hred|]. rewrite El. discriminate. }
  destruct (String.eqb_spec (Canvas.n_type node) "file") as [_|Ef].
  - destruct (Js.endsWith _ ".md") eqn:Emd; [|rewrite lookup_empty; discriminate].
    rewrite lookup_insert_eq. intros [= <-]. eexists.
    split; [reflexivity|]. split; [exact Hred|]. intros _.
    eexists. split; [exact (endsWith_md _ Emd)|reflexivity].
  - rewrite lookup_insert_eq. intros [= <-]. eexists.
    split; [reflexivity|]. split; [exact Hred|]. intros E. contradiction.
Qed.

Lemma parsed_edge_spec edge :
  parsed_edge edge
  = if bool_decide (Canvas.e_color edge = Some "1") then None
    else Some (new_CannoliEdge (Canvas.e_id edge)
                 (default EmptyString (Canvas.e_label edge)) false edge
                 (Canvas.e_fromNode edge) (Canvas.e_toNode edge)).
Proof.
  unfold parsed_edge, initialParse_edge.
  destruct (bool_decide (Canvas.e_color edge = Some "1"));
    rewrite ?lookup_insert_eq, ?lookup_empty; reflexivity.
Qed.

(** X20: what [initialParse] keeps of a canvas.  Every object of the
    graph is made from an element of the canvas that has its id and
    is not red.  A vertex is there only if every edge of the canvas
    with the same id is red, as edges are read after nodes; a vertex
    made from a file node stands for a markdown file and its text is
    the file name without the extension, in the form of a note
    reference.  An edge carries the label and the two ends of its
    canvas edge. *)
Theorem X20_initialParse_keeps_what_is_not_red
    (nodes : list Canvas.NodeData) (edges : list Canvas.EdgeData)
    (i : string) (o : Parsed) :
  initialParse nodes edges !! i = Some o ->
  match o with
  | new_CannoliVertex i' t clone node =>
      i' = i /\ clone = false /\ node ∈ nodes /\ Canvas.n_id node = i
      /\ Canvas.n_color node <> Some "1"
      /\ (forall e, e ∈ edges -> Canvas.e_id e = i -> Canvas.e_color e = Some "1")
      /\ (Canvas.n_type node = "file" ->
          exists name,
            List.last (Js.split "/" (Canvas.n_file node)) EmptyString
            = name +:+ ".md"
            /\ t = ">[[" +:+ name +:+ "]]")
  | new_CannoliEdge i' t clone edge s tg =>
      i' = i /\ clone = false /\ edge ∈ edges /\ Canvas.e_id edge = i
      /\ Canvas.e_color edge <> Some "1"
      /\ t = default EmptyString (Canvas.e_label edge)
      /\ s = Canvas.e_fromNode edge /\ tg = Canvas.e_toNode edge
  end.
Proof.
  unfold initialParse. intros Hlook.
  destruct (fold_left_left_by initialParse_edge parsed_edge Canvas.e_id
              initialParse_edge_step _ _ _ _ Hlook)
    as [[Hnodes Hred]|(e & He & Hk & Hp)].
  - destruct (fold_left_left_by initialParse_node parsed_node Canvas.n_id
                initialParse_node_step _ _ _ _ Hnodes)
      as [[Hempty _]|(n & Hn & Hk & Hp)].
    { rewrite lookup_empty in Hempty. discriminate. }
    destruct (parsed_node_Some _ _ Hp) as (t & -> & Hcolor & Hfile).
    split; [exact Hk|]. split; [reflexivity|]. split; [exact Hn|].
    split; [exact Hk|]. split; [exact Hcolor|]. split; [|exact Hfile].
    intros e He Hke. specialize (Hred e He Hke). rewrite parsed_edge_spec in Hred.
    case_bool_decide as Hc; [exact Hc|discriminate].
  - rewrite parsed_edge_spec in Hp. case_bool_decide as Hc; [discriminate|].
    injection Hp as <-. repeat split; try assumption.
Qed.

Lemma X20_initialParse_witness :
  exists node,
    initialParse example_canvas_nodes example_canvas_edges !! "n1"
    = Some (new_CannoliVertex "n1" ">[[Plan]]" false node)
    /\ node ∈ example_canvas_nodes
    /\ initialParse example_canvas_nodes example_canvas_edges !! "n2" = None
    /\ initialParse example_canvas_nodes example_canvas_edges !! "n3" = None
    /\ initialParse example_canvas_nodes example_canvas_edges !! "e2" = None.
Proof.
  eexists. split; [vm_compute; reflexivity|]. split; [|repeat split].
  exact (proj1 (proj2 (proj2
           (X20_initialParse_keeps_what_is_not_red example_canvas_nodes
              example_canvas_edges "n1" _ eq_refl)))).
Defined.

(** ** The variables of a node *)

Lemma prefer_reflexive_among (P : VariableValue -> Prop) g variables :
  forall selectedVariable,
    Forall P variables -> P selectedVariable ->
    P (fst (prefer_reflexive g variables selectedVariable)).
Proof.
  induction variables as [|v vs IH]; intros sel Hvs Hsel; [exact Hsel|].
  apply Forall_cons in Hvs as [Hv Hvs]. cbn [prefer_reflexive].
  destruct (no_edgeId v); [exact Hv|].
  destruct (is_reflexive_edge (edge_of g v)).
  - destruct (content_not_empty (edge_of g v)); [exact Hv|].
    apply IH; assumption.
  - apply IH; assumption.
Qed.

Lemma error_eq this msg w :
  error this msg w
  = (inr tt, {| graph := alter (set_status Rejected) this (graph w);
                trace := trace w ++ [ErrorReported this msg; Update this Rejected] |}).
Proof. unfold error. unfold_m. cbn. rewrite <- app_assoc. reflexivity. Qed.

Lemma first_non_reflexive_among (P : VariableValue -> Prop) this name variables :
  forall selectedVariable w,
    Forall P variables -> P selectedVariable ->
    exists v w',
      first_non_reflexive this name variables selectedVariable w = (inr v, w')
      /\ P v
      /\ (forallb (fun v => negb (no_edgeId v)) variables = true -> w' = w)
      /\ (forall j, j <> this -> graph w' !! j = graph w !! j).
Proof.
  induction variables as [|x xs IH]; intros sel w Hxs Hsel.
  - exists sel, w. repeat split; exact Hsel.
  - apply Forall_cons in Hxs as [Hx Hxs]. cbn [first_non_reflexive].
    destruct (no_edgeId x) eqn:Ex.
    + rewrite (bind_inr _ _ _ _ _ (error_eq this _ w)).
      destruct (IH sel {| graph := alter (set_status Rejected) this (graph w);
                          trace := trace w
                                   ++ [ErrorReported this
                                         ("Variable " +:+ name +:+ " has no edgeId");
                                       Update this Rejected] |} Hxs Hsel)
        as (v & w' & E & Hv & _ & Hframe).
      exists v, w'. split; [exact E|]. split; [exact Hv|]. split.
      * cbn [forallb]. rewrite Ex. discriminate.
      * intros j Hj. rewrite (Hframe j Hj). cbn [graph].
        apply lookup_alter_ne. congruence.
    + rewrite (bind_inr _ _ w (edge_of (graph w) x) w) by reflexivity.
      destruct (negb (is_reflexive_edge (edge_of (graph w) x))).
      * exists x, w. repeat split; exact Hx.
      * destruct (IH sel w Hxs Hsel) as (v & w' & E & Hv & Hsame & Hframe).
        exists v, w'. split; [exact E|]. split; [exact Hv|]. split; [|exact Hframe].
        cbn [forallb]. rewrite Ex. exact Hsame.
Qed.

Lemma named_among name variableValues :
  Forall (fun v => v ∈ variableValues /\ v_name v = name)
    (named name variableValues).
Proof.
  unfold named. apply Forall_forall. intros v Hv.
  apply list_elem_of_In, filter_In in Hv as [Hin Hn].
  split; [apply list_elem_of_In, Hin|apply String.eqb_eq, Hn].
Qed.

Lemma named_all_edgeId name variableValues :
  forallb (fun v => negb (no_edgeId v)) variableValues = true ->
  forallb (fun v => negb (no_edgeId v)) (named name variableValues) = true.
Proof.
  intros Hall. apply forallb_forall. intros v Hv.
  apply filter_In in Hv as [Hin _].
  rewrite forallb_forall in Hall. exact (Hall v Hin).
Qed.

Lemma resolveVariableConflicts_loop_spec this variableValues names :
  forall finalVariables w,
    forallb (fun n => existsb (fun v => String.eqb (v_name v) n) variableValues)
      names = true ->
    exists selected w',
      resolveVariableConflicts_loop this names variableValues finalVariables w
      = (inr (finalVariables ++ selected), w')
      /\ map v_name selected = names
      /\ Forall (fun v => v ∈ variableValues) selected
      /\ (forallb (fun v => negb (no_edgeId v)) variableValues = true -> w' = w)
      /\ (forall j, j <> this -> graph w' !! j = graph w !! j).
Proof.
  induction names as [|n names IH]; intros acc w Hnames.
  - exists [], w. rewrite app_nil_r. repeat split; constructor.
  - cbn [forallb] in Hnames. apply andb_true_iff in Hnames as [Hn Hnames].
    cbn [resolveVariableConflicts_loop]. fold (named n variableValues).
    pose proof (named_among n variableValues) as Hamong.
    destruct (named n variableValues) as [|first vs] eqn:Evs.
    { exfalso. apply existsb_exists in Hn as (v & Hv & Hvn).
      assert (Hin : In v (named n variableValues))
        by (apply filter_In; split; assumption).
      rewrite Evs in Hin. exact Hin. }
    rewrite (bind_inr _ _ w (prefer_reflexive (graph w) (first :: vs) first) w)
      by reflexivity.
    set (p := prefer_reflexive (graph w) (first :: vs) first).
    assert (Hp : fst p ∈ variableValues /\ v_name (fst p) = n).
    { apply (prefer_reflexive_among _ _ _ _ Hamong).
      apply Forall_cons in Hamong as [Hfirst _]. exact Hfirst. }
    assert (Hsel : exists v w1,
               (if negb (snd p) && String.eqb (v_content (fst p)) EmptyString
                then first_non_reflexive this n (first :: vs) (fst p)
                else ret (fst p)) w = (inr v, w1)
               /\ (v ∈ variableValues /\ v_name v = n)
               /\ (forallb (fun v => negb (no_edgeId v)) variableValues = true ->
                   w1 = w)
               /\ (forall j, j <> this -> graph w1 !! j = graph w !! j)).
    { destruct (negb (snd p) && String.eqb (v_content (fst p)) EmptyString).
      - destruct (first_non_reflexive_among _ this n _ (fst p) w Hamong Hp)
          as (v & w1 & E & Hv & Hsame & Hframe).
        exists v, w1. split; [exact E|]. split; [exact Hv|]. split; [|exact Hframe].
        intros Hall. apply Hsame. rewrite <- Evs. apply named_all_edgeId, Hall.
      - exists (fst p), w. repeat split; apply Hp. }
    destruct Hsel as (v & w1 & E & [Hvin Hvn] & Hsame & Hframe).
    rewrite (bind_inr _ _ _ _ _ E).
    destruct (IH (acc ++ [v]) w1 Hnames) as (sel & w' & E' & Hmap & Hall & Hsame' & Hframe').
    exists (v :: sel), w'. split; [|split; [|split; [|split]]].
    + rewrite E', <- app_assoc. reflexivity.
    + cbn [map]. rewrite Hvn, Hmap. reflexivity.
    + constructor; assumption.
    + intros Hids. rewrite (Hsame' Hids). exact (Hsame Hids).
    + intros j Hj. rewrite (Hframe' j Hj). exact (Hframe j Hj).
Qed.

(** X21: [resolveVariableConflicts] keeps one variable of every name.
    When no variable is named like an inherited property and [names]
    enumerates names of the variables, the method returns; its result
    holds, for every name in turn, one of the variables given under
    that name.  It touches no object other than the node, and when
    every variable is carried by an edge it reports no error and
    leaves the store as it was. *)
Theorem X21_resolveVariableConflicts_keeps_one_per_name
    (this : string) (names : list string)
    (variableValues : list VariableValue) (w : World) :
  existsb (fun v => bool_decide (v_name v ∈ Object_prototype_keys))
    variableValues = false ->
  forallb (fun n => existsb (fun v => String.eqb (v_name v) n) variableValues)
    names = true ->
  exists finalVariables w',
    resolveVariableConflicts this names variableValues w
    = (inr finalVariables, w')
    /\ map v_name finalVariables = names
    /\ Forall (fun v => v ∈ variableValues) finalVariables
    /\ (forallb (fun v => negb (no_edgeId v)) variableValues = true -> w' = w)
    /\ (forall j, j <> this -> graph w' !! j = graph w !! j).
Proof.
  intros Hkeys Hnames. unfold resolveVariableConflicts. rewrite Hkeys.
  exact (resolveVariableConflicts_loop_spec this variableValues names [] w Hnames).
Qed.

Lemma X21_resolveVariableConflicts_witness :
  exists finalVariables,
    resolveVariableConflicts "n" ["x"; "y"] example_variables node_with_variables
    = (inr finalVariables, node_with_variables)
    /\ map v_name finalVariables = ["x"; "y"].
Proof.
  destruct (X21_resolveVariableConflicts_keeps_one_per_name "n" ["x"; "y"]
              example_variables node_with_variables eq_refl eq_refl)
    as (finals & w' & E & Hnames & _ & Hsame & _).
  exists finals. rewrite <- (Hsame eq_refl) at 2. split; [exact E | exact Hnames].
Defined.

Lemma same_edge_data_refl w : same_edge_data w w.
Proof. intros i. split; reflexivity. Qed.

Lemma same_edge_data_edge_of w0 w v :
  same_edge_data w0 w ->
  is_reflexive_edge (edge_of (graph w) v) = is_reflexive_edge (edge_of (graph w0) v)
  /\ content_not_empty (edge_of (graph w) v)
     = content_not_empty (edge_of (graph w0) v).
Proof.
  intros Hw. unfold edge_of. destruct (v_edgeId v) as [i|]; [apply Hw|].
  split; reflexivity.
Qed.

Lemma same_edge_data_error w0 w this msg :
  same_edge_data w0 w -> same_edge_data w0 (snd (error this msg w)).
Proof.
  intros Hw i. rewrite error_eq. cbn [snd graph].
  destruct (decide (i = this)) as [->|Hi].
  - rewrite lookup_alter_eq. destruct (Hw this) as [H1 H2].
    rewrite <- H1, <- H2. destruct (graph w !! this); split; reflexivity.
  - rewrite lookup_alter_ne by congruence. apply Hw.
Qed.

Lemma prefer_reflexive_ext w0 w variables :
  same_edge_data w0 w ->
  forall selectedVariable,
    prefer_reflexive (graph w) variables selectedVariable
    = prefer_reflexive (graph w0) variables selectedVariable.
Proof.
  intros Hw. induction variables as [|v vs IH]; intros sel; [reflexivity|].
  cbn [prefer_reflexive].
  destruct (same_edge_data_edge_of w0 w v Hw) as [-> ->].
  rewrite !IH. reflexivity.
Qed.

Lemma first_non_reflexive_spec w0 this name variables :
  forall selectedVariable w,
    same_edge_data w0 w ->
    exists w',
      first_non_reflexive this name variables selectedVariable w
      = (inr (default selectedVariable
                (List.find (on_plain_edge (graph w0)) variables)), w')
      /\ same_edge_data w0 w'.
Proof.
  induction variables as [|x xs IH]; intros sel w Hw.
  - exists w. split; [reflexivity|exact Hw].
  - cbn [first_non_reflexive List.find]. unfold on_plain_edge at 1.
    destruct (no_edgeId x) eqn:Ex; cbn [negb andb].
    + unfold mbind, M_bind, bind.
      pose proof (same_edge_data_error w0 w this
                    ("Variable " +:+ name +:+ " has no edgeId") Hw) as Hw1.
      destruct (error this ("Variable " +:+ name +:+ " has no edgeId") w)
        as [[e|[]] w1] eqn:Ee; [rewrite error_eq in Ee; discriminate|].
      exact (IH sel w1 Hw1).
    + rewrite (bind_inr _ _ w (edge_of (graph w) x) w) by reflexivity.
      destruct (same_edge_data_edge_of w0 w x Hw) as [-> _].
      destruct (is_reflexive_edge (edge_of (graph w0) x)); cbn [negb].
      * exact (IH sel w Hw).
      * exists w. split; [reflexivity|exact Hw].
Qed.

Lemma resolveVariableConflicts_loop_selected w0 this variableValues names :
  forall finalVariables w,
    same_edge_data w0 w ->
    forall result w',
      resolveVariableConflicts_loop this names variableValues finalVariables w
      = (inr result, w') ->
      exists selected,
        result = finalVariables ++ selected
        /\ Forall2 (fun n v => selected_for (graph w0) variableValues n = Some v)
             names selected.
Proof.
  induction names as [|n names IH]; intros acc w Hw result w' E.
  - injection E as <- _. exists []. rewrite app_nil_r. split; [reflexivity|constructor].
  - cbn [resolveVariableConflicts_loop] in E. fold (named n variableValues) in E.
    destruct (named n variableValues) as [|first vs] eqn:Evs; [discriminate E|].
    rewrite (bind_inr _ _ w (prefer_reflexive (graph w) (first :: vs) first) w) in E
      by reflexivity.
    rewrite (prefer_reflexive_ext w0 w _ Hw) in E.
    set (p := prefer_reflexive (graph w0) (first :: vs) first) in *.
    destruct (negb (snd p) && String.eqb (v_content (fst p)) EmptyString) eqn:Ec.
    + destruct (first_non_reflexive_spec w0 this n (first :: vs) (fst p) w Hw)
        as (w1 & E1 & Hw1).
      rewrite (bind_inr _ _ _ _ _ E1) in E.
      destruct (IH _ _ Hw1 _ _ E) as (sel & -> & Hsel).
      eexists (_ :: sel). split; [rewrite <- app_assoc; reflexivity|].
      constructor; [|exact Hsel]. unfold selected_for. rewrite Evs.
      fold p. cbv zeta. rewrite Ec. reflexivity.
    + rewrite (bind_inr _ _ w (fst p) w) in E by reflexivity.
      destruct (IH _ _ Hw _ _ E) as (sel & -> & Hsel).
      eexists (_ :: sel). split; [rewrite <- app_assoc; reflexivity|].
      constructor; [|exact Hsel]. unfold selected_for. rewrite Evs.
      fold p. cbv zeta. rewrite Ec. reflexivity.
Qed.

Lemma resolveVariableConflicts_selected this names variableValues w result w' :
  resolveVariableConflicts this names variableValues w = (inr result, w') ->
  Forall2 (fun n v => selected_for (graph w) variableValues n = Some v)
    names result.
Proof.
  unfold resolveVariableConflicts. destruct (existsb _ _); [discriminate|].
  intros E.
  destruct (resolveVariableConflicts_loop_selected w this variableValues names
              [] w (same_edge_data_refl w) _ _ E) as (sel & -> & Hsel).
  exact Hsel.
Qed.

Lemma prefer_reflexive_decisive g pre d post :
  forallb (fun v => negb (decisive g v)) pre = true ->
  decisive g d = true ->
  forall selectedVariable,
    prefer_reflexive g (pre ++ d :: post) selectedVariable
    = (d, negb (no_edgeId d)).
Proof.
  intros Hpre Hd. induction pre as [|v pre IH]; intros sel.
  - cbn [app prefer_reflexive]. unfold decisive in Hd.
    destruct (no_edgeId d); [reflexivity|]. cbn [orb] in Hd.
    apply andb_true_iff in Hd as [-> ->]. reflexivity.
  - cbn [forallb] in Hpre. apply andb_true_iff in Hpre as [Hv Hpre].
    apply negb_true_iff in Hv. unfold decisive in Hv.
    apply orb_false_iff in Hv as [Hid Hv].
    cbn [app prefer_reflexive]. rewrite Hid.
    destruct (is_reflexive_edge (edge_of g v)); cbn [andb] in Hv.
    + rewrite Hv. apply (IH Hpre).
    + apply (IH Hpre).
Qed.

(** X22: the variable that decides a name.  Among the variables of one
    name, in their order, the first that is given by the node or that
    is carried by a reflexive edge holding content is the one
    [resolveVariableConflicts] returns for the name, provided it is not
    a variable of the node with empty content. *)
Theorem X22_first_decisive_variable_wins
    (this : string) (names : list string)
    (variableValues : list VariableValue) (w : World)
    (finalVariables : list VariableValue) (w' : World)
    (k : nat) (n : string) (pre : list VariableValue) (d : VariableValue)
    (post : list VariableValue) :
  resolveVariableConflicts this names variableValues w
  = (inr finalVariables, w') ->
  names !! k = Some n ->
  named n variableValues = pre ++ d :: post ->
  forallb (fun v => negb (decisive (graph w) v)) pre = true ->
  decisive (graph w) d = true ->
  no_edgeId d && String.eqb (v_content d) EmptyString = false ->
  finalVariables !! k = Some d.
Proof.
  intros E Hk Hvs Hpre Hd Hcontent.
  pose proof (resolveVariableConflicts_selected _ _ _ _ _ _ E) as Hsel.
  destruct (Forall2_lookup_l _ _ _ _ _ Hsel Hk) as (v & Hv & Hfor).
  rewrite Hv. f_equal.
  unfold selected_for in Hfor. rewrite Hvs in Hfor.
  destruct (pre ++ d :: post) as [|first rest] eqn:El;
    [destruct pre; discriminate El|].
  rewrite <- El in Hfor.
  rewrite (prefer_reflexive_decisive _ _ _ _ Hpre Hd) in Hfor.
  cbn [fst snd] in Hfor. rewrite negb_involutive, Hcontent in Hfor.
  injection Hfor as <-. reflexivity.
Qed.

Lemma X22_first_decisive_variable_witness :
  exists finalVariables w',
    resolveVariableConflicts "n" ["x"; "y"] example_variables node_with_variables
    = (inr finalVariables, w')
    /\ finalVariables !! 0%nat
       = Some {| v_name := "x"; v_content := "kept"; v_edgeId := Some "acc" |}.
Proof.
  destruct (resolveVariableConflicts "n" ["x"; "y"] example_variables
              node_with_variables) as [[e|finals] w'] eqn:E;
    [vm_compute in E; discriminate E|].
  exists finals, w'. split; [reflexivity|].
  exact (X22_first_decisive_variable_wins "n" ["x"; "y"] example_variables
           node_with_variables finals w' 0 "x"
           [{| v_name := "x"; v_content := "plain"; v_edgeId := Some "p" |}]
           {| v_name := "x"; v_content := "kept"; v_edgeId := Some "acc" |} []
           E eq_refl eq_refl eq_refl eq_refl eq_refl).
Defined.

Lemma prefer_reflexive_undecided g variables :
  forallb (fun v => negb (decisive g v)) variables = true ->
  forall selectedVariable,
    snd (prefer_reflexive g variables selectedVariable) = false
    /\ (fst (prefer_reflexive g variables selectedVariable) = selectedVariable
        \/ (fst (prefer_reflexive g variables selectedVariable) ∈ variables
            /\ is_reflexive_edge
                 (edge_of g (fst (prefer_reflexive g variables selectedVariable)))
               = true)).
Proof.
  induction variables as [|v vs IH]; intros Hvs sel.
  - split; [reflexivity|left; reflexivity].
  - cbn [forallb] in Hvs. apply andb_true_iff in Hvs as [Hv Hvs].
    apply negb_true_iff in Hv. unfold decisive in Hv.
    apply orb_false_iff in Hv as [Hid Hv].
    cbn [prefer_reflexive]. rewrite Hid.
    destruct (is_reflexive_edge (edge_of g v)) eqn:Er; cbn [andb] in Hv.
    + rewrite Hv. destruct (IH Hvs v) as [Hsnd [Hfst|[Hin Hrefl]]].
      * split; [exact Hsnd|]. right. rewrite Hfst. split; [left|exact Er].
      * split; [exact Hsnd|]. right. split; [right; exact Hin|exact Hrefl].
    + destruct (IH Hvs sel) as [Hsnd [Hfst|[Hin Hrefl]]].
      * split; [exact Hsnd|]. left. exact Hfst.
      * split; [exact Hsnd|]. right. split; [right; exact Hin|exact Hrefl].
Qed.

Lemma find_first_plain g pre pl post :
  forallb (fun v => is_reflexive_edge (edge_of g v)) pre = true ->
  on_plain_edge g pl = true ->
  List.find (on_plain_edge g) (pre ++ pl :: post) = Some pl.
Proof.
  intros Hpre Hpl. induction pre as [|v pre IH].
  - cbn [app List.find]. rewrite Hpl. reflexivity.
  - cbn [forallb] in Hpre. apply andb_true_iff in Hpre as [Hv Hpre].
    cbn [app List.find]. unfold on_plain_edge at 1. rewrite Hv, andb_false_r.
    exact (IH Hpre).
Qed.

(** X23: a plain edge wins over an empty reflexive edge.  When no
    variable of a name is given by the node and no reflexive edge of
    the name holds content, so that the variables of the reflexive
    edges are empty, [resolveVariableConflicts] returns for the name
    the first variable that is carried by an edge that is not
    reflexive. *)
Theorem X23_plain_edge_wins_over_an_empty_reflexive_edge
    (this : string) (names : list string)
    (variableValues : list VariableValue) (w : World)
    (finalVariables : list VariableValue) (w' : World)
    (k : nat) (n : string) (pre : list VariableValue) (pl : VariableValue)
    (post : list VariableValue) :
  resolveVariableConflicts this names variableValues w
  = (inr finalVariables, w') ->
  names !! k = Some n ->
  named n variableValues = pre ++ pl :: post ->
  forallb (fun v => negb (decisive (graph w) v)) (pre ++ pl :: post) = true ->
  forallb (fun v => is_reflexive_edge (edge_of (graph w) v)) pre = true ->
  is_reflexive_edge (edge_of (graph w) pl) = false ->
  forallb (fun v => negb (is_reflexive_edge (edge_of (graph w) v))
                    || String.eqb (v_content v) EmptyString)
    (pre ++ pl :: post) = true ->
  finalVariables !! k = Some pl.
Proof.
  intros E Hk Hvs Hund Hpre Hpl Hempty.
  pose proof (resolveVariableConflicts_selected _ _ _ _ _ _ E) as Hsel.
  destruct (Forall2_lookup_l _ _ _ _ _ Hsel Hk) as (v & Hv & Hfor).
  rewrite Hv. f_equal.
  assert (Hplain : on_plain_edge (graph w) pl = true).
  { unfold on_plain_edge. rewrite Hpl.
    rewrite forallb_forall in Hund.
    specialize (Hund pl ltac:(apply in_or_app; right; left; reflexivity)).
    apply negb_true_iff in Hund. unfold decisive in Hund.
    apply orb_false_iff in Hund as [-> _]. reflexivity. }
  unfold selected_for in Hfor. rewrite Hvs in Hfor.
  destruct (pre ++ pl :: post) as [|first rest] eqn:El;
    [destruct pre; discriminate El|].
  cbv zeta in Hfor.
  destruct (prefer_reflexive_undecided _ _ Hund first) as [Hsnd Hfst].
  rewrite Hsnd in Hfor. cbn [negb andb] in Hfor.
  assert (Hfind : List.find (on_plain_edge (graph w)) (first :: rest) = Some pl)
    by (rewrite <- El; exact (find_first_plain _ _ _ _ Hpre Hplain)).
  rewrite Hfind in Hfor. cbn [default] in Hfor.
  set (p := prefer_reflexive (graph w) (first :: rest) first) in *.
  assert (Hcase : fst p = pl \/ String.eqb (v_content (fst p)) EmptyString = true).
  { assert (Hrefl : forall x, In x (first :: rest) ->
                      is_reflexive_edge (edge_of (graph w) x) = true ->
                      String.eqb (v_content x) EmptyString = true).
    { intros x Hx Hr. rewrite forallb_forall in Hempty.
      specialize (Hempty x Hx). rewrite Hr in Hempty. exact Hempty. }
    destruct Hfst as [Hfirst|[Hin Hr]].
    - destruct pre as [|x pre].
      + left. injection El as <- _. exact Hfirst.
      + right. injection El as <- _. rewrite Hfirst.
        cbn [forallb] in Hpre. apply andb_true_iff in Hpre as [Hx _].
        apply Hrefl; [left; reflexivity|exact Hx].
    - right. apply Hrefl; [apply list_elem_of_In; exact Hin|exact Hr]. }
  destruct Hcase as [Hp|Hp].
  - rewrite Hp in Hfor. destruct (String.eqb (v_content pl) EmptyString);
      injection Hfor as <-; reflexivity.
  - rewrite Hp in Hfor. injection Hfor as <-. reflexivity.
Qed.

Lemma X23_plain_edge_witness :
  exists finalVariables w',
    resolveVariableConflicts "n" ["x"; "NOTE"] variables_with_note
      node_with_empty_accumulator = (inr finalVariables, w')
    /\ finalVariables !! 0%nat
       = Some {| v_name := "x"; v_content := "plain"; v_edgeId := Some "p" |}.
Proof.
  destruct (resolveVariableConflicts "n" ["x"; "NOTE"] variables_with_note
              node_with_empty_accumulator) as [[e|finals] w'] eqn:E;
    [vm_compute in E; discriminate E|].
  exists finals, w'. split; [reflexivity|].
  exact (X23_plain_edge_wins_over_an_empty_reflexive_edge "n" ["x"; "NOTE"]
           variables_with_note node_with_empty_accumulator finals w' 0 "x"
           [{| v_name := "x"; v_content := ""; v_edgeId := Some "acc" |}]
           {| v_name := "x"; v_content := "plain"; v_edgeId := Some "p" |} []
           E eq_refl eq_refl eq_refl eq_refl eq_refl eq_refl).
Defined.

(** ** The loop index *)

(** X24: the loop index advances with the passes.  For a node enclosed
    at [depth] by a repeat group whose current loop is [c], the loop
    index is [c + 1]; [membersFinished] on the group returns, and
    after it the index is [c + 2] when the group starts another pass
    and still [c + 1] when the group completes. *)
Theorem X24_loop_index_advances_with_the_passes `{Host}
    (this : string) (tc : CannoliObject) (c : Z) (t : CannoliObject)
    (depth : nat) (w : World) :
  graph w !! this = Some tc ->
  instanceof (cls tc) RepeatGroup = true ->
  type tc = Some (TGroup GroupType.Repeat) ->
  currentLoop tc = Some c ->
  subtree_ok this w = true ->
  groups t !! depth = Some this ->
  getLoopIndex (graph w) t depth = Some (Some (c + 1))
  /\ exists w',
       membersFinished this w = (inr tt, w')
       /\ getLoopIndex (graph w') t depth
          = Some (Some (if c <? maxLoops tc then c + 2 else c + 1)).
Proof.
  intros Ht Hcls Hty Hc Hok Hdepth.
  assert (Hgroup : instanceof (cls tc) CannoliGroup = true)
    by (destruct (cls tc); try discriminate Hcls; reflexivity).
  assert (Hindex : forall g o,
             g !! this = Some o -> cls o = cls tc -> type o = type tc ->
             getLoopIndex g t depth = Some ((fun c => c + 1) <$> currentLoop o)).
  { intros g o Ho Hocls Hoty. unfold getLoopIndex. rewrite Hdepth, Ho, Hocls, Hgroup.
    cbn [negb]. rewrite Hoty, Hty.
    rewrite (bool_decide_eq_true_2 _ eq_refl). reflexivity. }
  split.
  - rewrite (Hindex _ _ Ht eq_refl eq_refl), Hc. reflexivity.
  - destruct (membersFinished_step this w tc c Ht Hcls Hc Hok) as (w' & E & _ & Hstep).
    exists w'. split; [exact E|].
    destruct (c <? maxLoops tc).
    + destruct Hstep as [Hw' _]. rewrite (Hindex _ _ Hw' eq_refl eq_refl).
      cbn. f_equal. f_equal. lia.
    + destruct Hstep as [Hw' _]. rewrite (Hindex _ _ Hw' eq_refl eq_refl).
      cbn. rewrite Hc. reflexivity.
Qed.

Lemma X24_loop_index_witness :
  getLoopIndex (graph typed_repeat_twice) member_n 0 = Some (Some 1)
  /\ exists w',
       membersFinished (H := example_host None) "loop" typed_repeat_twice
       = (inr tt, w')
       /\ getLoopIndex (graph w') member_n 0 = Some (Some 2).
Proof.
  exact (X24_loop_index_advances_with_the_passes (H := example_host None)
           "loop" _ 0 member_n 0 typed_repeat_twice
           eq_refl eq_refl eq_refl eq_refl eq_refl eq_refl).
Defined.

(** ** References to floating nodes *)

Lemma FloatingNode_editContent_eq i o c w :
  graph w !! i = Some o ->
  FloatingNode_editContent i c w
  = (inr tt,
     {| graph := <[i := set_text (firstLine_of (text o) +:+ newline +:+ c) o]> (graph w);
        trace := trace w ++ [Update i (status o)] |}).
Proof.
  intros Hi. unfold FloatingNode_editContent. unfold_m. rewrite Hi. cbn.
  rewrite (alter_alt_Some _ _ _ _ Hi). reflexivity.
Qed.

(** X25: what is written to a floating node is what a reference to it
    reads.  After [editContent] on the only floating node of its name,
    [getContentFromFloatingNode] returns, for that name, the content
    that was written. *)
Theorem X25_reference_reads_what_was_written
    (i : string) (o : CannoliObject) (c : string) (keys : list string)
    (w : World) :
  graph w !! i = Some o ->
  instanceof (cls o) FloatingNode = true ->
  i ∈ keys ->
  only_floating_node_named (graph w) keys i (FloatingNode_getName o) = true ->
  getContentFromFloatingNode
    (graph (world (FloatingNode_editContent i c w))) keys (FloatingNode_getName o)
  = Some c.
Proof.
  intros Hi Hcls Hin Honly. rewrite (FloatingNode_editContent_eq i o c w Hi).
  cbn [world snd graph].
  set (o' := set_text (firstLine_of (text o) +:+ newline +:+ c) o).
  assert (Hname : FloatingNode_getName o' = FloatingNode_getName o).
  { unfold FloatingNode_getName, o'. cbn [text set_text].
    rewrite (firstLine_of_app _ _ (firstLine_of_no_newline _)). reflexivity. }
  assert (Hcontent : FloatingNode_getContent o' = c).
  { unfold FloatingNode_getContent, o'. cbn [text set_text].
    rewrite (firstLine_of_app _ _ (firstLine_of_no_newline _)).
    apply substringFrom_app. }
  unfold only_floating_node_named in Honly.
  induction keys as [|k keys IH]; [inversion Hin|].
  cbn [forallb] in Honly. apply andb_true_iff in Honly as [Hk Honly].
  cbn [getContentFromFloatingNode].
  destruct (String.eqb_spec k i) as [->|Hne].
  - rewrite lookup_insert_eq.
    replace (cls o') with (cls o) by reflexivity.
    rewrite Hcls, Hname, String.eqb_refl, Hcontent. reflexivity.
  - rewrite lookup_insert_ne by congruence. cbn [orb] in Hk.
    apply elem_of_cons in Hin as [Hin|Hin]; [congruence|].
    destruct (graph w !! k) as [object|]; [|exact (IH Hin Honly)].
    apply negb_true_iff in Hk. rewrite Hk. exact (IH Hin Honly).
Qed.

Lemma X25_reference_witness :
  getContentFromFloatingNode
    (graph (world (FloatingNode_editContent "f" "new" named_nodes)))
    ["o"; "f"] "notes"
  = Some "new".
Proof.
  apply (X25_reference_reads_what_was_written "f" _ "new" ["o"; "f"] named_nodes
           eq_refl eq_refl).
  - apply (proj1 (bool_decide_eq_true _)). reflexivity.
  - reflexivity.
Defined.
